(** * fitness-pwa: the aggregation and consistency layer of the edge server

    A shallow embedding of the functions of
    [src/supabase/functions/server/index.tsx] that compute client-facing
    views and keep the relational store consistent: [formatRepsFallback],
    [startOfWeek], [computeStreakStats], [computeWeeklyGoal], the
    health-alert correlation of the PT dashboard route,
    [resolveExerciseCatalogId] and [upsertRoutine].

    Conventions.
    - A JavaScript number that the code only ever uses as an integer (a
      [smallint] column, a count, a millisecond timestamp) is a [Z] or a
      [nat]; [null] is [None].
    - An instant ([Date], [timestamptz]) is its number of milliseconds since
      the epoch, a [Z].
    - A UTC calendar date, which the code carries as the ["YYYY-MM-DD"] prefix
      of [toISOString()], is the index of its day since 1970-01-01.  For the
      years 0000 to 9999 the prefix and the day index determine each other and
      the lexicographic order of the prefixes is the order of the indices, so
      [Array.prototype.sort] on the prefixes is a sort on the indices.
    - A [uuid] is a [nat]; [gen_random_uuid()] draws from a counter. *)

From Stdlib Require Import String Ascii DecimalString.
From Stdlib Require Import ZArith Bool Arith Lia List.
Import ListNotations.

Local Open Scope string_scope.
Local Open Scope list_scope.
Local Open Scope Z_scope.

(* ================================================================== *)
(** * JavaScript values *)

Module Js.

(** [String(n)] for an integer [n]. *)
Definition String_of_Z (n : Z) : string :=
  NilZero.string_of_int (Z.to_int n).

(** [String(v)] for [v : number | null]. *)
Definition String_ (v : option Z) : string :=
  match v with
  | Some n => String_of_Z n
  | None => "null"
  end.

(** Truthiness of a [number | null]: [null] and [0] are falsy. *)
Definition truthy (v : option Z) : bool :=
  match v with
  | Some n => negb (n =? 0)
  | None => false
  end.

(** [a !== b] on [number | null]. *)
Definition strict_neq (a b : option Z) : bool :=
  match a, b with
  | Some x, Some y => negb (x =? y)
  | None, None => false
  | _, _ => true
  end.

(** [Math.round(n / d)] for integers [n] and [d > 0]: the nearest integer,
    a half rounded up. *)
Definition round_div (n d : Z) : Z := (2 * n + d) / (2 * d).

End Js.

(* ================================================================== *)
(** * RoutineViewBuilder: the rep-range fallback *)

(** [formatRepsFallback(min, max)], index.tsx lines 175-183. *)
Definition formatRepsFallback (min max : option Z) : string :=
  if Js.truthy min && Js.truthy max && Js.strict_neq min max
  then (Js.String_ min ++ "-" ++ Js.String_ max)%string
  else if Js.truthy min
       then Js.String_ min
       else "10".

(* ================================================================== *)
(** * Dates *)

Definition MS_PER_DAY : Z := 24 * 60 * 60 * 1000.

(** The UTC calendar date of an instant:
    [new Date(t).toISOString().split("T")[0]]. *)
Definition utc_date (t : Z) : Z := t / MS_PER_DAY.

(** [new Date(dateStr + "T00:00:00.000Z").getTime()]. *)
Definition date_midnight (d : Z) : Z := d * MS_PER_DAY.

(** The instant is of a year 0000 to 9999 (UTC): from 0000-01-01T00:00Z,
    the day -719528, up to 10000-01-01T00:00Z, the day 2932897.  These are
    the years [toISOString] writes with four digits; the date strings of
    such instants sort in the order of their days. *)
Definition four_digit_year (t : Z) : Prop :=
  -719528 * MS_PER_DAY <= t < 2932897 * MS_PER_DAY.

(** [getUTCDay()]: 0 is Sunday; 1970-01-01 was a Thursday. *)
Definition getUTCDay (t : Z) : Z := (utc_date t + 4) mod 7.

(** [startOfWeek(date)], index.tsx lines 130-136. *)
Definition startOfWeek (date : Z) : Z :=
  let result := date_midnight (utc_date date) in
  let day := getUTCDay result in
  let diff := (day + 6) mod 7 in
  date_midnight (utc_date result - diff).

(* ================================================================== *)
(** * StreakCalculator *)

Record StreakStats := {
  currentStreak : nat;
  longestStreak : nat;
  lastWorkoutDate : option Z;
  totalWorkouts : nat
}.

(** [Array.from(new Set(xs))]: the first occurrence of each value, in order. *)
Fixpoint uniq_acc (seen xs : list Z) : list Z :=
  match xs with
  | [] => []
  | x :: xs' =>
      if existsb (Z.eqb x) seen then uniq_acc seen xs'
      else x :: uniq_acc (x :: seen) xs'
  end.

Definition uniq (xs : list Z) : list Z := uniq_acc [] xs.

(** Sorting by an integer key, ascending; equal keys keep their order. *)
Section SortBy.
Context {A : Type} (key : A -> Z).

Fixpoint insert_by (x : A) (l : list A) : list A :=
  match l with
  | [] => [x]
  | y :: l' => if key x <=? key y then x :: l else y :: insert_by x l'
  end.

Fixpoint sort_by (l : list A) : list A :=
  match l with
  | [] => []
  | x :: l' => insert_by x (sort_by l')
  end.
End SortBy.

(** [[...xs].sort()] on the date strings of instants of the years 0000 to
    9999 ([four_digit_year]), whose order is the order of the days.  Outside
    these years the strings carry a sign and six digits and sort otherwise;
    what is stated of the order of the dates is stated for these years. *)
Definition sort (l : list Z) : list Z := sort_by (fun d => d) l.

(** The state of the [forEach] over [uniqueDatesAsc]. *)
Record Scan := {
  scan_longest : nat;
  scan_counter : nat;
  scan_previous : option Z
}.

(** One call of the [forEach] callback, index.tsx lines 305-315. *)
Definition scan_step (s : Scan) (dateStr : Z) : Scan :=
  let currentDate := date_midnight dateStr in
  let streakCounter :=
    match scan_previous s with
    | None => 1%nat
    | Some previousDate =>
        let diffDays :=
          Js.round_div (currentDate - previousDate) MS_PER_DAY in
        if diffDays =? 1 then S (scan_counter s) else 1%nat
    end in
  {| scan_longest := Nat.max (scan_longest s) streakCounter;
     scan_counter := streakCounter;
     scan_previous := Some currentDate |}.

(** The [for] loop of lines 321-329: [expected] is [expectedDate], [rest] is
    [uniqueDatesDesc] from index [i] on. *)
Fixpoint walk_back (expected : Z) (rest : list Z) (current : nat) : nat :=
  match rest with
  | [] => current
  | d :: rest' =>
      let expected' := expected - 1 in
      if d =? expected' then walk_back expected' rest' (S current)
      else current
  end.

(** [computeStreakStats(sessionLogs)], index.tsx lines 283-338; [now] is the
    instant [new Date()] reads. *)
Definition computeStreakStats (now : Z) (sessionLogs : list Z) : StreakStats :=
  match sessionLogs with
  | [] =>
      {| currentStreak := 0; longestStreak := 0;
         lastWorkoutDate := None; totalWorkouts := 0 |}
  | _ :: _ =>
      let uniqueDates := uniq (map utc_date sessionLogs) in
      let uniqueDatesAsc := sort uniqueDates in
      let uniqueDatesDesc := rev (sort uniqueDates) in
      let todayStr := utc_date now in
      let s := fold_left scan_step uniqueDatesAsc
                 {| scan_longest := 0; scan_counter := 0;
                    scan_previous := None |} in
      let current :=
        match uniqueDatesDesc with
        | d0 :: rest =>
            if d0 =? todayStr then walk_back todayStr rest 1 else 0%nat
        | [] => 0%nat
        end in
      {| currentStreak := current;
         longestStreak := scan_longest s;
         lastWorkoutDate := hd_error uniqueDatesDesc;
         totalWorkouts := length sessionLogs |}
  end.

(* ================================================================== *)
(** * WeeklyGoalEvaluator *)

Record WeeklyGoalStats := {
  goal : Z;
  completed : nat;
  weekStart : Z
}.

(** [computeWeeklyGoal(profile, sessionLogs, routineCount)], index.tsx lines
    340-364; [training_frequency_goal] is the only field of the profile that
    is read, [now] is the instant [new Date()] reads. *)
Definition computeWeeklyGoal (training_frequency_goal : option Z)
    (sessionLogs : list Z) (routineCount : Z) (now : Z) : WeeklyGoalStats :=
  let weekStart := startOfWeek now in
  let weekEnd := date_midnight (utc_date weekStart + 7) in
  let completed :=
    length (filter (fun performed =>
                      (weekStart <=? performed) && (performed <? weekEnd))
                   sessionLogs) in
  let goal :=
    match training_frequency_goal with
    | Some g => if negb (g =? 0) && (0 <? g) then g else routineCount
    | None => routineCount
    end in
  {| goal := goal; completed := completed; weekStart := weekStart |}.


(* ================================================================== *)
(** * HealthAlertCorrelator: the alerts of [GET /pt/dashboard] *)

Inductive HealthStatus := ACUTE | LINGERING | RESOLVED.

Inductive EventType := session | break | studio.

Record Profile := {
  pr_id : nat;
  pr_full_name : string
}.

(** A row of [pt_clients]. *)
Record Assignment := {
  pc_pt_id : nat;
  pc_client_id : nat;
  pc_active : bool
}.

Record HealthLog := {
  hl_id : nat;
  hl_client_id : nat;
  hl_injury_title : string;
  hl_status : HealthStatus;
  hl_logged_at : Z
}.

Record CalendarEvent := {
  ev_id : nat;
  ev_pt_id : nat;
  ev_client_id : option nat;
  ev_start_at : Z;
  ev_end_at : Z;
  ev_event_type : EventType
}.

Record Alert := {
  eventId : nat;
  clientId : nat;
  clientName : string;
  sessionStart : Z;
  sessionEnd : Z;
  injuryTitle : string;
  status : HealthStatus
}.

Definition is_session (t : EventType) : bool :=
  match t with session => true | _ => false end.

(** [log.status === "ACUTE" || log.status === "LINGERING"]. *)
Definition is_active (log : HealthLog) : bool :=
  match hl_status log with
  | ACUTE | LINGERING => true
  | RESOLVED => false
  end.

Definition mem (x : nat) (l : list nat) : bool := existsb (Nat.eqb x) l.

(** [from("pt_clients").select("client_id").eq("pt_id", ..).eq("status",
    "active")], lines 693-704. *)
Definition fetch_client_ids (pt_clients : list Assignment) (pt : nat)
  : list nat :=
  map pc_client_id
      (filter (fun a => Nat.eqb (pc_pt_id a) pt && pc_active a) pt_clients).

(** [from("profiles").select("*").in("id", clientIds)]. *)
Definition fetch_client_profiles (profiles : list Profile)
    (clientIds : list nat) : list Profile :=
  filter (fun p => mem (pr_id p) clientIds) profiles.

(** [from("client_health_logs")...in("client_id", clientIds)
    .order("logged_at", { ascending: false })], lines 738-742. *)
Definition fetch_health_logs (client_health_logs : list HealthLog)
    (clientIds : list nat) : list HealthLog :=
  sort_by (fun l => - hl_logged_at l)
          (filter (fun l => mem (hl_client_id l) clientIds)
                  client_health_logs).

(** The query of lines 765-771; [now0] and [now1] are what [new Date()] and
    [Date.now()] read. *)
Definition fetch_upcoming_sessions (pt_calendar_events : list CalendarEvent)
    (pt : nat) (now0 now1 : Z) : list CalendarEvent :=
  filter (fun e =>
            Nat.eqb (ev_pt_id e) pt
            && is_session (ev_event_type e)
            && (now0 <=? ev_start_at e)
            && (ev_start_at e <=? now1 + 15 * 60 * 1000))
         pt_calendar_events.

(** [healthLogsByClient.get(clientId)], lines 749-755: the fetched logs of
    one client, in the fetched order. *)
Definition healthLogsByClient (healthLogs : list HealthLog) (client : nat)
  : list HealthLog :=
  filter (fun l => Nat.eqb (hl_client_id l) client) healthLogs.

(** [activeIssueByClient.get(clientId)], lines 757-763. *)
Definition activeIssueByClient (healthLogs : list HealthLog) (client : nat)
  : option HealthLog :=
  find is_active (healthLogsByClient healthLogs client).

(** [clientIdToProfile[clientId]], lines 733-736: a later row overwrites an
    earlier one. *)
Definition clientIdToProfile (clientProfiles : list Profile) (client : nat)
  : option Profile :=
  find (fun p => Nat.eqb (pr_id p) client) (rev clientProfiles).

(** The alert of one upcoming session, lines 780-792; [None] when the filter
    drops the session. *)
Definition alert_of (clientProfiles : list Profile)
    (healthLogs : list HealthLog) (s : CalendarEvent) : option Alert :=
  match ev_client_id s with
  | None => None
  | Some c =>
      match activeIssueByClient healthLogs c with
      | None => None
      | Some issue =>
          Some {| eventId := ev_id s;
                  clientId := c;
                  clientName :=
                    match clientIdToProfile clientProfiles c with
                    | Some p => pr_full_name p
                    | None => "Client"
                    end;
                  sessionStart := ev_start_at s;
                  sessionEnd := ev_end_at s;
                  injuryTitle := hl_injury_title issue;
                  status := hl_status issue |}
      end
  end.

(** [upcomingSessions.filter(..).map(..)], lines 778-793. *)
Fixpoint alerts_of (clientProfiles : list Profile)
    (healthLogs : list HealthLog) (upcomingSessions : list CalendarEvent)
  : list Alert :=
  match upcomingSessions with
  | [] => []
  | s :: rest =>
      match alert_of clientProfiles healthLogs s with
      | Some a => a :: alerts_of clientProfiles healthLogs rest
      | None => alerts_of clientProfiles healthLogs rest
      end
  end.

Record Tables := {
  pt_clients : list Assignment;
  profiles : list Profile;
  client_health_logs : list HealthLog;
  pt_calendar_events : list CalendarEvent
}.

(** The [alerts] of the dashboard response for the trainer [pt], lines
    693-793, when every query of the route succeeds. *)
Definition alerts (t : Tables) (pt : nat) (now0 now1 : Z)
  : list Alert :=
  let clientIds := fetch_client_ids (pt_clients t) pt in
  match clientIds with
  | [] => []
  | _ :: _ =>
      let clientProfiles := fetch_client_profiles (profiles t) clientIds in
      let healthLogs := fetch_health_logs (client_health_logs t) clientIds in
      let upcomingSessions :=
        fetch_upcoming_sessions (pt_calendar_events t) pt now0 now1 in
      alerts_of clientProfiles healthLogs upcomingSessions
  end.


(* ================================================================== *)
(** * Text: [trim], [lower] and [ILIKE]

    A name is a [string] of 8-bit characters read as the code points U+0000
    to U+00FF; letter case is that of the ASCII letters. *)

Module Text.

Local Open Scope char_scope.

(** The white space [String.prototype.trim] strips, below U+0100. *)
Definition is_space (c : ascii) : bool :=
  let n := nat_of_ascii c in
  ((9 <=? n) && (n <=? 13) || (n =? 32) || (n =? 160))%nat.

Fixpoint trim_start (s : string) : string :=
  match s with
  | EmptyString => EmptyString
  | String c s' => if is_space c then trim_start s' else s
  end.

Fixpoint trim_end (s : string) : string :=
  match s with
  | EmptyString => EmptyString
  | String c s' =>
      match trim_end s' with
      | EmptyString => if is_space c then EmptyString
                       else String c EmptyString
      | r => String c r
      end
  end.

(** [s.trim()]. *)
Definition trim (s : string) : string := trim_end (trim_start s).

Definition lower_char (c : ascii) : ascii :=
  let n := nat_of_ascii c in
  if ((65 <=? n) && (n <=? 90))%nat then ascii_of_nat (n + 32) else c.

(** SQL [lower(s)]. *)
Fixpoint lower (s : string) : string :=
  match s with
  | EmptyString => EmptyString
  | String c s' => String (lower_char c) (lower s')
  end.

(** The tail of a [LIKE] pattern after a [%]: [k] matches the rest of the
    pattern against some suffix of the text. *)
Fixpoint like_any (k : string -> bool) (t : string) : bool :=
  k t || match t with
         | EmptyString => false
         | String _ t' => like_any k t'
         end.

(** SQL [t LIKE p]: [%] matches any run of characters, [_] any one
    character, a backslash takes the next character literally.  A pattern
    that ends in a lone backslash matches no text (PostgreSQL answers
    either false or an error, and the query has no [data] in both
    cases). *)
Fixpoint like (p : string) : string -> bool :=
  match p with
  | EmptyString =>
      fun t => match t with EmptyString => true | _ => false end
  | String c p' =>
      if Ascii.eqb c "%" then like_any (like p')
      else if Ascii.eqb c "_" then
        fun t => match t with
                 | EmptyString => false
                 | String _ t' => like p' t'
                 end
      else if Ascii.eqb c "\" then
        match p' with
        | EmptyString => fun _ => false
        | String e p'' =>
            fun t => match t with
                     | EmptyString => false
                     | String d t' => Ascii.eqb e d && like p'' t'
                     end
        end
      else
        fun t => match t with
                 | EmptyString => false
                 | String d t' => Ascii.eqb c d && like p' t'
                 end
  end.

(** PostgREST reads [*] in the operand of [like] and [ilike] as [%]. *)
Fixpoint star_to_percent (p : string) : string :=
  match p with
  | EmptyString => EmptyString
  | String c p' =>
      String (if Ascii.eqb c "*" then "%" else c) (star_to_percent p')
  end.

(** The filter [.ilike(column, pattern)] on a text column: PostgreSQL
    [ILIKE] folds the case of both sides and matches with [LIKE]. *)
Definition ilike (pattern text : string) : bool :=
  like (lower (star_to_percent pattern)) (lower text).

(** A character that [ilike] reads as itself. *)
Definition plain_char (c : ascii) : bool :=
  negb (Ascii.eqb c "%" || Ascii.eqb c "_" || Ascii.eqb c "\"
        || Ascii.eqb c "*").

Fixpoint plain (s : string) : bool :=
  match s with
  | EmptyString => true
  | String c s' => plain_char c && plain s'
  end.

End Text.

(* ================================================================== *)
(** * The relational store *)

(** A set of the request body, [{ reps?, rest?, weight? }]. *)
Record SetInput := {
  si_reps : option (string + Z);
  si_rest : option (string + Z);
  si_weight : option Z
}.

(** An exercise of the request body. *)
Record ExerciseInput := {
  ex_name : string;
  ex_notes : option string;
  ex_catalogId : option nat;
  ex_defaultRestSeconds : option Z;
  ex_sets : list SetInput
}.

(** The parameter of [upsertRoutine]. *)
Record RoutineParams := {
  p_routineId : option nat;
  p_ptId : nat;
  p_clientId : nat;
  p_name : string;
  p_exercises : list ExerciseInput
}.

(** A row of [exercises_catalog]. *)
Record CatalogRow := {
  cat_id : nat;
  cat_pt_id : nat;
  cat_name : string;
  cat_instruction_notes : option string;
  cat_default_rest_seconds : option Z
}.

(** A row of [routines]. *)
Record RoutineRow := {
  rt_id : nat;
  rt_pt_id : nat;
  rt_client_id : nat;
  rt_routine_name : string
}.

(** A row of [routine_exercises]. *)
Record RoutineExerciseRow := {
  re_id : nat;
  re_routine_id : nat;
  re_exercise_id : nat;
  re_position : nat;
  re_notes : option string
}.

(** A row of [routine_exercise_sets].  The four [target_*] columns are
    functions of the submitted set (lines 956-959) and take no part in the
    control flow; the row keeps the submitted set they are computed from,
    and nothing is stated of the values of these columns. *)
Record SetRow := {
  rs_id : nat;
  rs_routine_exercise_id : nat;
  rs_set_number : nat;
  rs_targets : SetInput
}.

Record Db := {
  exercises_catalog : list CatalogRow;
  routines : list RoutineRow;
  routine_exercises : list RoutineExerciseRow;
  routine_exercise_sets : list SetRow;
  next_uuid : nat
}.

(** The [error] of a reply of the store. *)
Inductive StoreError :=
| PGRST116             (** [maybeSingle()] found more than one row *)
| unique_violation     (** SQLSTATE 23505 *)
| foreign_key_violation (** SQLSTATE 23503 *)
| failure.             (** any other failure of the query *)

(** The reply [{ data, error }] of a query. *)
Record Reply (A : Type) := {
  data : option A;
  error : option StoreError
}.
Arguments data {A} _.
Arguments error {A} _.

Definition found {A} (a : A) : Reply A := {| data := Some a; error := None |}.
Definition nothing {A} : Reply A := {| data := None; error := None |}.
Definition failed {A} (e : StoreError) : Reply A :=
  {| data := None; error := Some e |}.

(** [maybeSingle()] on the rows a [select] matched. *)
Definition maybeSingle {A} (rows : list A) : Reply A :=
  match rows with
  | [] => nothing
  | [r] => found r
  | _ :: _ :: _ => failed PGRST116
  end.

Module Store.

(** [from("exercises_catalog").select("id").eq("id", id).eq("pt_id", pt)
    .maybeSingle()]. *)
Definition select_catalog_by_id (id pt : nat) (d : Db) : Reply nat * Db :=
  (maybeSingle
     (map cat_id
          (filter (fun r => Nat.eqb (cat_id r) id
                            && Nat.eqb (cat_pt_id r) pt)
                  (exercises_catalog d))),
   d).

(** [from("exercises_catalog").select("id").eq("pt_id", pt)
    .ilike("name", pattern).maybeSingle()]. *)
Definition select_catalog_by_name (pt : nat) (pattern : string) (d : Db)
  : Reply nat * Db :=
  (maybeSingle
     (map cat_id
          (filter (fun r => Nat.eqb (cat_pt_id r) pt
                            && Text.ilike pattern (cat_name r))
                  (exercises_catalog d))),
   d).

(** The unique index [exercises_catalog_unique_name_per_pt] on
    [(pt_id, lower(name))]. *)
Definition same_catalog_key (pt : nat) (name : string) (r : CatalogRow)
  : bool :=
  Nat.eqb (cat_pt_id r) pt
  && String.eqb (Text.lower (cat_name r)) (Text.lower name).

(** [from("exercises_catalog").insert({..}).select("id").single()] against
    the unique index.  What the store refuses for another reason, such as
    [CHECK (default_rest_seconds >= 0)] or the range of a column, is a
    query the world fails ([faults]). *)
Definition insert_catalog (pt : nat) (name : string)
    (notes : option string) (rest : option Z) (d : Db) : Reply nat * Db :=
  if existsb (same_catalog_key pt name) (exercises_catalog d)
  then (failed unique_violation, d)
  else
    let id := next_uuid d in
    (found id,
     {| exercises_catalog :=
          exercises_catalog d
          ++ [{| cat_id := id; cat_pt_id := pt; cat_name := name;
                 cat_instruction_notes := notes;
                 cat_default_rest_seconds := rest |}];
        routines := routines d;
        routine_exercises := routine_exercises d;
        routine_exercise_sets := routine_exercise_sets d;
        next_uuid := S id |}).

(** [from("routines").insert(payload).select("id").single()]. *)
Definition insert_routine (pt client : nat) (name : string) (d : Db)
  : Reply nat * Db :=
  let id := next_uuid d in
  (found id,
   {| exercises_catalog := exercises_catalog d;
      routines :=
        routines d
        ++ [{| rt_id := id; rt_pt_id := pt; rt_client_id := client;
               rt_routine_name := name |}];
      routine_exercises := routine_exercises d;
      routine_exercise_sets := routine_exercise_sets d;
      next_uuid := S id |}).

(** [from("routines").update(payload).eq("id", id).eq("pt_id", pt)]: a
    filter that matches no row is not an error. *)
Definition update_routine (id pt client : nat) (name : string) (d : Db)
  : Reply unit * Db :=
  (nothing,
   {| exercises_catalog := exercises_catalog d;
      routines :=
        map (fun r =>
               if Nat.eqb (rt_id r) id && Nat.eqb (rt_pt_id r) pt
               then {| rt_id := rt_id r; rt_pt_id := pt;
                       rt_client_id := client; rt_routine_name := name |}
               else r)
            (routines d);
      routine_exercises := routine_exercises d;
      routine_exercise_sets := routine_exercise_sets d;
      next_uuid := next_uuid d |}).

(** [from("routine_exercises").delete().eq("routine_id", id)]; the sets of
    a deleted exercise go with it ([ON DELETE CASCADE]). *)
Definition delete_routine_exercises (id : nat) (d : Db) : Reply unit * Db :=
  let gone :=
    map re_id
        (filter (fun r => Nat.eqb (re_routine_id r) id)
                (routine_exercises d)) in
  (nothing,
   {| exercises_catalog := exercises_catalog d;
      routines := routines d;
      routine_exercises :=
        filter (fun r => negb (Nat.eqb (re_routine_id r) id))
               (routine_exercises d);
      routine_exercise_sets :=
        filter (fun s => negb (mem (rs_routine_exercise_id s) gone))
               (routine_exercise_sets d);
      next_uuid := next_uuid d |}).

(** [from("routine_exercises").insert({..}).select("id").single()]: the
    routine and the catalog entry must exist. *)
Definition insert_routine_exercise (routine exercise position : nat)
    (notes : option string) (d : Db) : Reply nat * Db :=
  if existsb (fun r => Nat.eqb (rt_id r) routine) (routines d)
     && existsb (fun c => Nat.eqb (cat_id c) exercise) (exercises_catalog d)
  then
    let id := next_uuid d in
    (found id,
     {| exercises_catalog := exercises_catalog d;
        routines := routines d;
        routine_exercises :=
          routine_exercises d
          ++ [{| re_id := id; re_routine_id := routine;
                 re_exercise_id := exercise; re_position := position;
                 re_notes := notes |}];
        routine_exercise_sets := routine_exercise_sets d;
        next_uuid := S id |})
  else (failed foreign_key_violation, d).

(** The ids [gen_random_uuid()] gives the rows of one bulk insert. *)
Fixpoint number_rows (id : nat) (rows : list (nat * nat * SetInput))
  : list SetRow :=
  match rows with
  | [] => []
  | (re, n, t) :: rows' =>
      {| rs_id := id; rs_routine_exercise_id := re; rs_set_number := n;
         rs_targets := t |} :: number_rows (S id) rows'
  end.

(** [from("routine_exercise_sets").insert(setsPayload)]: one statement,
    all rows or none.  Each row needs its exercise, and
    [(routine_exercise_id, set_number)] is unique.  What the store refuses
    for another reason, the checks and ranges of the [target_*] columns, is
    a query the world fails ([faults]). *)
Definition insert_sets (rows : list (nat * nat * SetInput)) (d : Db)
  : Reply unit * Db :=
  let keys := map (fun r => (fst (fst r), snd (fst r))) rows in
  let old :=
    map (fun s => (rs_routine_exercise_id s, rs_set_number s))
        (routine_exercise_sets d) in
  let same (a b : nat * nat) :=
    Nat.eqb (fst a) (fst b) && Nat.eqb (snd a) (snd b) in
  let fix distinct (l : list (nat * nat)) : bool :=
    match l with
    | [] => true
    | k :: l' => negb (existsb (same k) l') && distinct l'
    end in
  if negb (forallb
             (fun k => existsb (fun r => Nat.eqb (re_id r) (fst k))
                               (routine_exercises d)) keys)
  then (failed foreign_key_violation, d)
  else if negb (distinct (keys ++ old))
  then (failed unique_violation, d)
  else
    (nothing,
     {| exercises_catalog := exercises_catalog d;
        routines := routines d;
        routine_exercises := routine_exercises d;
        routine_exercise_sets :=
          routine_exercise_sets d ++ number_rows (next_uuid d) rows;
        next_uuid := next_uuid d + length rows |}).

End Store.

(* ================================================================== *)
(** * Requests against the store

    A request runs in a [World]: the store may fail any query
    ([faults]), and other writers may change the store between two queries
    of the request ([others]); both are indexed by the [clock], the number of
    queries the request has issued so far.  Beside the store, the state of a
    request holds what it wrote with [console.error] and, as a ghost, the
    [trace] of its queries with their outcome. *)

Inductive Table :=
| t_exercises_catalog | t_routines | t_routine_exercises
| t_routine_exercise_sets.

Inductive Verb := v_select | v_insert | v_update | v_delete.

Record Op := {
  op_table : Table;
  op_verb : Verb;
  op_failed : bool
}.

Record World := {
  faults : nat -> bool;
  others : nat -> Db -> Db
}.

Record St := {
  db : Db;
  clock : nat;
  console : list string;
  trace : list Op
}.

(** The outcome of an [async] function: its value, or the message of the
    [Error] it threw. *)
Inductive Res (A : Type) :=
| Ok (a : A)
| Throw (message : string).
Arguments Ok {A} _.
Arguments Throw {A} _.

Definition M (A : Type) : Type := St -> Res A * St.

Definition ret {A} (a : A) : M A := fun s => (Ok a, s).

Definition bind {A B} (m : M A) (k : A -> M B) : M B :=
  fun s =>
    match m s with
    | (Ok a, s') => k a s'
    | (Throw e, s') => (Throw e, s')
    end.

Definition throw {A} (message : string) : M A := fun s => (Throw message, s).

Definition console_error (message : string) : M unit :=
  fun s =>
    (Ok tt, {| db := db s; clock := clock s;
               console := console s ++ [message]; trace := trace s |}).

Declare Scope request_scope.
Delimit Scope request_scope with request.
Notation "x <- m ;; k" := (bind m (fun x => k))
  (at level 61, m at next level, right associativity) : request_scope.
Notation "m ;; k" := (bind m (fun _ => k))
  (at level 61, right associativity) : request_scope.
Local Open Scope request_scope.

Definition is_some {A} (o : option A) : bool :=
  match o with Some _ => true | None => false end.

(** [await supabase.from(t)...]: the other writers move first, then the
    store answers. *)
Definition query {A} (w : World) (t : Table) (v : Verb)
    (q : Db -> Reply A * Db) : M (Reply A) :=
  fun s =>
    let d := others w (clock s) (db s) in
    let '(reply, d') :=
      if faults w (clock s) then (failed failure, d) else q d in
    (Ok reply,
     {| db := d'; clock := S (clock s); console := console s;
        trace := trace s ++ [{| op_table := t; op_verb := v;
                                op_failed := is_some (error reply) |}] |}).

(** A request on a store [d], from its first query on. *)
Definition request {A} (m : M A) (d : Db) : Res A * St :=
  m {| db := d; clock := 0; console := []; trace := [] |}.

Section Server.

Variable w : World.

(** * ExerciseCatalogResolver *)

(** Lines 833-844: the entry the request names, when this trainer owns it. *)
Definition lookup_by_id (ptId : nat) (exercise : ExerciseInput)
  : M (option nat) :=
  match ex_catalogId exercise with
  | Some catalogId =>
      reply <- query w t_exercises_catalog v_select
                 (Store.select_catalog_by_id catalogId ptId) ;;
      match error reply, data reply with
      | None, Some id => ret (Some id)
      | _, _ => ret None
      end
  | None => ret None
  end.

(** Lines 846-859: the entry of this trainer whose name matches. *)
Definition lookup_by_name (ptId : nat) (trimmedName : string)
  : M (option nat) :=
  reply <- query w t_exercises_catalog v_select
             (Store.select_catalog_by_name ptId trimmedName) ;;
  match error reply with
  | Some PGRST116 | None => ret tt
  | Some _ => console_error "Lookup exercise error"
  end ;;
  ret (data reply).

(** Lines 861-876: a new entry. *)
Definition create_entry (ptId : nat) (trimmedName : string)
    (exercise : ExerciseInput) : M nat :=
  reply <- query w t_exercises_catalog v_insert
             (Store.insert_catalog ptId trimmedName (ex_notes exercise)
                (ex_defaultRestSeconds exercise)) ;;
  match error reply, data reply with
  | None, Some inserted => ret inserted
  | _, _ => throw "Failed to create exercise in catalog"
  end.

(** [resolveExerciseCatalogId(ptId, exercise)], index.tsx lines 827-877. *)
Definition resolveExerciseCatalogId (ptId : nat) (exercise : ExerciseInput)
  : M nat :=
  let trimmedName := Text.trim (ex_name exercise) in
  owned <- lookup_by_id ptId exercise ;;
  match owned with
  | Some id => ret id
  | None =>
      existing <- lookup_by_name ptId trimmedName ;;
      match existing with
      | Some id => ret id
      | None => create_entry ptId trimmedName exercise
      end
  end.

(** * RoutineUpsertCoordinator *)

(** [sets.map((set, index) => ({ routine_exercise_id, set_number:
    index + 1, .. }))], lines 953-960. *)
Fixpoint setsPayload (routineExercise : nat) (index : nat)
    (sets : list SetInput) : list (nat * nat * SetInput) :=
  match sets with
  | [] => []
  | set :: sets' =>
      (routineExercise, index + 1, set)%nat
      :: setsPayload routineExercise (S index) sets'
  end.

(** Lines 951-969: the sets of one inserted exercise. *)
Definition insert_exercise_sets (routineExercise : nat)
    (sets : list SetInput) : M unit :=
  match sets with
  | [] => ret tt
  | _ :: _ =>
      reply <- query w t_routine_exercise_sets v_insert
                 (Store.insert_sets (setsPayload routineExercise 0 sets)) ;;
      match error reply with
      | Some _ => console_error "Failed to insert routine sets"
      | None => ret tt
      end
  end.

(** The [for] loop of lines 931-972 from the exercise [exercises] starts
    with, [position] being the variable of that name. *)
Fixpoint insert_exercises (ptId routineId : nat)
    (exercises : list ExerciseInput) (position : nat) : M unit :=
  match exercises with
  | [] => ret tt
  | exercise :: rest =>
      exerciseId <- resolveExerciseCatalogId ptId exercise ;;
      reply <- query w t_routine_exercises v_insert
                 (Store.insert_routine_exercise routineId exerciseId
                    position (ex_notes exercise)) ;;
      match error reply, data reply with
      | None, Some routineExercise =>
          insert_exercise_sets routineExercise (ex_sets exercise) ;;
          insert_exercises ptId routineId rest (S position)
      | _, _ =>
          console_error "Failed to insert routine exercise" ;;
          insert_exercises ptId routineId rest position
      end
  end.

(** Lines 901-929: the write of the routine row itself. *)
Definition write_routine (params : RoutineParams) : M nat :=
  match p_routineId params with
  | None =>
      reply <- query w t_routines v_insert
                 (Store.insert_routine (p_ptId params) (p_clientId params)
                    (p_name params)) ;;
      match error reply, data reply with
      | None, Some id => ret id
      | _, _ =>
          console_error "Failed to create routine" ;;
          throw "Routine creation failed"
      end
  | Some routineId =>
      reply <- query w t_routines v_update
                 (Store.update_routine routineId (p_ptId params)
                    (p_clientId params) (p_name params)) ;;
      match error reply with
      | Some _ =>
          console_error "Failed to update routine" ;;
          throw "Routine update failed"
      | None =>
          query w t_routine_exercises v_delete
            (Store.delete_routine_exercises routineId) ;;
          ret routineId
      end
  end.

(** [upsertRoutine(params)], index.tsx lines 879-975. *)
Definition upsertRoutine (params : RoutineParams) : M nat :=
  routineId <- write_routine params ;;
  insert_exercises (p_ptId params) routineId (p_exercises params) 0 ;;
  ret routineId.

End Server.

(** A world with a reliable store and no other writer. *)
Definition calm : World :=
  {| faults := fun _ => false; others := fun _ d => d |}.

Definition empty_db : Db :=
  {| exercises_catalog := []; routines := []; routine_exercises := [];
     routine_exercise_sets := []; next_uuid := 0 |}.

(* ================================================================== *)
(** * The words of the specification

    The notions the specification states the streak statistics with, on the
    list [days] of the UTC dates of the sessions. *)

(** The [k] consecutive days from [d] on are all session days. *)
Definition run_in (days : list Z) (d : Z) (k : nat) : Prop :=
  forall i, (i < k)%nat -> In (d + Z.of_nat i) days.

(** [k] is the length of the longest run of consecutive session days. *)
Definition longest_run (days : list Z) (k : nat) : Prop :=
  (exists d, run_in days d k) /\ forall d k', run_in days d k' -> (k' <= k)%nat.

(** [m] is the most recent session day. *)
Definition most_recent (days : list Z) (m : Z) : Prop :=
  In m days /\ forall d, In d days -> d <= m.

(** Walking back from [today], the first day without a session is the
    [k]-th. *)
Definition unbroken_back (days : list Z) (today : Z) (k : nat) : Prop :=
  (forall i, (i < k)%nat -> In (today - Z.of_nat i) days)
  /\ ~ In (today - Z.of_nat k) days.

(** The notions the specification states the health alerts with. *)

(** The session [e] of the trainer [pt] starts within 15 minutes of [now]. *)
Definition upcoming (pt : nat) (now : Z) (e : CalendarEvent) : Prop :=
  ev_pt_id e = pt
  /\ ev_event_type e = session
  /\ now <= ev_start_at e <= now + 15 * 60 * 1000.

(** [client] has an assignment to the trainer [pt] whose status is
    active. *)
Definition assigned (t : Tables) (pt client : nat) : Prop :=
  exists a,
    In a (pt_clients t) /\ pc_pt_id a = pt /\ pc_client_id a = client
    /\ pc_active a = true.

(** The status of the log is ACUTE or LINGERING. *)
Definition open_issue (l : HealthLog) : Prop :=
  hl_status l = ACUTE \/ hl_status l = LINGERING.

(** [l] is a stored log of [client] with status ACUTE or LINGERING, and no
    stored log of [client] with one of these statuses was logged later. *)
Definition latest_open_issue (t : Tables) (client : nat) (l : HealthLog)
  : Prop :=
  In l (client_health_logs t)
  /\ hl_client_id l = client
  /\ open_issue l
  /\ forall l', In l' (client_health_logs t) -> hl_client_id l' = client ->
                open_issue l' -> hl_logged_at l' <= hl_logged_at l.

(** The health logs the route loads for the trainer [pt], and, among logs
    [logs], a most recent one of [client] that the code takes as active:
    the two steps of the route that the proofs go through. *)
Definition client_logs (t : Tables) (pt : nat) : list HealthLog :=
  filter (fun l => mem (hl_client_id l) (fetch_client_ids (pt_clients t) pt))
         (client_health_logs t).

Definition most_recent_active (logs : list HealthLog) (client : nat)
    (l : HealthLog) : Prop :=
  In l logs
  /\ hl_client_id l = client
  /\ is_active l = true
  /\ forall l', In l' logs -> hl_client_id l' = client ->
                is_active l' = true -> hl_logged_at l' <= hl_logged_at l.

(** The alerts of the response that refer to the event [e]. *)
Definition alerts_for (e : CalendarEvent) (out : list Alert) : list Alert :=
  filter (fun a => Nat.eqb (eventId a) (ev_id e)) out.

(** The notions the specification states the catalog and the routine upsert
    with. *)

(** The two lookups of [resolveExerciseCatalogId], lines 833-859: the entry
    found before any insert is tried. *)
Definition lookup_entry (w : World) (ptId : nat) (exercise : ExerciseInput)
  : M (option nat) :=
  bind (lookup_by_id w ptId exercise)
       (fun owned =>
          match owned with
          | Some id => ret (Some id)
          | None => lookup_by_name w ptId (Text.trim (ex_name exercise))
          end).

(** The record of a query in the trace. *)
Definition op (t : Table) (v : Verb) (b : bool) : Op :=
  {| op_table := t; op_verb := v; op_failed := b |}.

(** The record of the failed insert of a catalog entry. *)
Definition failed_catalog_insert : Op :=
  op t_exercises_catalog v_insert true.

Definition table_eqb (a b : Table) : bool :=
  match a, b with
  | t_exercises_catalog, t_exercises_catalog
  | t_routines, t_routines
  | t_routine_exercises, t_routine_exercises
  | t_routine_exercise_sets, t_routine_exercise_sets => true
  | _, _ => false
  end.

Definition verb_eqb (a b : Verb) : bool :=
  match a, b with
  | v_select, v_select | v_insert, v_insert
  | v_update, v_update | v_delete, v_delete => true
  | _, _ => false
  end.

(** The number of failed queries [v] on the table [t] in a trace. *)
Definition failures (t : Table) (v : Verb) (tr : list Op) : nat :=
  length (filter (fun o => op_failed o && table_eqb (op_table o) t
                           && verb_eqb (op_verb o) v) tr).

(** The number of failed queries of any kind on the table [t]. *)
Definition table_failures (t : Table) (tr : list Op) : nat :=
  length (filter (fun o => op_failed o && table_eqb (op_table o) t) tr).

(** The number of times [message] was written to the console. *)
Definition messages (message : string) (out : list string) : nat :=
  length (filter (String.eqb message) out).

(** No other writer touches the store during the request. *)
Definition quiet (w : World) : Prop := forall n d, others w n d = d.

(** The rows of [routine_exercises] of one routine, in the order of their
    insertion. *)
Definition rows_of (routine : nat) (d : Db) : list RoutineExerciseRow :=
  filter (fun r => Nat.eqb (re_routine_id r) routine) (routine_exercises d).

(** The catalog entry [id] stands for the exercise [exercise] of a request
    of [pt]: it is an entry of [pt], and it is the entry the request names,
    or its name matches the trimmed name of the request, or is that name. *)
Definition resolves_to (d : Db) (pt : nat) (exercise : ExerciseInput)
    (id : nat) : Prop :=
  exists c,
    In c (exercises_catalog d) /\ cat_id c = id /\ cat_pt_id c = pt
    /\ (ex_catalogId exercise = Some id
        \/ Text.ilike (Text.trim (ex_name exercise)) (cat_name c) = true
        \/ cat_name c = Text.trim (ex_name exercise)).

(** [row] is the row of the [i]-th exercise of a request of [pt] for
    [routine], written into a store whose ids started at [first]. *)
Definition row_of_exercise (d : Db) (pt routine first : nat)
    (ix : nat * ExerciseInput) (row : RoutineExerciseRow) : Prop :=
  re_routine_id row = routine
  /\ re_position row = fst ix
  /\ re_notes row = ex_notes (snd ix)
  /\ resolves_to d pt (snd ix) (re_exercise_id row)
  /\ (first <= re_id row)%nat.

(** The exercises of a request with their index. *)
Definition indexed (from : nat) (exercises : list ExerciseInput)
  : list (nat * ExerciseInput) :=
  combine (seq from (length exercises)) exercises.

(* ================================================================== *)
(** * Example data *)

Module Example.

(** A trainer (1) with one client (2) who logged two active issues, and a
    session with that client ten minutes after the instant 1000. *)
Definition knee : HealthLog :=
  {| hl_id := 5; hl_client_id := 2; hl_injury_title := "knee";
     hl_status := ACUTE; hl_logged_at := 50 |}.

Definition wrist : HealthLog :=
  {| hl_id := 7; hl_client_id := 2; hl_injury_title := "wrist";
     hl_status := LINGERING; hl_logged_at := 20 |}.

Definition training : CalendarEvent :=
  {| ev_id := 10; ev_pt_id := 1; ev_client_id := Some 2%nat;
     ev_start_at := 1000 + 10 * 60 * 1000;
     ev_end_at := 1000 + 70 * 60 * 1000;
     ev_event_type := session |}.

Definition tables : Tables :=
  {| pt_clients :=
       [{| pc_pt_id := 1; pc_client_id := 2; pc_active := true |}];
     profiles := [{| pr_id := 2; pr_full_name := "Cy" |}];
     client_health_logs := [wrist; knee];
     pt_calendar_events := [training] |}.

(** The same, after the client logged a third issue, resolved by now, later
    than the two others. *)
Definition ankle : HealthLog :=
  {| hl_id := 9; hl_client_id := 2; hl_injury_title := "ankle";
     hl_status := RESOLVED; hl_logged_at := 80 |}.

Definition healed : Tables :=
  {| pt_clients := pt_clients tables;
     profiles := profiles tables;
     client_health_logs := [wrist; knee; ankle];
     pt_calendar_events := pt_calendar_events tables |}.

End Example.

Module Race.

(** The request of a trainer (1) for the exercise "Squat". *)
Definition squat : ExerciseInput :=
  {| ex_name := "Squat"; ex_notes := None; ex_catalogId := None;
     ex_defaultRestSeconds := None; ex_sets := [] |}.

(** Another request of the same trainer creates "squat" after the lookup
    of this request (query 0) and before its insert (query 1). *)
Definition rival : World :=
  {| faults := fun _ => false;
     others := fun n d =>
                 if Nat.eqb n 1
                 then snd (Store.insert_catalog 1 "squat" None None d)
                 else d |}.

End Race.

Module Pattern.

Definition named (name : string) : ExerciseInput :=
  {| ex_name := name; ex_notes := None; ex_catalogId := None;
     ex_defaultRestSeconds := None; ex_sets := [] |}.

Definition entry (id : nat) (name : string) : CatalogRow :=
  {| cat_id := id; cat_pt_id := 1; cat_name := name;
     cat_instruction_notes := None; cat_default_rest_seconds := None |}.

(** The catalog of a trainer (1) with two squats. *)
Definition squats : Db :=
  {| exercises_catalog := [entry 0 "80kg Squat"; entry 1 "80lb Squat"];
     routines := []; routine_exercises := []; routine_exercise_sets := [];
     next_uuid := 2 |}.

(** Resolve two names one after the other. *)
Definition twice (first second : string) : M (nat * nat) :=
  bind (resolveExerciseCatalogId calm 1 (named first))
       (fun id1 =>
          bind (resolveExerciseCatalogId calm 1 (named second))
               (fun id2 => ret (id1, id2))).

End Pattern.

Module Flaky.

Definition curl : ExerciseInput :=
  {| ex_name := "Curl"; ex_notes := Some "slow"; ex_catalogId := None;
     ex_defaultRestSeconds := Some 60; ex_sets := [] |}.

Definition row : ExerciseInput :=
  {| ex_name := "Row"; ex_notes := None; ex_catalogId := None;
     ex_defaultRestSeconds := None;
     ex_sets := [{| si_reps := Some (inr 8); si_rest := None;
                    si_weight := Some 40 |}] |}.

(** A new routine of the trainer (1) for the client (2). *)
Definition plan : RoutineParams :=
  {| p_routineId := None; p_ptId := 1; p_clientId := 2;
     p_name := "Pull day"; p_exercises := [curl; row] |}.



End Flaky.

Module Update.

(** The store after the trainer created the routine [Flaky.plan], which got
    the id 0 and two exercise rows. *)
Definition before : Db :=
  db (snd (request (upsertRoutine calm Flaky.plan) empty_db)).

(** The same routine, edited down to one exercise. *)
Definition shorter : RoutineParams :=
  {| p_routineId := Some 0%nat; p_ptId := 1; p_clientId := 2;
     p_name := "Pull day"; p_exercises := [Flaky.row] |}.



End Update.

(* ================================================================== *)
(** * Invariants

    The predicates the proofs carry through the loops of the code. *)

Section KeySorted.

Context {A : Type} (key : A -> Z).

(** Sorted by key, ascending. *)
Fixpoint key_sorted (l : list A) : Prop :=
  match l with
  | [] => True
  | x :: l' => (forall y, In y l' -> key x <= key y) /\ key_sorted l'
  end.

End KeySorted.

(** Strictly ascending, strictly descending. *)
Fixpoint ascending (l : list Z) : Prop :=
  match l with
  | [] => True
  | x :: l' => (forall y, In y l' -> x < y) /\ ascending l'
  end.

Fixpoint descending (l : list Z) : Prop :=
  match l with
  | [] => True
  | x :: l' => (forall y, In y l' -> y < x) /\ descending l'
  end.

(** The invariant of the [forEach]: [acc] holds the dates scanned so far. *)
Definition scan_inv (acc : list Z) (s : Scan) : Prop :=
  match scan_previous s with
  | None => acc = [] /\ scan_longest s = 0%nat
  | Some p =>
      exists prev,
        p = date_midnight prev
        /\ In prev acc
        /\ (forall y, In y acc -> y <= prev)
        /\ (1 <= scan_counter s)%nat
        /\ run_in acc (prev - Z.of_nat (scan_counter s) + 1) (scan_counter s)
        /\ ~ In (prev - Z.of_nat (scan_counter s)) acc
        /\ longest_run acc (scan_longest s)
  end.

(** [s'] is [s] after the queries [tr] and the console lines [out]. *)
Definition after (s s' : St) (tr : list Op) (out : list string) : Prop :=
  trace s' = trace s ++ tr /\ console s' = console s ++ out.

(** A trace of lookups in the catalog. *)
Definition selects (tr : list Op) : Prop :=
  Forall (fun o => op_table o = t_exercises_catalog /\ op_verb o = v_select)
         tr.

(** A trace of queries on the catalog. *)
Definition on_catalog (tr : list Op) : Prop :=
  Forall (fun o => op_table o = t_exercises_catalog) tr.

(** What the resolver may do to a store no other writer touches: add
    entries to the catalog. *)
Definition catalog_grows (d d' : Db) : Prop :=
  routines d' = routines d
  /\ routine_exercises d' = routine_exercises d
  /\ routine_exercise_sets d' = routine_exercise_sets d
  /\ (next_uuid d <= next_uuid d')%nat
  /\ (forall c, In c (exercises_catalog d) -> In c (exercises_catalog d')).

(** What the steps after the resolver leave of the rest of the store, with
    no other writer. *)
Definition rest_kept (d d' : Db) : Prop :=
  exercises_catalog d' = exercises_catalog d
  /\ routines d' = routines d
  /\ (next_uuid d <= next_uuid d')%nat.

(** The bookkeeping of a stretch of a request: each failed insert of an
    exercise row or of the sets of an exercise has its line on the console,
    no query on [routines] failed, and the failed queries on
    [routine_exercises] are inserts. *)
Definition accounted (tr : list Op) (out : list string) : Prop :=
  messages "Failed to insert routine exercise" out
  = failures t_routine_exercises v_insert tr
  /\ messages "Failed to insert routine sets" out
     = failures t_routine_exercise_sets v_insert tr
  /\ table_failures t_routines tr = 0%nat
  /\ table_failures t_routine_exercises tr
     = failures t_routine_exercises v_insert tr.


From Stdlib Require Import DecimalPos.
From Stdlib Require Sorted Permutation.

(* ================================================================== *)
(** * More notions for the catalog *)

(** One step of the catalog: nothing, or one new entry at the end whose
    key [(pt_id, lower(name))] no entry had. *)
Definition catalog_added (l l' : list CatalogRow) : Prop :=
  l' = l
  \/ exists row,
       l' = l ++ [row]
       /\ existsb (Store.same_catalog_key (cat_pt_id row) (cat_name row)) l
          = false.

(** At most [n] such steps. *)
Fixpoint catalog_history (n : nat) (l l' : list CatalogRow) : Prop :=
  match n with
  | O => l' = l
  | S n' => exists l1, catalog_added l l1 /\ catalog_history n' l1 l'
  end.

(** The unique index [exercises_catalog_unique_name_per_pt] holds. *)
Definition catalog_unique (l : list CatalogRow) : Prop :=
  forall pt name,
    (length (filter (Store.same_catalog_key pt name) l) <= 1)%nat.


(** The key of a set row under [UNIQUE (routine_exercise_id, set_number)],
    and the test of [Store.insert_sets] that the keys of a list differ. *)
Definition set_key (s : SetRow) : nat * nat :=
  (rs_routine_exercise_id s, rs_set_number s).

Fixpoint distinct_keys (l : list (nat * nat)) : bool :=
  match l with
  | [] => true
  | k :: l' =>
      negb (existsb (fun b => Nat.eqb (fst k) (fst b)
                              && Nat.eqb (snd k) (snd b)) l')
      && distinct_keys l'
  end.

(** The routine a call of [upsertRoutine] on the store [d] writes. *)
Definition target_routine (params : RoutineParams) (d : Db) : nat :=
  match p_routineId params with
  | Some id => id
  | None => next_uuid d
  end.

Module Shared.

(** The store after the trainer (1) created [Flaky.plan] twice: the
    routines 0 and 6. *)
Definition both : Db :=
  db (snd (request (upsertRoutine calm Flaky.plan) Update.before)).

(** Another trainer (9) sends an update for the routine 0 of the trainer
    1. *)
Definition intruder : RoutineParams :=
  {| p_routineId := Some 0%nat; p_ptId := 9; p_clientId := 8;
     p_name := "Mine now"; p_exercises := [] |}.

End Shared.

(** The stored sets of one exercise row, in the order of their insertion. *)
Definition sets_of (routineExercise : nat) (d : Db) : list SetRow :=
  filter (fun x => Nat.eqb (rs_routine_exercise_id x) routineExercise)
         (routine_exercise_sets d).

(** The exercise row [row] of the routine [routine] has as many stored sets
    as the exercise [exercise] of the call has sets, numbered from 1 in the
    order of their insertion. *)
Definition carries (d : Db) (routine : nat) (exercise : ExerciseInput)
    (row : RoutineExerciseRow) : Prop :=
  re_routine_id row = routine
  /\ map set_key (sets_of (re_id row) d)
     = map (fun n => (re_id row, n)) (seq 1 (length (ex_sets exercise))).

(** Every character of the name is below U+0080, where letter case is that
    of the ASCII letters in every locale of the store. *)
Fixpoint ascii_only (s : string) : bool :=
  match s with
  | EmptyString => true
  | String c s' => (nat_of_ascii c <? 128)%nat && ascii_only s'
  end.

(* ================================================================== *)
(** * RoutineViewBuilder: what a client sees of a routine

    The rows are those of the nested select of [fetchClientRoutines]
    (index.tsx lines 202-232).  A [numeric(8,2)] column is its number of
    hundredths, a [numeric(3,1)] column its number of tenths. *)

Module View.

(** [a ?? b] with [b] nullable. *)
Definition or_else {A : Type} (a b : option A) : option A :=
  match a with
  | Some _ => a
  | None => b
  end.

(** [a ?? b] with [b] not nullable. *)
Definition or_default {A : Type} (a : option A) (b : A) : A :=
  match a with
  | Some x => x
  | None => b
  end.

(** A row of [routine_exercise_sets]. *)
Record StoredSet := {
  set_number : Z;
  target_reps : option Z;
  target_rep_range : option string;
  target_weight : option Z;
  target_rest_seconds : option Z
}.

(** The embedded [exercise:exercises_catalog (..)]. *)
Record CatalogEntry := {
  entry_id : nat;
  entry_name : string;
  entry_instruction_notes : option string;
  entry_default_rest_seconds : option Z
}.

(** A row of [routine_exercises] with what it embeds. *)
Record ExerciseJoin := {
  ej_id : nat;
  ej_exercise_id : nat;
  ej_position : Z;
  ej_notes : option string;
  prescribed_sets : option Z;
  prescribed_reps_min : option Z;
  prescribed_reps_max : option Z;
  prescribed_weight : option Z;
  prescribed_rest_seconds : option Z;
  ej_exercise : option CatalogEntry;
  ej_routine_exercise_sets : list StoredSet
}.

(** A row of [routines] with what it embeds. *)
Record RoutineJoin := {
  rj_id : nat;
  rj_pt_id : nat;
  rj_client_id : nat;
  rj_routine_name : string;
  rj_routine_exercises : list ExerciseJoin
}.

Record SetView := {
  setNumber : Z;
  reps : string;
  rest : string;
  targetWeight : option Z
}.

Record ExerciseView := {
  ev_id : nat;
  exerciseId : nat;
  ev_name : string;
  ev_notes : option string;
  defaultRestSeconds : option Z;
  sets : list SetView
}.

Record RoutineSummary := {
  sum_id : nat;
  sum_name : string;
  ptId : nat;
  clientId : nat;
  exercises : list ExerciseView
}.

(** [restSeconds != null ? String(restSeconds) : ""]. *)
Definition rest_text (restSeconds : option Z) : string :=
  match restSeconds with
  | Some n => Js.String_of_Z n
  | None => ""
  end.

(** The [reps] of a stored set, lines 150-152: the range when it is a
    string that is not empty, else the count when it is a number other than
    0, else the fallback of the exercise. *)
Definition reps_text (exercise : ExerciseJoin) (set : StoredSet) : string :=
  let counted :=
    if Js.truthy (target_reps set)
    then Js.String_ (target_reps set)
    else formatRepsFallback (prescribed_reps_min exercise)
           (prescribed_reps_max exercise) in
  match target_rep_range set with
  | Some range => if String.eqb range "" then counted else range
  | None => counted
  end.

(** [formatSets(exercise, defaultRestSeconds)], index.tsx lines 138-173. *)
Definition formatSets (exercise : ExerciseJoin)
    (defaultRestSeconds : option Z) : list SetView :=
  match ej_routine_exercise_sets exercise with
  | _ :: _ =>
      map (fun set =>
             let restSeconds :=
               or_else (target_rest_seconds set)
                 (or_else (prescribed_rest_seconds exercise)
                    defaultRestSeconds) in
             {| setNumber := set_number set;
                reps := reps_text exercise set;
                rest := rest_text restSeconds;
                targetWeight :=
                  or_else (target_weight set) (prescribed_weight exercise) |})
          (sort_by set_number (ej_routine_exercise_sets exercise))
  | [] =>
      let totalSets := or_default (prescribed_sets exercise) 0 in
      let fallbackReps :=
        formatRepsFallback (prescribed_reps_min exercise)
          (prescribed_reps_max exercise) in
      let restSeconds :=
        or_else (prescribed_rest_seconds exercise) defaultRestSeconds in
      map (fun index =>
             {| setNumber := Z.of_nat index + 1;
                reps := fallbackReps;
                rest := rest_text restSeconds;
                targetWeight := prescribed_weight exercise |})
          (seq 0 (Z.to_nat totalSets))
  end.

(** The callback of the inner [map] of [fetchClientRoutines], lines
    247-256. *)
Definition exercise_view (exercise : ExerciseJoin) : ExerciseView :=
  let defaultRestSeconds :=
    match ej_exercise exercise with
    | Some entry => entry_default_rest_seconds entry
    | None => None
    end in
  {| ev_id := ej_id exercise;
     exerciseId := ej_exercise_id exercise;
     ev_name :=
       match ej_exercise exercise with
       | Some entry => entry_name entry
       | None => "Exercise"
       end;
     ev_notes :=
       or_else (ej_notes exercise)
         match ej_exercise exercise with
         | Some entry => entry_instruction_notes entry
         | None => None
         end;
     defaultRestSeconds := defaultRestSeconds;
     sets := formatSets exercise defaultRestSeconds |}.

(** The callback of the outer [map], lines 243-265. *)
Definition routine_summary (routine : RoutineJoin) : RoutineSummary :=
  {| sum_id := rj_id routine;
     sum_name := rj_routine_name routine;
     ptId := rj_pt_id routine;
     clientId := rj_client_id routine;
     exercises :=
       map exercise_view
           (sort_by ej_position (rj_routine_exercises routine)) |}.

(** The row [exercise] with the rows [stored] as its sets. *)
Definition with_sets (exercise : ExerciseJoin) (stored : list StoredSet)
  : ExerciseJoin :=
  {| ej_id := ej_id exercise;
     ej_exercise_id := ej_exercise_id exercise;
     ej_position := ej_position exercise;
     ej_notes := ej_notes exercise;
     prescribed_sets := prescribed_sets exercise;
     prescribed_reps_min := prescribed_reps_min exercise;
     prescribed_reps_max := prescribed_reps_max exercise;
     prescribed_weight := prescribed_weight exercise;
     prescribed_rest_seconds := prescribed_rest_seconds exercise;
     ej_exercise := ej_exercise exercise;
     ej_routine_exercise_sets := stored |}.

End View.

(* ================================================================== *)
(** * WorkoutLog: the sets of a logged workout and of the last one *)

Module Workout.

Import View.

(** A set of the body of [POST /client/log-workout]. *)
Record SetBody := {
  sb_weight : option Z;
  sb_logged_weight : option Z;
  sb_reps : option Z;
  sb_logged_reps : option Z;
  sb_rpe : option Z;
  sb_rest : option Z
}.

(** An exercise of that body. *)
Record ExerciseBody := {
  routineExerciseId : option nat;
  eb_exerciseId : option nat;
  eb_name : option string;
  eb_sets : list SetBody
}.

(** A row of [session_log_sets]. *)
Record LogSet := {
  session_log_id : nat;
  exercise_id : nat;
  ls_set_number : Z;
  logged_weight : option Z;
  logged_reps : option Z;
  logged_rpe : option Z;
  actual_rest_seconds : option Z
}.

(** The test of the [find] of lines 622-624. *)
Definition names (exercise : ExerciseBody) (ex : ExerciseView) : bool :=
  match routineExerciseId exercise with
  | Some id => Nat.eqb (ev_id ex) id
  | None => false
  end
  || match eb_exerciseId exercise with
     | Some id => Nat.eqb (exerciseId ex) id
     | None => false
     end
  || match eb_name exercise with
     | Some name => String.eqb (ev_name ex) name
     | None => false
     end.

(** The inner [forEach], lines 631-641, from the index [index] on. *)
Fixpoint push_sets (sessionLogId exerciseId : nat) (index : nat)
    (sets : list SetBody) : list LogSet :=
  match sets with
  | [] => []
  | set :: sets' =>
      {| session_log_id := sessionLogId;
         exercise_id := exerciseId;
         ls_set_number := Z.of_nat index + 1;
         logged_weight := or_else (sb_weight set) (sb_logged_weight set);
         logged_reps := or_else (sb_reps set) (sb_logged_reps set);
         logged_rpe := sb_rpe set;
         actual_rest_seconds := sb_rest set |}
      :: push_sets sessionLogId exerciseId (S index) sets'
  end.

(** [setsPayload] after the outer [forEach], lines 620-642. *)
Definition setsPayload (routine : RoutineSummary) (sessionLogId : nat)
    (exercises : list ExerciseBody) : list LogSet :=
  flat_map (fun exercise =>
              match find (names exercise) (View.exercises routine) with
              | None => []
              | Some routineExercise =>
                  push_sets sessionLogId (exerciseId routineExercise) 0
                    (eb_sets exercise)
              end)
           exercises.

Record LoggedSet := {
  lg_setNumber : Z;
  lg_reps : Z;
  lg_weight : Z;
  lg_rpe : option Z;
  lg_rest : option Z
}.

Record LoggedExercise := {
  lg_exerciseId : nat;
  lg_sets : list LoggedSet
}.

(** The [exercises] of [fetchLastWorkout], lines 417-433, from the sets
    [session_log_sets] of the session it selected. *)
Definition last_exercises (routine : RoutineSummary)
    (session_log_sets : list LogSet) : list LoggedExercise :=
  map (fun exercise =>
         {| lg_exerciseId := exerciseId exercise;
            lg_sets :=
              map (fun set =>
                     {| lg_setNumber := ls_set_number set;
                        lg_reps := or_default (logged_reps set) 0;
                        lg_weight := or_default (logged_weight set) 0;
                        lg_rpe := logged_rpe set;
                        lg_rest := actual_rest_seconds set |})
                  (sort_by ls_set_number
                     (filter (fun set =>
                                Nat.eqb (exercise_id set)
                                        (exerciseId exercise))
                             session_log_sets)) |})
      (View.exercises routine).

End Workout.

(* ================================================================== *)
(** * ExerciseSearch: the [limit] of [GET /pt/exercises] *)

Module Search.

(** The value of a decimal digit. *)
Definition digit (c : ascii) : option Z :=
  let n := Z.of_nat (nat_of_ascii c) in
  if (48 <=? n) && (n <=? 57) then Some (n - 48) else None.

(** The value of the longest prefix of digits of [s], read after the digits
    that gave [acc]; [None] when there is no digit at all. *)
Fixpoint digits (acc : option Z) (s : string) : option Z :=
  match s with
  | EmptyString => acc
  | String c s' =>
      match digit c with
      | Some d => digits (Some (10 * View.or_default acc 0 + d)) s'
      | None => acc
      end
  end.

(** [Number.parseInt(s, 10)]: white space, a sign, and the longest prefix
    of digits; [None] is [NaN].  The result is the integer the digits
    denote; JavaScript has the [Number] nearest to it, which is on the same
    side of 1 and of 25. *)
Definition parseInt (s : string) : option Z :=
  match Text.trim_start s with
  | String "-" s' => option_map Z.opp (digits None s')
  | String "+" s' => digits None s'
  | s' => digits None s'
  end.

(** Lines 1387-1389, from [c.req.query("limit")]. *)
Definition limit (limitParam : option string) : Z :=
  let parsedLimit := parseInt (View.or_default limitParam "") in
  match parsedLimit with
  | None => 10
  | Some n => Z.min (Z.max n 1) 25
  end.

End Search.

Module Shown.

(** An exercise row with a rest of its own and two stored sets, the second
    stored first. *)
Definition first : View.StoredSet :=
  {| View.set_number := 1; View.target_reps := Some 8;
     View.target_rep_range := None; View.target_weight := Some 4000;
     View.target_rest_seconds := None |}.

Definition second : View.StoredSet :=
  {| View.set_number := 2; View.target_reps := None;
     View.target_rep_range := Some "6-8"; View.target_weight := None;
     View.target_rest_seconds := Some 120 |}.

Definition press : View.ExerciseJoin :=
  {| View.ej_id := 4; View.ej_exercise_id := 3; View.ej_position := 0;
     View.ej_notes := None; View.prescribed_sets := Some 3;
     View.prescribed_reps_min := None; View.prescribed_reps_max := None;
     View.prescribed_weight := None;
     View.prescribed_rest_seconds := Some 90;
     View.ej_exercise := None;
     View.ej_routine_exercise_sets := [second; first] |}.

End Shown.

Module Logged.

(** A routine (0) of two exercises, as the select returns it: the row of
    the second exercise comes first. *)
Definition squat : View.ExerciseJoin :=
  {| View.ej_id := 2; View.ej_exercise_id := 1; View.ej_position := 1;
     View.ej_notes := Some "slow"; View.prescribed_sets := Some 2;
     View.prescribed_reps_min := Some 5; View.prescribed_reps_max := Some 8;
     View.prescribed_weight := None; View.prescribed_rest_seconds := None;
     View.ej_exercise :=
       Some {| View.entry_id := 1; View.entry_name := "Squat";
               View.entry_instruction_notes := None;
               View.entry_default_rest_seconds := Some 60 |};
     View.ej_routine_exercise_sets := [] |}.

Definition routine : View.RoutineSummary :=
  View.routine_summary
    {| View.rj_id := 0; View.rj_pt_id := 1; View.rj_client_id := 2;
       View.rj_routine_name := "Leg day";
       View.rj_routine_exercises := [squat; Shown.press] |}.

(** The client logs two sets of the squat, named by its name, one set of an
    exercise the routine does not have, and one of the press, named by the
    id of its row. *)
Definition done (reps : Z) : Workout.SetBody :=
  {| Workout.sb_weight := Some 6000; Workout.sb_logged_weight := None;
     Workout.sb_reps := Some reps; Workout.sb_logged_reps := None;
     Workout.sb_rpe := None; Workout.sb_rest := Some 90 |}.

Definition squats : Workout.ExerciseBody :=
  {| Workout.routineExerciseId := None; Workout.eb_exerciseId := None;
     Workout.eb_name := Some "Squat"; Workout.eb_sets := [done 8; done 6] |}.

Definition plank : Workout.ExerciseBody :=
  {| Workout.routineExerciseId := None; Workout.eb_exerciseId := Some 77%nat;
     Workout.eb_name := Some "Plank"; Workout.eb_sets := [done 1] |}.

Definition presses : Workout.ExerciseBody :=
  {| Workout.routineExerciseId := Some 4%nat; Workout.eb_exerciseId := None;
     Workout.eb_name := None; Workout.eb_sets := [done 10] |}.

End Logged.
(* ================================================================== *)
(** * Proofs: the rep-range fallback *)

(** C3, as the specification words it, fails: with equal bounds the code
    answers the bound, not the literal ["10"]. *)
Lemma formatRepsFallback_equal_bounds :
  formatRepsFallback (Some 8) (Some 8) = "8"
  /\ formatRepsFallback (Some 8) (Some 8) <> "10".
Proof. split; [reflexivity | discriminate]. Qed.

(** C3 (amended): with both bounds present (neither [null] nor [0]) and
    distinct the result is ["{min}-{max}"]; with [min] present and [max]
    absent or equal to [min] it is ["{min}"]; with [min] absent it is the
    literal ["10"]. *)
Theorem formatRepsFallback_cases (min max : option Z) :
  (Js.truthy min = true -> Js.truthy max = true -> min <> max ->
   formatRepsFallback min max
   = (Js.String_ min ++ "-" ++ Js.String_ max)%string)
  /\ (Js.truthy min = true -> Js.truthy max = false \/ max = min ->
      formatRepsFallback min max = Js.String_ min)
  /\ (Js.truthy min = false -> formatRepsFallback min max = "10").
Proof.
  unfold formatRepsFallback.
  split; [|split].
  - intros Hmin Hmax Hne. rewrite Hmin, Hmax.
    destruct min as [a|], max as [b|]; try discriminate.
    simpl. destruct (Z.eqb_spec a b) as [->|]; [congruence | reflexivity].
  - intros Hmin [Hmax | ->].
    + rewrite Hmin, Hmax. reflexivity.
    + rewrite Hmin. destruct min as [a|]; [|discriminate].
      simpl. rewrite Z.eqb_refl. reflexivity.
  - intros Hmin. rewrite Hmin. reflexivity.
Qed.

Lemma formatRepsFallback_cases_witness :
  formatRepsFallback (Some 8) (Some 12) = "8-12"
  /\ formatRepsFallback (Some 8) (Some 8) = "8"
  /\ formatRepsFallback (Some 8) None = "8"
  /\ formatRepsFallback None (Some 12) = "10".
Proof.
  split; [|split; [|split]].
  - apply (formatRepsFallback_cases (Some 8) (Some 12));
      [reflexivity | reflexivity | discriminate].
  - apply (formatRepsFallback_cases (Some 8) (Some 8));
      [reflexivity | right; reflexivity].
  - apply (formatRepsFallback_cases (Some 8) None);
      [reflexivity | left; reflexivity].
  - apply (formatRepsFallback_cases None (Some 12)); reflexivity.
Defined.

(* ================================================================== *)
(** * Proofs: dates and weeks *)

Lemma MS_PER_DAY_value : MS_PER_DAY = 86400000.
Proof. reflexivity. Qed.

Lemma utc_date_midnight (d : Z) : utc_date (date_midnight d) = d.
Proof.
  unfold utc_date, date_midnight. apply Z.div_mul.
  rewrite MS_PER_DAY_value. discriminate.
Qed.

Lemma utc_date_bounds (t : Z) :
  date_midnight (utc_date t) <= t < date_midnight (utc_date t + 1).
Proof.
  unfold date_midnight, utc_date. rewrite MS_PER_DAY_value.
  Z.to_euclidean_division_equations. lia.
Qed.

Lemma utc_date_within (d t : Z) :
  date_midnight d <= t < date_midnight (d + 1) -> utc_date t = d.
Proof.
  unfold date_midnight, utc_date. rewrite MS_PER_DAY_value. intros H.
  Z.to_euclidean_division_equations. lia.
Qed.

(** The start of the week is a midnight, a Monday, and at most six days
    before the day of the instant. *)
Lemma startOfWeek_monday (t : Z) :
  exists d, startOfWeek t = date_midnight d
            /\ (d + 4) mod 7 = 1
            /\ d <= utc_date t < d + 7.
Proof.
  unfold startOfWeek, getUTCDay.
  rewrite !utc_date_midnight.
  set (D := utc_date t).
  exists (D - ((D + 4) mod 7 + 6) mod 7).
  split; [reflexivity|].
  Z.to_euclidean_division_equations. lia.
Qed.

Lemma startOfWeek_of_monday (d : Z) (t : Z) :
  (d + 4) mod 7 = 1 -> date_midnight d <= t < date_midnight (d + 7) ->
  startOfWeek t = date_midnight d.
Proof.
  intros Hmon Ht.
  destruct (startOfWeek_monday t) as (d' & -> & Hmon' & Hd').
  f_equal.
  pose proof (utc_date_bounds t) as Hb.
  unfold date_midnight in *. rewrite MS_PER_DAY_value in *.
  assert (d <= utc_date t < d + 7) by lia.
  Z.to_euclidean_division_equations. lia.
Qed.

(** C8: [weekStart] is the midnight of the Monday of the week of [now];
    [completed] counts the sessions of the half-open week
    [[weekStart, weekStart + 7 days)]; [goal] is the goal of the profile when
    it is positive and the number of routines otherwise; a session at Sunday
    23:59:59 and one at the midnight that follows are in different weeks and
    are never counted together. *)
Theorem computeWeeklyGoal_week
    (g : option Z) (sessions : list Z) (routineCount now : Z) :
  let r := computeWeeklyGoal g sessions routineCount now in
  let in_week t :=
    (weekStart r <=? t) && (t <? weekStart r + 7 * MS_PER_DAY) in
  (weekStart r = date_midnight (utc_date (weekStart r))
   /\ getUTCDay (weekStart r) = 1
   /\ weekStart r <= now < weekStart r + 7 * MS_PER_DAY)
  /\ completed r = length (filter in_week sessions)
  /\ (forall v, g = Some v -> 0 < v -> goal r = v)
  /\ (g = None \/ (exists v, g = Some v /\ v <= 0) -> goal r = routineCount)
  /\ (forall d, getUTCDay (date_midnight d) = 0 ->
      let sunday := date_midnight d + ((23 * 60 + 59) * 60 + 59) * 1000 in
      let monday := date_midnight (d + 1) in
      monday = sunday + 1000
      /\ startOfWeek sunday = date_midnight (d - 6)
      /\ startOfWeek monday = monday
      /\ in_week sunday && in_week monday = false).
Proof.
  intros r in_week.
  destruct (startOfWeek_monday now) as (d0 & Hws & Hmon & Hd0).
  assert (Hr : weekStart r = date_midnight d0) by exact Hws.
  pose proof (utc_date_bounds now) as Hnow.
  split; [|split; [|split; [|split]]].
  - rewrite Hr, utc_date_midnight. split; [reflexivity|].
    split.
    + unfold getUTCDay. rewrite utc_date_midnight. exact Hmon.
    + unfold date_midnight in *. rewrite MS_PER_DAY_value in *. lia.
  - unfold r, computeWeeklyGoal, in_week. cbn [completed weekStart].
    f_equal. apply filter_ext. intros t.
    rewrite Hr, Hws, utc_date_midnight.
    unfold date_midnight.
    replace ((d0 + 7) * MS_PER_DAY) with (d0 * MS_PER_DAY + 7 * MS_PER_DAY)
      by lia.
    reflexivity.
  - intros v -> Hv. unfold r, computeWeeklyGoal. cbn [goal].
    destruct (Z.eqb_spec v 0); [lia|].
    destruct (Z.ltb_spec 0 v); [reflexivity | lia].
  - intros [-> | (v & -> & Hv)]; unfold r, computeWeeklyGoal; cbn [goal].
    + reflexivity.
    + destruct (Z.ltb_spec 0 v); [lia|]. rewrite andb_false_r. reflexivity.
  - intros d Hsun sunday monday.
    unfold getUTCDay in Hsun. rewrite utc_date_midnight in Hsun.
    assert (Hsd : date_midnight d <= sunday < date_midnight (d + 1)).
    { unfold sunday, date_midnight. rewrite MS_PER_DAY_value. lia. }
    split; [|split; [|split]].
    + unfold monday, sunday, date_midnight. rewrite MS_PER_DAY_value. lia.
    + apply startOfWeek_of_monday.
      * Z.to_euclidean_division_equations. lia.
      * unfold date_midnight in *. rewrite MS_PER_DAY_value in *. lia.
    + apply startOfWeek_of_monday.
      * Z.to_euclidean_division_equations. lia.
      * unfold monday, date_midnight. rewrite MS_PER_DAY_value. lia.
    + unfold in_week. rewrite Hr.
      destruct (Z.leb_spec (date_midnight d0) sunday);
        destruct (Z.ltb_spec sunday (date_midnight d0 + 7 * MS_PER_DAY));
        destruct (Z.leb_spec (date_midnight d0) monday);
        destruct (Z.ltb_spec monday (date_midnight d0 + 7 * MS_PER_DAY));
        try reflexivity.
      exfalso. unfold monday, date_midnight in *.
      rewrite MS_PER_DAY_value in *.
      assert (d0 <= d /\ d + 1 < d0 + 7) as [? ?] by lia.
      clear - Hmon Hsun H3 H4. Z.to_euclidean_division_equations. lia.
Qed.

Lemma computeWeeklyGoal_week_witness :
  goal (computeWeeklyGoal (Some 3) [0; 345600000] 4 5) = 3
  /\ goal (computeWeeklyGoal None [] 4 5) = 4
  /\ startOfWeek (date_midnight 3 + 86399000) = date_midnight (-3)
  /\ startOfWeek (date_midnight 4) = date_midnight 4.
Proof.
  destruct (computeWeeklyGoal_week (Some 3) [0; 345600000] 4 5)
    as (_ & _ & Hpos & _ & _).
  destruct (computeWeeklyGoal_week None [] 4 5)
    as (_ & _ & _ & Hnull & Hweek).
  destruct (Hweek 3 eq_refl) as (_ & Hsun & Hmon & _).
  split; [|split; [|split]].
  - apply Hpos; reflexivity.
  - apply Hnull. left. reflexivity.
  - exact Hsun.
  - exact Hmon.
Defined.

(* ================================================================== *)
(** * Proofs: sorting and distinct values *)

Section SortByFacts.

Context {A : Type} (key : A -> Z).

Lemma insert_by_In (x y : A) (l : list A) :
  In y (insert_by key x l) <-> x = y \/ In y l.
Proof.
  induction l as [|z l IH]; simpl.
  - tauto.
  - destruct (key x <=? key z); simpl; [tauto|].
    rewrite IH. tauto.
Qed.

Lemma sort_by_In (y : A) (l : list A) : In y (sort_by key l) <-> In y l.
Proof.
  induction l as [|x l IH]; simpl; [tauto|].
  rewrite insert_by_In, IH. tauto.
Qed.

Lemma insert_by_sorted (x : A) (l : list A) :
  key_sorted key l -> key_sorted key (insert_by key x l).
Proof.
  induction l as [|z l IH]; simpl.
  - intros _. split; [intros y []|exact I].
  - intros [Hz Hl].
    destruct (Z.leb_spec (key x) (key z)) as [Hle|Hlt]; simpl.
    + split; [|split; assumption].
      intros y [<-|Hy]; [assumption|].
      specialize (Hz y Hy). lia.
    + split; [|apply IH; assumption].
      intros y Hy. apply insert_by_In in Hy as [<-|Hy]; [lia|].
      apply Hz; assumption.
Qed.

Lemma sort_by_sorted (l : list A) : key_sorted key (sort_by key l).
Proof.
  induction l as [|x l IH]; simpl; [exact I|].
  apply insert_by_sorted; assumption.
Qed.

Lemma insert_by_NoDup (x : A) (l : list A) :
  NoDup l -> ~ In x l -> NoDup (insert_by key x l).
Proof.
  induction l as [|z l IH]; simpl; intros Hnd Hx.
  - constructor; [intros []|constructor].
  - destruct (key x <=? key z).
    + constructor; [simpl; tauto|assumption].
    + inversion Hnd as [|? ? Hz Hl]; subst.
      constructor.
      * rewrite insert_by_In. intros [->|?]; tauto.
      * apply IH; tauto.
Qed.

Lemma sort_by_NoDup (l : list A) : NoDup l -> NoDup (sort_by key l).
Proof.
  induction 1 as [|x l Hx Hl IH]; simpl; [constructor|].
  apply insert_by_NoDup; [assumption|].
  rewrite sort_by_In. assumption.
Qed.

End SortByFacts.

Lemma existsb_Zeqb (x : Z) (l : list Z) :
  existsb (Z.eqb x) l = true <-> In x l.
Proof.
  rewrite existsb_exists. split.
  - intros (y & Hy & Heq). apply Z.eqb_eq in Heq. subst. assumption.
  - intros Hx. exists x. split; [assumption|apply Z.eqb_refl].
Qed.

Lemma uniq_acc_In (x : Z) (xs seen : list Z) :
  In x (uniq_acc seen xs) <-> In x xs /\ ~ In x seen.
Proof.
  revert seen. induction xs as [|y xs IH]; intros seen; simpl; [tauto|].
  destruct (existsb (Z.eqb y) seen) eqn:E.
  - apply existsb_Zeqb in E. rewrite IH.
    split; [tauto|]. intros [[->|?] ?]; tauto.
  - assert (~ In y seen) by (rewrite <- existsb_Zeqb, E; discriminate).
    simpl. rewrite IH. simpl.
    destruct (Z.eq_dec y x) as [->|]; tauto.
Qed.

Lemma uniq_acc_NoDup (xs seen : list Z) : NoDup (uniq_acc seen xs).
Proof.
  revert seen. induction xs as [|y xs IH]; intros seen; simpl.
  - constructor.
  - destruct (existsb (Z.eqb y) seen); [apply IH|].
    constructor; [|apply IH].
    rewrite uniq_acc_In. simpl. tauto.
Qed.

Lemma uniq_In (x : Z) (xs : list Z) : In x (uniq xs) <-> In x xs.
Proof. unfold uniq. rewrite uniq_acc_In. simpl. tauto. Qed.

Lemma key_sorted_ascending (l : list Z) :
  key_sorted (fun d => d) l -> NoDup l -> ascending l.
Proof.
  induction l as [|x l IH]; simpl; [tauto|].
  intros [Hx Hl] Hnd. inversion Hnd; subst.
  split; [|apply IH; assumption].
  intros y Hy. specialize (Hx y Hy).
  assert (x <> y) by (intros ->; contradiction). lia.
Qed.

Lemma descending_snoc (l : list Z) (x : Z) :
  descending l -> (forall y, In y l -> x < y) -> descending (l ++ [x]).
Proof.
  induction l as [|z l IH]; simpl; intros Hd Hx.
  - split; [intros y []|exact I].
  - destruct Hd as [Hz Hl]. split.
    + intros y Hy. apply in_app_or in Hy as [Hy|[<-|[]]]; auto.
    + apply IH; auto.
Qed.

Lemma ascending_rev (l : list Z) : ascending l -> descending (rev l).
Proof.
  induction l as [|x l IH]; simpl; [tauto|].
  intros [Hx Hl]. apply descending_snoc; [apply IH; assumption|].
  intros y Hy. apply in_rev in Hy. apply Hx; assumption.
Qed.

(** The dates of the sessions, distinct and ascending. *)
Lemma dates_ascending (xs : list Z) : ascending (sort (uniq xs)).
Proof.
  apply key_sorted_ascending.
  - apply sort_by_sorted.
  - apply sort_by_NoDup. apply uniq_acc_NoDup.
Qed.

Lemma dates_In (x : Z) (xs : list Z) : In x (sort (uniq xs)) <-> In x xs.
Proof. unfold sort. rewrite sort_by_In. apply uniq_In. Qed.

(* ================================================================== *)
(** * Proofs: the longest streak *)

Lemma run_in_ext (days days' : list Z) (d : Z) (k : nat) :
  (forall x, In x days -> In x days') -> run_in days d k -> run_in days' d k.
Proof. intros H Hr i Hi. apply H, Hr, Hi. Qed.

Lemma longest_run_ext (days days' : list Z) (k : nat) :
  (forall x, In x days <-> In x days') -> longest_run days k -> longest_run days' k.
Proof.
  intros H [(d & Hd) Hmax]. split.
  - exists d. eapply run_in_ext; [|exact Hd]. intros x. apply H.
  - intros d' k' Hr. apply (Hmax d'). eapply run_in_ext; [|exact Hr].
    intros x. apply H.
Qed.

Lemma longest_run_nil : longest_run [] 0.
Proof.
  split.
  - exists 0. intros i Hi. lia.
  - intros d k' Hr. destruct k' as [|k']; [lia|].
    destruct (Hr 0%nat ltac:(lia)).
Qed.

(** A run of the dates scanned so far that reaches the newest date [x] ends
    there. *)
Lemma run_reaching_last (acc : list Z) (x d : Z) (k : nat) :
  (forall y, In y acc -> y < x) ->
  run_in (acc ++ [x]) d k ->
  run_in acc d k \/ ((0 < k)%nat /\ d = x - Z.of_nat k + 1).
Proof.
  intros Hlt Hr.
  destruct (Z_lt_le_dec x d) as [Hxd|Hdx].
  - left. intros i Hi. specialize (Hr i Hi).
    apply in_app_or in Hr as [Hr|[Hr|[]]]; [assumption|lia].
  - destruct (Z_lt_le_dec x (d + Z.of_nat k)) as [Hin|Hout].
    + right. split; [lia|].
      specialize (Hr (k - 1)%nat ltac:(lia)).
      apply in_app_or in Hr as [Hr|[Hr|[]]]; [|lia].
      specialize (Hlt _ Hr). lia.
    + left. intros i Hi. specialize (Hr i Hi).
      apply in_app_or in Hr as [Hr|[Hr|[]]]; [assumption|lia].
Qed.

Lemma diffDays_dates (x prev : Z) :
  Js.round_div (date_midnight x - date_midnight prev) MS_PER_DAY = x - prev.
Proof.
  unfold Js.round_div, date_midnight. rewrite MS_PER_DAY_value.
  Z.to_euclidean_division_equations. lia.
Qed.

(** One step of the scan over the dates: a gap of one day extends the
    running streak, any other gap starts it again at 1, and the longest
    streak is the running maximum. *)
Lemma scan_step_gap (longest counter : nat) (prev x : Z) :
  scan_step {| scan_longest := longest; scan_counter := counter;
               scan_previous := Some (date_midnight prev) |} x
  = {| scan_longest :=
         Nat.max longest (if x - prev =? 1 then S counter else 1%nat);
       scan_counter := if x - prev =? 1 then S counter else 1%nat;
       scan_previous := Some (date_midnight x) |}.
Proof.
  unfold scan_step. cbn [scan_previous scan_counter scan_longest].
  rewrite diffDays_dates. reflexivity.
Qed.

Lemma scan_step_inv (acc : list Z) (s : Scan) (x : Z) :
  scan_inv acc s -> (forall y, In y acc -> y < x) ->
  scan_inv (acc ++ [x]) (scan_step s x).
Proof.
  unfold scan_inv, scan_step. intros Hinv Hlt.
  destruct (scan_previous s) as [p|]; cbn [scan_previous scan_counter
                                            scan_longest].
  - destruct Hinv as (prev & -> & Hprev & Hmax & Hc & Hrun & Hleft & Hlong).
    rewrite diffDays_dates.
    assert (Hpx : prev < x) by (apply Hlt; assumption).
    assert (HcL : (scan_counter s <= scan_longest s)%nat)
      by (destruct Hlong as [_ Hm]; eapply Hm; exact Hrun).
    set (c := scan_counter s) in *. set (L := scan_longest s) in *.
    exists x. split; [reflexivity|].
    split; [apply in_or_app; right; left; reflexivity|].
    split.
    { intros y Hy. apply in_app_or in Hy as [Hy|[<-|[]]]; [|lia].
      specialize (Hlt y Hy). lia. }
    destruct (Z.eqb_spec (x - prev) 1) as [Hone|Hgap].
    + split; [lia|]. split; [|split].
      * intros i Hi. apply in_or_app.
        destruct (Nat.eq_dec i c) as [->|Hic].
        -- right. left. lia.
        -- left. replace (x - Z.of_nat (S c) + 1 + Z.of_nat i)
             with (prev - Z.of_nat c + 1 + Z.of_nat i) by lia.
           apply Hrun. lia.
      * intros Hin. apply in_app_or in Hin as [Hin|[Hin|[]]]; [|lia].
        apply Hleft. replace (prev - Z.of_nat c)
          with (x - Z.of_nat (S c)) by lia. assumption.
      * destruct Hlong as [(d0 & Hd0) Hm]. split.
        -- destruct (Nat.max_spec L (S c)) as [[_ ->]|[_ ->]].
           ++ exists (x - Z.of_nat (S c) + 1). intros i Hi. apply in_or_app.
              destruct (Nat.eq_dec i c) as [->|Hic].
              ** right. left. lia.
              ** left. replace (x - Z.of_nat (S c) + 1 + Z.of_nat i)
                   with (prev - Z.of_nat c + 1 + Z.of_nat i) by lia.
                 apply Hrun. lia.
           ++ exists d0. eapply run_in_ext; [|exact Hd0].
              intros y Hy. apply in_or_app. left. assumption.
        -- intros d k' Hr.
           destruct (run_reaching_last acc x d k' Hlt Hr) as [Hold|[Hk ->]].
           ++ specialize (Hm d k' Hold). lia.
           ++ destruct (le_lt_dec k' (S c)) as [|Hbig]; [lia|].
              exfalso. apply Hleft.
              specialize (Hr (k' - 1 - S c)%nat ltac:(lia)).
              apply in_app_or in Hr as [Hr|[Hr|[]]]; [|lia].
              replace (prev - Z.of_nat c)
                with (x - Z.of_nat k' + 1 + Z.of_nat (k' - 1 - S c)) by lia.
              assumption.
    + split; [lia|]. split; [|split].
      * intros i Hi. apply in_or_app. right. left. lia.
      * intros Hin. apply in_app_or in Hin as [Hin|[Hin|[]]]; [|lia].
        specialize (Hmax _ Hin). lia.
      * destruct Hlong as [(d0 & Hd0) Hm]. split.
        -- exists d0. replace (Nat.max L 1) with L by lia.
           eapply run_in_ext; [|exact Hd0].
           intros y Hy. apply in_or_app. left. assumption.
        -- intros d k' Hr.
           destruct (run_reaching_last acc x d k' Hlt Hr) as [Hold|[Hk ->]].
           ++ specialize (Hm d k' Hold). lia.
           ++ destruct (le_lt_dec k' 1) as [|Hbig]; [lia|].
              exfalso.
              specialize (Hr (k' - 2)%nat ltac:(lia)).
              apply in_app_or in Hr as [Hr|[Hr|[]]]; [|lia].
              specialize (Hmax _ Hr). lia.
  - destruct Hinv as [-> HL]. rewrite HL. simpl.
    exists x. split; [reflexivity|].
    split; [left; reflexivity|].
    split; [intros y [<-|[]]; lia|].
    split; [lia|]. split; [|split].
    + intros i Hi. left. lia.
    + intros [Hin|[]]. lia.
    + split.
      * exists x. intros i Hi. left. lia.
      * intros d k' Hr. destruct (le_lt_dec k' 1) as [|Hbig]; [lia|].
        exfalso.
        destruct (Hr 0%nat ltac:(lia)) as [H0|[]].
        destruct (Hr 1%nat ltac:(lia)) as [H1|[]]. lia.
Qed.

Lemma scan_fold_inv (l acc : list Z) (s : Scan) :
  scan_inv acc s -> ascending l ->
  (forall y x, In y acc -> In x l -> y < x) ->
  scan_inv (acc ++ l) (fold_left scan_step l s).
Proof.
  revert acc s. induction l as [|x l IH]; intros acc s Hinv Hasc Hlt.
  - rewrite app_nil_r. exact Hinv.
  - simpl. destruct Hasc as [Hx Hl].
    replace (acc ++ x :: l) with ((acc ++ [x]) ++ l)
      by (rewrite <- app_assoc; reflexivity).
    apply IH.
    + apply scan_step_inv; [assumption|].
      intros y Hy. apply Hlt; [assumption|left; reflexivity].
    + assumption.
    + intros y z Hy Hz. apply in_app_or in Hy as [Hy|[<-|[]]].
      * apply Hlt; [assumption|right; assumption].
      * apply Hx; assumption.
Qed.

Lemma scan_longest_run (xs : list Z) :
  longest_run xs
    (scan_longest
       (fold_left scan_step (sort (uniq xs))
          {| scan_longest := 0; scan_counter := 0; scan_previous := None |})).
Proof.
  apply (longest_run_ext (sort (uniq xs)));
    [intros x; apply dates_In|].
  pose proof (scan_fold_inv (sort (uniq xs)) []
                {| scan_longest := 0; scan_counter := 0;
                   scan_previous := None |}) as H.
  simpl app in H.
  assert (Hinv : scan_inv (sort (uniq xs))
                   (fold_left scan_step (sort (uniq xs))
                      {| scan_longest := 0; scan_counter := 0;
                         scan_previous := None |})).
  { apply H.
    - split; reflexivity.
    - apply dates_ascending.
    - intros y x []. }
  unfold scan_inv in Hinv.
  destruct (scan_previous _).
  - destruct Hinv as (prev & _ & _ & _ & _ & _ & _ & Hlong). exact Hlong.
  - destruct Hinv as [-> ->]. apply longest_run_nil.
Qed.

Lemma longestStreak_longest_run (now : Z) (logs : list Z) :
  longest_run (map utc_date logs)
    (longestStreak (computeStreakStats now logs)).
Proof.
  destruct logs as [|t logs].
  - apply longest_run_nil.
  - apply scan_longest_run.
Qed.

(** The longest run of two runs that a gap of more than one day parts. *)
Lemma longest_run_two_runs (days : list Z) (a b : Z) (m n k : nat) :
  (0 < m)%nat -> (0 < n)%nat -> a + Z.of_nat m < b ->
  (forall d, In d days <->
             a <= d < a + Z.of_nat m \/ b <= d < b + Z.of_nat n) ->
  longest_run days k -> k = Nat.max m n.
Proof.
  intros Hm Hn Hgap HS [(d0 & Hd0) Hmax].
  assert (Hra : run_in days a m) by (intros i Hi; apply HS; lia).
  assert (Hrb : run_in days b n) by (intros i Hi; apply HS; lia).
  pose proof (Hmax _ _ Hra) as Hma. pose proof (Hmax _ _ Hrb) as Hmb.
  assert (k <= Nat.max m n)%nat; [|lia].
  destruct k as [|k]; [lia|].
  pose proof (Hd0 0%nat ltac:(lia)) as Hfirst. apply HS in Hfirst.
  destruct Hfirst as [Hfirst|Hfirst].
  - destruct (le_lt_dec (S k) m) as [|Hbig]; [lia|].
    exfalso.
    pose proof (Hd0 (Z.to_nat (a + Z.of_nat m - d0)) ltac:(lia)) as Hg.
    apply HS in Hg. lia.
  - destruct (le_lt_dec (S k) n) as [|Hbig]; [lia|].
    exfalso.
    pose proof (Hd0 (Z.to_nat (b + Z.of_nat n - d0)) ltac:(lia)) as Hg.
    apply HS in Hg. lia.
Qed.

(** C6: for sessions of the years 0000 to 9999, [longestStreak] is the
    length of the longest run of consecutive days among the UTC dates of the
    sessions; when these dates are two runs that a gap of more than one day
    parts, it is the length of the longer one. *)
Theorem computeStreakStats_longestStreak (now : Z) (logs : list Z) :
  (forall t, In t logs -> four_digit_year t) ->
  let days := map utc_date logs in
  let r := computeStreakStats now logs in
  longest_run days (longestStreak r)
  /\ forall (a b : Z) (m n : nat),
       (0 < m)%nat -> (0 < n)%nat -> a + Z.of_nat m < b ->
       (forall d, In d days <->
                  a <= d < a + Z.of_nat m \/ b <= d < b + Z.of_nat n) ->
       longestStreak r = Nat.max m n.
Proof.
  intros _ days r. split.
  - apply longestStreak_longest_run.
  - intros a b m n Hm Hn Hgap HS.
    eapply longest_run_two_runs; eauto.
    apply longestStreak_longest_run.
Qed.

Lemma computeStreakStats_longestStreak_witness :
  longestStreak
    (computeStreakStats 0
       [0; 86400000; 345600000; 432000000; 518400000; 518400001])
  = 3%nat.
Proof.
  assert (Hyears : forall t,
             In t [0; 86400000; 345600000; 432000000; 518400000; 518400001] ->
             four_digit_year t).
  { unfold four_digit_year, MS_PER_DAY. simpl In. intros t H. lia. }
  apply (proj2 (computeStreakStats_longestStreak 0
                  [0; 86400000; 345600000; 432000000; 518400000; 518400001]
                  Hyears)
           0 4 2%nat 3%nat); [lia | lia | lia |].
  intros d.
  change (map utc_date
            [0; 86400000; 345600000; 432000000; 518400000; 518400001])
    with [0; 1; 4; 5; 6; 6].
  simpl In. lia.
Defined.

(* ================================================================== *)
(** * Proofs: the current streak *)

Lemma walk_back_counts (rest : list Z) (e : Z) (c : nat) :
  descending rest -> (forall y, In y rest -> y < e) ->
  exists j,
    walk_back e rest c = (c + j)%nat
    /\ (forall i, (1 <= i <= j)%nat -> In (e - Z.of_nat i) rest)
    /\ ~ In (e - Z.of_nat (S j)) rest.
Proof.
  revert e c. induction rest as [|d rest IH]; intros e c Hdesc Hlt.
  - exists 0%nat. simpl. split; [lia|]. split; [intros i Hi; lia|tauto].
  - destruct Hdesc as [Hd Hrest]. simpl.
    destruct (Z.eqb_spec d (e - 1)) as [->|Hne].
    + destruct (IH (e - 1) (S c) Hrest Hd) as (j & Hw & Hin & Hout).
      exists (S j). split; [rewrite Hw; lia|]. split.
      * intros i Hi. destruct (Nat.eq_dec i 1) as [->|Hi1].
        -- left. lia.
        -- right. replace (e - Z.of_nat i)
             with (e - 1 - Z.of_nat (i - 1)) by lia.
           apply Hin. lia.
      * intros [Heq|Hin']; [lia|].
        apply Hout. replace (e - 1 - Z.of_nat (S j))
          with (e - Z.of_nat (S (S j))) by lia.
        assumption.
    + exists 0%nat. split; [lia|]. split; [intros i Hi; lia|].
      pose proof (Hlt d (or_introl eq_refl)).
      intros [Heq|Hin']; [lia|].
      specialize (Hd _ Hin'). lia.
Qed.

Lemma most_recent_unique (days : list Z) (m m' : Z) :
  most_recent days m -> most_recent days m' -> m = m'.
Proof.
  intros [Hm Hle] [Hm' Hle'].
  specialize (Hle _ Hm'). specialize (Hle' _ Hm). lia.
Qed.

(** What [currentStreak] is, by the most recent session day. *)
Lemma currentStreak_cases (now : Z) (logs : list Z) :
  let days := map utc_date logs in
  let r := computeStreakStats now logs in
  (logs = [] /\ currentStreak r = 0%nat)
  \/ exists m,
       most_recent days m
       /\ lastWorkoutDate r = Some m
       /\ ((m = utc_date now
            /\ (1 <= currentStreak r)%nat
            /\ unbroken_back days (utc_date now) (currentStreak r))
           \/ (m <> utc_date now /\ currentStreak r = 0%nat)).
Proof.
  intros days r. destruct logs as [|t logs]; [left; split; reflexivity|].
  right. unfold r, computeStreakStats.
  cbn [currentStreak lastWorkoutDate].
  set (xs := map utc_date (t :: logs)).
  pose proof (ascending_rev _ (dates_ascending xs)) as Hdesc.
  assert (Hin : forall x, In x (rev (sort (uniq xs))) <-> In x days).
  { intros x. rewrite <- in_rev. apply dates_In. }
  destruct (rev (sort (uniq xs))) as [|d0 rest] eqn:E.
  - exfalso. apply (proj2 (Hin (utc_date t))). left. reflexivity.
  - destruct Hdesc as [Hd0 Hrest].
    exists d0. split; [|split; [reflexivity|]].
    + split; [apply Hin; left; reflexivity|].
      intros d Hd. apply Hin in Hd as [<-|Hd]; [lia|].
      specialize (Hd0 _ Hd). lia.
    + destruct (Z.eqb_spec d0 (utc_date now)) as [->|Hne].
      * left. split; [reflexivity|].
        destruct (walk_back_counts rest (utc_date now) 1 Hrest Hd0)
          as (j & -> & Hback & Hstop).
        split; [lia|]. split.
        -- intros i Hi. apply Hin.
           destruct i as [|i]; [left; lia|].
           right. apply Hback. lia.
        -- intros Hbad. apply Hin in Hbad as [Heq|Hbad]; [lia|].
           apply Hstop. replace (S j) with (1 + j)%nat by lia. assumption.
      * right. split; [assumption|reflexivity].
Qed.

(** C7: for sessions of the years 0000 to 9999, [currentStreak] is
    non-zero only when the most recent session day is today (UTC); it then
    counts the days back from today up to the first day without a session;
    when the most recent session day is before today it is 0. *)
Theorem computeStreakStats_currentStreak (now : Z) (logs : list Z) :
  (forall t, In t logs -> four_digit_year t) ->
  let days := map utc_date logs in
  let today := utc_date now in
  let r := computeStreakStats now logs in
  (currentStreak r <> 0%nat -> most_recent days today)
  /\ (most_recent days today ->
      (1 <= currentStreak r)%nat /\ unbroken_back days today (currentStreak r))
  /\ (forall m, most_recent days m -> m < today -> currentStreak r = 0%nat).
Proof.
  intros _ days today r. subst days today r.
  destruct (currentStreak_cases now logs)
    as [[-> H0]|(m & Hm & _ & [(-> & H1 & Hback)|(Hne & H0)])].
  - split; [|split].
    + intros Hc. contradiction.
    + intros [[] _].
    + intros. exact H0.
  - split; [|split].
    + intros _. exact Hm.
    + intros _. split; assumption.
    + intros m' Hm' Hlt. pose proof (most_recent_unique _ _ _ Hm Hm'). lia.
  - split; [|split].
    + intros Hc. contradiction.
    + intros Ht. pose proof (most_recent_unique _ _ _ Hm Ht). contradiction.
    + intros. exact H0.
Qed.

Lemma computeStreakStats_currentStreak_witness :
  currentStreak (computeStreakStats 345600005 [259200000; 172800000; 0])
  = 0%nat
  /\ unbroken_back [3; 2; 0] 3
       (currentStreak (computeStreakStats 259200005 [259200000; 172800000; 0])).
Proof.
  assert (Hyears : forall t, In t [259200000; 172800000; 0] ->
                             four_digit_year t).
  { unfold four_digit_year, MS_PER_DAY. simpl In. intros t H. lia. }
  split.
  - apply (proj2 (proj2 (computeStreakStats_currentStreak 345600005
                           [259200000; 172800000; 0] Hyears)) 3).
    + change (map utc_date [259200000; 172800000; 0]) with [3; 2; 0].
      split; [left; reflexivity|]. simpl In. intros d H. lia.
    + change (utc_date 345600005) with 4. lia.
  - apply (proj1 (proj2 (computeStreakStats_currentStreak 259200005
                           [259200000; 172800000; 0] Hyears))).
    change (map utc_date [259200000; 172800000; 0]) with [3; 2; 0].
    change (utc_date 259200005) with 3.
    split; [left; reflexivity|]. simpl In. intros d H. lia.
Defined.

(** C10: the current streak is never longer than the longest one. *)
Theorem computeStreakStats_current_le_longest (now : Z) (logs : list Z) :
  (currentStreak (computeStreakStats now logs)
   <= longestStreak (computeStreakStats now logs))%nat.
Proof.
  destruct (currentStreak_cases now logs)
    as [[_ H0]|(m & _ & _ & [(_ & H1 & [Hback _])|(_ & H0)])];
    try (rewrite H0; lia).
  destruct (longestStreak_longest_run now logs) as [_ Hmax].
  set (c := currentStreak (computeStreakStats now logs)) in *.
  apply (Hmax (utc_date now - Z.of_nat (c - 1))).
  intros i Hi.
  replace (utc_date now - Z.of_nat (c - 1) + Z.of_nat i)
    with (utc_date now - Z.of_nat (c - 1 - i)) by lia.
  apply Hback. lia.
Qed.

(* ================================================================== *)
(** * Proofs: the health alerts *)

Lemma alerts_unfold (t : Tables) (pt : nat) (now0 now1 : Z) :
  alerts t pt now0 now1
  = alerts_of
      (fetch_client_profiles (profiles t) (fetch_client_ids (pt_clients t) pt))
      (fetch_health_logs (client_health_logs t)
         (fetch_client_ids (pt_clients t) pt))
      (fetch_upcoming_sessions (pt_calendar_events t) pt now0 now1).
Proof.
  unfold alerts.
  destruct (fetch_client_ids (pt_clients t) pt) eqn:E; [|reflexivity].
  unfold fetch_health_logs.
  replace (filter (fun l => mem (hl_client_id l) []) (client_health_logs t))
    with (@nil HealthLog).
  - simpl. induction (fetch_upcoming_sessions _ _ _ _) as [|s l IH];
      [reflexivity|].
    simpl. unfold alert_of.
    destruct (ev_client_id s); simpl; exact IH.
  - induction (client_health_logs t) as [|l ls IH]; [reflexivity|].
    simpl. exact IH.
Qed.

Lemma alerts_of_In (P : list Profile) (L : list HealthLog)
    (sessions : list CalendarEvent) (a : Alert) :
  In a (alerts_of P L sessions)
  <-> exists s, In s sessions /\ alert_of P L s = Some a.
Proof.
  induction sessions as [|s ss IH]; simpl.
  - split; [tauto|intros (s & [] & _)].
  - destruct (alert_of P L s) as [a'|] eqn:E; simpl; rewrite IH.
    + split.
      * intros [<-|(s' & Hs' & Ha)]; [exists s; tauto|exists s'; tauto].
      * intros (s' & [<-|Hs'] & Ha); [left; congruence|right; exists s'; tauto].
    + split.
      * intros (s' & Hs' & Ha). exists s'. tauto.
      * intros (s' & [<-|Hs'] & Ha); [congruence|exists s'; tauto].
Qed.

Lemma alert_of_eventId (P : list Profile) (L : list HealthLog)
    (s : CalendarEvent) (a : Alert) :
  alert_of P L s = Some a -> eventId a = ev_id s.
Proof.
  unfold alert_of. destruct (ev_client_id s); [|discriminate].
  destruct (activeIssueByClient L n); [|discriminate].
  intros [= <-]. reflexivity.
Qed.

(** No alert refers to an event that is not among the sessions. *)
Lemma alerts_for_absent (P : list Profile) (L : list HealthLog)
    (sessions : list CalendarEvent) (e : CalendarEvent) :
  ~ In (ev_id e) (map ev_id sessions) ->
  alerts_for e (alerts_of P L sessions) = [].
Proof.
  unfold alerts_for. induction sessions as [|s ss IH]; simpl; [reflexivity|].
  intros Hnot. destruct (alert_of P L s) as [a|] eqn:E; [|apply IH; tauto].
  simpl. rewrite (alert_of_eventId _ _ _ _ E).
  destruct (Nat.eqb_spec (ev_id s) (ev_id e)); [tauto|apply IH; tauto].
Qed.

(** The alerts that refer to one of the sessions: its own alert, if any. *)
Lemma alerts_for_session (P : list Profile) (L : list HealthLog)
    (sessions : list CalendarEvent) (e : CalendarEvent) :
  NoDup (map ev_id sessions) -> In e sessions ->
  alerts_for e (alerts_of P L sessions)
  = match alert_of P L e with Some a => [a] | None => [] end.
Proof.
  induction sessions as [|s ss IH]; simpl; [tauto|].
  intros Hnd [->|Hin]; inversion Hnd as [|? ? Hs Hss]; subst.
  - destruct (alert_of P L e) as [a|] eqn:E.
    + unfold alerts_for. simpl. rewrite (alert_of_eventId _ _ _ _ E).
      rewrite Nat.eqb_refl. f_equal.
      apply alerts_for_absent. assumption.
    + apply alerts_for_absent. assumption.
  - assert (Hne : ev_id s <> ev_id e).
    { intros Heq. apply Hs. rewrite Heq. apply in_map. assumption. }
    destruct (alert_of P L s) as [a|] eqn:E; [|apply IH; assumption].
    unfold alerts_for. simpl. rewrite (alert_of_eventId _ _ _ _ E).
    destruct (Nat.eqb_spec (ev_id s) (ev_id e)); [contradiction|].
    apply IH; assumption.
Qed.

(** The upcoming sessions are told apart by their ids when the events
    are. *)
Lemma upcoming_ids_distinct (events : list CalendarEvent) (pt : nat)
    (now0 now1 : Z) :
  NoDup (map ev_id events) ->
  NoDup (map ev_id (fetch_upcoming_sessions events pt now0 now1)).
Proof.
  unfold fetch_upcoming_sessions.
  set (keep := fun e : CalendarEvent => _).
  induction events as [|e events IH]; simpl; intros Hnd; [exact Hnd|].
  apply NoDup_cons_iff in Hnd as [Hfresh Hrest].
  destruct (keep e); simpl; [|exact (IH Hrest)].
  apply NoDup_cons; [|exact (IH Hrest)].
  rewrite in_map_iff. intros (e' & Hid & He').
  apply filter_In in He' as [He' _].
  apply Hfresh. rewrite <- Hid. apply in_map. exact He'.
Qed.

Lemma fetch_upcoming_sessions_In (events : list CalendarEvent) (pt : nat)
    (now : Z) (e : CalendarEvent) :
  In e (fetch_upcoming_sessions events pt now now)
  <-> In e events /\ upcoming pt now e.
Proof.
  unfold fetch_upcoming_sessions, upcoming. rewrite filter_In.
  rewrite !andb_true_iff, Nat.eqb_eq, !Z.leb_le.
  destruct (ev_event_type e); simpl; intuition (try discriminate; auto).
Qed.

(** The first match in a list sorted by key has the least key of all
    matches. *)
Lemma find_sorted_least {A : Type} (key : A -> Z) (p : A -> bool)
    (l : list A) :
  key_sorted key l ->
  match find p l with
  | Some x => In x l /\ p x = true
              /\ forall y, In y l -> p y = true -> key x <= key y
  | None => forall y, In y l -> p y = false
  end.
Proof.
  induction l as [|x l IH]; simpl; [tauto|].
  intros [Hx Hl]. destruct (p x) eqn:E.
  - split; [tauto|]. split; [assumption|].
    intros y [<-|Hy] _; [lia|apply Hx; assumption].
  - specialize (IH Hl). destruct (find p l) as [z|].
    + destruct IH as (Hz & Hpz & Hmin). split; [tauto|].
      split; [assumption|].
      intros y [<-|Hy] Hpy; [congruence|apply Hmin; assumption].
    + intros y [<-|Hy]; [assumption|apply IH; assumption].
Qed.

Lemma find_filter {A : Type} (p q : A -> bool) (l : list A) :
  find p (filter q l) = find (fun x => q x && p x) l.
Proof.
  induction l as [|x l IH]; simpl; [reflexivity|].
  destruct (q x); simpl; [|exact IH].
  destruct (p x); [reflexivity|exact IH].
Qed.

(** The active issue of a client is a most recently logged one among the
    logs of the trainer's clients; there is none when no log is active. *)
Lemma activeIssueByClient_most_recent (t : Tables) (pt client : nat) :
  match activeIssueByClient
          (fetch_health_logs (client_health_logs t)
             (fetch_client_ids (pt_clients t) pt)) client with
  | Some l => most_recent_active (client_logs t pt) client l
  | None => forall l, In l (client_logs t pt) -> hl_client_id l = client ->
                      is_active l = false
  end.
Proof.
  unfold activeIssueByClient, healthLogsByClient, fetch_health_logs.
  fold (client_logs t pt). rewrite find_filter.
  pose proof (find_sorted_least (fun l => - hl_logged_at l)
                (fun x => Nat.eqb (hl_client_id x) client && is_active x)
                _ (sort_by_sorted (fun l => - hl_logged_at l)
                     (client_logs t pt))) as H.
  destruct (find _ _) as [l|].
  - destruct H as (Hin & Hp & Hmin).
    apply sort_by_In in Hin. apply andb_true_iff in Hp as [Hc Ha].
    apply Nat.eqb_eq in Hc.
    split; [assumption|]. split; [assumption|]. split; [assumption|].
    intros l' Hin' Hc' Ha'.
    assert (- hl_logged_at l <= - hl_logged_at l'); [|lia].
    apply Hmin; [apply sort_by_In; assumption|].
    rewrite Ha', andb_true_r. apply Nat.eqb_eq. assumption.
  - intros l Hin Hc.
    specialize (H l ltac:(apply sort_by_In; assumption)).
    apply andb_false_iff in H as [H|H]; [|assumption].
    apply Nat.eqb_neq in H. contradiction.
Qed.

(** Two events of a calendar with the same id are one event. *)
Lemma event_of_id (events : list CalendarEvent) (e e' : CalendarEvent) :
  NoDup (map ev_id events) -> In e events -> In e' events ->
  ev_id e = ev_id e' -> e = e'.
Proof.
  induction events as [|x events IH]; simpl; [tauto|].
  intros Hnd He He' Hid. apply NoDup_cons_iff in Hnd as [Hfresh Hrest].
  destruct He as [->|He], He' as [->|He']; auto.
  - exfalso. apply Hfresh. rewrite Hid. apply in_map. exact He'.
  - exfalso. apply Hfresh. rewrite <- Hid. apply in_map. exact He.
Qed.

(** The alerts by the steps of the route: the logs it loads and the log it
    takes as active. *)
Lemma alerts_by_loaded_logs (t : Tables) (pt : nat) (now : Z) :
  NoDup (map ev_id (pt_calendar_events t)) ->
  let out := alerts t pt now now in
  (forall e, In e (pt_calendar_events t) ->
     match ev_client_id e with
     | Some c =>
         (upcoming pt now e ->
          (exists l a,
             most_recent_active (client_logs t pt) c l
             /\ alerts_for e out = [a]
             /\ eventId a = ev_id e /\ clientId a = c
             /\ sessionStart a = ev_start_at e
             /\ sessionEnd a = ev_end_at e
             /\ injuryTitle a = hl_injury_title l
             /\ status a = hl_status l)
          \/ ((forall l, In l (client_logs t pt) -> hl_client_id l = c ->
                         is_active l = false)
              /\ alerts_for e out = []))
         /\ (~ upcoming pt now e -> alerts_for e out = [])
     | None => alerts_for e out = []
     end)
  /\ (forall a, In a out ->
        exists e, In e (pt_calendar_events t) /\ eventId a = ev_id e).
Proof.
  intros Hnd out. subst out. rewrite alerts_unfold.
  set (P := fetch_client_profiles _ _).
  set (L := fetch_health_logs _ _).
  set (sessions := fetch_upcoming_sessions _ _ _ _).
  assert (Hnd' : NoDup (map ev_id sessions))
    by (apply upcoming_ids_distinct; assumption).
  assert (Hout : forall e, In e (pt_calendar_events t) ->
                           ~ upcoming pt now e ->
                           alerts_for e (alerts_of P L sessions) = []).
  { intros e He Hup. apply alerts_for_absent. intros Hin.
    apply in_map_iff in Hin as (s & Hid & Hs).
    apply fetch_upcoming_sessions_In in Hs as [Hs Hups].
    assert (s = e)
      by (apply (event_of_id (pt_calendar_events t)); assumption).
    subst. contradiction. }
  split.
  - intros e He.
    destruct (ev_client_id e) as [c|] eqn:Ec.
    + split; [|apply Hout; assumption].
      intros Hup.
      assert (Hs : In e sessions)
        by (apply fetch_upcoming_sessions_In; split; assumption).
      rewrite (alerts_for_session P L sessions e Hnd' Hs).
      unfold alert_of. rewrite Ec.
      pose proof (activeIssueByClient_most_recent t pt c) as Hact.
      fold L in Hact.
      destruct (activeIssueByClient L c) as [l|].
      * left. eexists l, _. split; [exact Hact|].
        split; [reflexivity|]. simpl. repeat split.
      * right. split; [exact Hact|reflexivity].
    + destruct (fetch_upcoming_sessions_In (pt_calendar_events t) pt now e)
        as [_ Hback].
      assert (Hdec : In e sessions \/ ~ In e sessions).
      { destruct (in_dec Nat.eq_dec (ev_id e) (map ev_id sessions))
          as [Hin|Hnin].
        - left. apply in_map_iff in Hin as (s & Hid & Hs).
          assert (s = e); [|subst; assumption].
          apply fetch_upcoming_sessions_In in Hs as [Hs' _].
          apply (event_of_id (pt_calendar_events t)); assumption.
        - right. intros Hin. apply Hnin. apply in_map. assumption. }
      destruct Hdec as [Hs|Hs].
      * rewrite (alerts_for_session P L sessions e Hnd' Hs).
        unfold alert_of. rewrite Ec. reflexivity.
      * apply alerts_for_absent. intros Hin. apply Hs.
        apply in_map_iff in Hin as (s & Hid & Hs').
        assert (s = e); [|subst; assumption].
        apply fetch_upcoming_sessions_In in Hs' as [Hs'' _].
        apply (event_of_id (pt_calendar_events t)); assumption.
  - intros a Ha. apply alerts_of_In in Ha as (s & Hs & Ha).
    exists s. split.
    + apply fetch_upcoming_sessions_In in Hs. tauto.
    + eapply alert_of_eventId; eassumption.
Qed.

Lemma assigned_loaded (t : Tables) (pt client : nat) :
  assigned t pt client
  <-> mem client (fetch_client_ids (pt_clients t) pt) = true.
Proof.
  unfold assigned, mem, fetch_client_ids. split.
  - intros (a & Ha & Hpt & Hc & Hact). apply existsb_exists.
    exists client. split; [|apply Nat.eqb_refl].
    apply in_map_iff. exists a. split; [exact Hc|].
    apply filter_In. split; [exact Ha|].
    rewrite Hpt, Hact, Nat.eqb_refl. reflexivity.
  - intros H. apply existsb_exists in H as (c & Hc & E).
    apply Nat.eqb_eq in E. subst c.
    apply in_map_iff in Hc as (a & Ha & Hin).
    apply filter_In in Hin as [Hin Hp].
    apply andb_true_iff in Hp as [Hpt Hact]. apply Nat.eqb_eq in Hpt.
    exists a. auto.
Qed.

Lemma is_active_open (l : HealthLog) :
  (is_active l = true <-> open_issue l)
  /\ (is_active l = false <-> hl_status l = RESOLVED).
Proof.
  unfold is_active, open_issue.
  destruct (hl_status l); split; split; intros H;
    try reflexivity; try discriminate; auto;
    destruct H as [H|H]; discriminate.
Qed.

(** C9: with the clock pinned at [now], and the events of the calendar
    told apart by their ids.  Take an event of type session of this trainer
    that starts within [[now, now + 15 minutes]] and is linked to a client.
    When the client has an active assignment to the trainer and a stored
    health log with status ACUTE or LINGERING, the event gets exactly one
    alert; it carries the event, the client and such a log of the client
    than which none with one of these two statuses was logged later, so its
    status is ACUTE or LINGERING.  When the client has no active assignment
    to the trainer, or every stored log of the client is RESOLVED, the event
    gets no alert.  Any other event gets no alert, and every alert refers to
    an event of the calendar. *)
Theorem alerts_correlate (t : Tables) (pt : nat) (now : Z) :
  NoDup (map ev_id (pt_calendar_events t)) ->
  let out := alerts t pt now now in
  (forall e, In e (pt_calendar_events t) ->
     match ev_client_id e with
     | Some c =>
         (upcoming pt now e ->
          (assigned t pt c
           /\ exists l a,
                latest_open_issue t c l
                /\ alerts_for e out = [a]
                /\ eventId a = ev_id e /\ clientId a = c
                /\ sessionStart a = ev_start_at e
                /\ sessionEnd a = ev_end_at e
                /\ injuryTitle a = hl_injury_title l
                /\ status a = hl_status l
                /\ (status a = ACUTE \/ status a = LINGERING))
          \/ ((~ assigned t pt c
               \/ forall l, In l (client_health_logs t) ->
                            hl_client_id l = c -> hl_status l = RESOLVED)
              /\ alerts_for e out = []))
         /\ (~ upcoming pt now e -> alerts_for e out = [])
     | None => alerts_for e out = []
     end)
  /\ (forall a, In a out ->
        exists e, In e (pt_calendar_events t) /\ eventId a = ev_id e).
Proof.
  intros Hnd out.
  destruct (alerts_by_loaded_logs t pt now Hnd) as [Hev Hall].
  fold out in Hev, Hall. split; [|exact Hall].
  intros e He. specialize (Hev e He).
  destruct (ev_client_id e) as [c|]; [|exact Hev].
  destruct Hev as [Hup Hout]. split; [|exact Hout].
  intros Hu.
  destruct (Hup Hu)
    as [(l & a & (Hin & Hc & Hact & Hmax) & Hfor & Hid & Hcl & Hs & He'
         & Hti & Hst)|[Hnone Hfor]].
  - left. unfold client_logs in Hin. apply filter_In in Hin as [Hin Hmem].
    rewrite Hc in Hmem. apply is_active_open in Hact.
    split; [apply assigned_loaded; exact Hmem|].
    exists l, a. split.
    + split; [exact Hin|]. split; [exact Hc|]. split; [exact Hact|].
      intros l' Hin' Hc' Hopen. apply Hmax; [|exact Hc'|].
      * unfold client_logs. apply filter_In. split; [exact Hin'|].
        rewrite Hc'. exact Hmem.
      * apply is_active_open. exact Hopen.
    + rewrite Hst. repeat split; auto.
  - right. split; [|exact Hfor].
    destruct (mem c (fetch_client_ids (pt_clients t) pt)) eqn:Hmem.
    + right. intros l Hin Hc. apply is_active_open.
      apply Hnone; [|exact Hc].
      unfold client_logs. apply filter_In. split; [exact Hin|].
      rewrite Hc. exact Hmem.
    + left. intros Hasg. apply assigned_loaded in Hasg. congruence.
Qed.

Lemma alerts_correlate_witness :
  exists a,
    alerts_for Example.training (alerts Example.healed 1 1000 1000) = [a]
    /\ status a = ACUTE
    /\ injuryTitle a = "knee".
Proof.
  assert (Hnd : NoDup (map ev_id (pt_calendar_events Example.healed))).
  { simpl. constructor; [tauto|constructor]. }
  destruct (proj1 (alerts_correlate Example.healed 1 1000 Hnd)
              Example.training (or_introl eq_refl)) as [Hup _].
  assert (Hupcoming : upcoming 1 1000 Example.training).
  { unfold upcoming. simpl. split; [reflexivity|]. split; [reflexivity|lia]. }
  destruct (Hup Hupcoming)
    as [(_ & l & a & Hl & Hfor & _ & _ & _ & _ & Hti & Hst & _)
       |[[Hno|Hres] _]].
  - exists a. split; [exact Hfor|]. rewrite Hst, Hti.
    destruct Hl as (Hin & _ & Hopen & Hmax).
    destruct Hin as [<-|[<-|[<-|[]]]].
    + specialize (Hmax Example.knee (or_intror (or_introl eq_refl))
                    eq_refl (or_introl eq_refl)).
      simpl in Hmax. lia.
    + split; reflexivity.
    + destruct Hopen as [H|H]; discriminate.
  - exfalso. apply Hno. eexists. split; [left; reflexivity|].
    repeat split.
  - specialize (Hres Example.knee (or_intror (or_introl eq_refl)) eq_refl).
    discriminate.
Defined.

(* ================================================================== *)
(** * Proofs: the exercise catalog *)

(** The resolver is its two lookups, then the insert when both miss. *)
Lemma resolveExerciseCatalogId_phases (w : World) (ptId : nat)
    (exercise : ExerciseInput) (s : St) :
  resolveExerciseCatalogId w ptId exercise s
  = bind (lookup_entry w ptId exercise)
         (fun found =>
            match found with
            | Some id => ret id
            | None =>
                create_entry w ptId (Text.trim (ex_name exercise)) exercise
            end) s.
Proof.
  unfold resolveExerciseCatalogId, lookup_entry, bind.
  destruct (lookup_by_id w ptId exercise s) as [[[id|]|e] s1];
    reflexivity.
Qed.

(** The insert of an entry whose key another entry holds, or that the store
    fails, throws after that one query. *)
Lemma create_entry_conflict (w : World) (ptId : nat) (name : string)
    (exercise : ExerciseInput) (s : St) :
  faults w (clock s) = true
  \/ existsb (Store.same_catalog_key ptId name)
       (exercises_catalog (others w (clock s) (db s))) = true ->
  create_entry w ptId name exercise s
  = (Throw "Failed to create exercise in catalog",
     {| db := others w (clock s) (db s);
        clock := S (clock s);
        console := console s;
        trace := trace s ++ [failed_catalog_insert] |}).
Proof.
  intros H. unfold create_entry, bind, query, Store.insert_catalog.
  destruct (faults w (clock s)); [reflexivity|].
  destruct H as [H|H]; [discriminate|].
  rewrite H. reflexivity.
Qed.

(** C1, as the specification words it, fails: a rival creates "squat"
    between the lookup and the insert of this request for "Squat"; the
    request does not answer the id (0) of the rival's entry, it throws. *)
Lemma resolveExerciseCatalogId_race_throws :
  let out := request (resolveExerciseCatalogId Race.rival 1 Race.squat)
               empty_db in
  map cat_id (exercises_catalog (db (snd out))) = [0%nat]
  /\ fst out <> Ok 0%nat
  /\ fst out = Throw "Failed to create exercise in catalog".
Proof. split; [reflexivity|split; [discriminate|reflexivity]]. Qed.

(** C1 (amended): when both lookups of [resolveExerciseCatalogId] miss and
    the insert fails, be it that the store fails it or that an entry with the
    same [(ptId, lower(name))] exists by then (another writer created it
    after the lookup), the function issues no further query: it throws
    ["Failed to create exercise in catalog"] and leaves the store as the
    insert found it. *)
Theorem resolveExerciseCatalogId_insert_fails (w : World) (ptId : nat)
    (exercise : ExerciseInput) (s s1 : St) :
  lookup_entry w ptId exercise s = (Ok None, s1) ->
  faults w (clock s1) = true
  \/ existsb (Store.same_catalog_key ptId (Text.trim (ex_name exercise)))
       (exercises_catalog (others w (clock s1) (db s1))) = true ->
  resolveExerciseCatalogId w ptId exercise s
  = (Throw "Failed to create exercise in catalog",
     {| db := others w (clock s1) (db s1);
        clock := S (clock s1);
        console := console s1;
        trace := trace s1 ++ [failed_catalog_insert] |}).
Proof.
  intros Hlookup Hfail.
  rewrite resolveExerciseCatalogId_phases. unfold bind at 1.
  rewrite Hlookup. apply create_entry_conflict. exact Hfail.
Qed.

Lemma resolveExerciseCatalogId_insert_fails_witness :
  fst (request (resolveExerciseCatalogId Race.rival 1 Race.squat) empty_db)
  = Throw "Failed to create exercise in catalog".
Proof.
  unfold request.
  rewrite (resolveExerciseCatalogId_insert_fails Race.rival 1 Race.squat
             {| db := empty_db; clock := 0; console := []; trace := [] |}
             (snd (lookup_entry Race.rival 1 Race.squat
                     {| db := empty_db; clock := 0; console := [];
                        trace := [] |}))
             eq_refl (or_intror eq_refl)).
  reflexivity.
Defined.

(** C5 at names that [ILIKE] reads as patterns.  With two squats in the
    catalog, "80% Squat" matches both, so the lookup has no [data] and the
    name is inserted; the second call, for "80% SQUAT", finds three matches,
    tries the insert again and throws on the unique index.  From an empty
    catalog the same happens to a name with a backslash.  With one squat in
    the catalog, "80* Squat" resolves to that other entry both times and no
    entry of that name exists afterwards. *)
Theorem resolveExerciseCatalogId_twice_pattern_name :
  fst (request (Pattern.twice "80% Squat" "80% SQUAT") Pattern.squats)
  = Throw "Failed to create exercise in catalog"
  /\ map cat_name
       (exercises_catalog
          (db (snd (request (Pattern.twice "80% Squat" "80% SQUAT")
                      Pattern.squats))))
     = ["80kg Squat"; "80lb Squat"; "80% Squat"]
  /\ fst (request (Pattern.twice "a\b" "A\B") empty_db)
     = Throw "Failed to create exercise in catalog"
  /\ (let d := {| exercises_catalog := [Pattern.entry 0 "80kg Squat"];
                  routines := []; routine_exercises := [];
                  routine_exercise_sets := []; next_uuid := 1 |} in
      fst (request (Pattern.twice "80* Squat" "80* squat") d)
      = Ok (0%nat, 0%nat)
      /\ exercises_catalog
           (db (snd (request (Pattern.twice "80* Squat" "80* squat") d)))
         = exercises_catalog d).
Proof. repeat split. Qed.

(* ================================================================== *)
(** * Proofs: names that are no patterns *)

Lemma plain_star_to_percent (p : string) :
  Text.plain p = true -> Text.star_to_percent p = p.
Proof.
  induction p as [|c p IH]; simpl; [reflexivity|].
  intros H. apply andb_true_iff in H as [Hc Hp]. rewrite (IH Hp).
  unfold Text.plain_char in Hc. apply negb_true_iff in Hc.
  apply orb_false_iff in Hc as [_ Hc]. rewrite Hc. reflexivity.
Qed.

Lemma plain_lower_char (c : ascii) :
  Text.plain_char c = true -> Text.plain_char (Text.lower_char c) = true.
Proof.
  destruct c as [[] [] [] [] [] [] [] []]; intros H;
    solve [reflexivity | discriminate H].
Qed.

Lemma plain_lower (p : string) :
  Text.plain p = true -> Text.plain (Text.lower p) = true.
Proof.
  induction p as [|c p IH]; simpl; [reflexivity|].
  intros H. apply andb_true_iff in H as [Hc Hp].
  rewrite (plain_lower_char _ Hc), (IH Hp). reflexivity.
Qed.

(** [LIKE] with a pattern of plain characters is equality. *)
Lemma like_plain (p t : string) :
  Text.plain p = true -> Text.like p t = String.eqb p t.
Proof.
  revert t. induction p as [|c p IH]; intros t H.
  - destruct t; reflexivity.
  - simpl in H. apply andb_true_iff in H as [Hc Hp].
    unfold Text.plain_char in Hc. apply negb_true_iff in Hc.
    apply orb_false_iff in Hc as [Hc _].
    apply orb_false_iff in Hc as [Hc H3].
    apply orb_false_iff in Hc as [H1 H2].
    simpl. rewrite H1, H2, H3.
    destruct t as [|d t]; [reflexivity|].
    simpl. rewrite (IH t Hp). reflexivity.
Qed.

Lemma ilike_plain (p t : string) :
  Text.plain p = true ->
  Text.ilike p t = String.eqb (Text.lower t) (Text.lower p).
Proof.
  intros H. unfold Text.ilike.
  rewrite (plain_star_to_percent _ H), like_plain by (apply plain_lower, H).
  apply String.eqb_sym.
Qed.

Lemma select_by_plain_name (pt : nat) (n : string) (l : list CatalogRow) :
  Text.plain n = true ->
  filter (fun r => Nat.eqb (cat_pt_id r) pt && Text.ilike n (cat_name r)) l
  = filter (Store.same_catalog_key pt n) l.
Proof.
  intros H. apply filter_ext. intros r. unfold Store.same_catalog_key.
  rewrite (ilike_plain _ _ H). reflexivity.
Qed.

Lemma same_catalog_key_lower (pt : nat) (n n' : string)
    (l : list CatalogRow) :
  Text.lower n = Text.lower n' ->
  filter (Store.same_catalog_key pt n) l
  = filter (Store.same_catalog_key pt n') l.
Proof.
  intros H. apply filter_ext. intros r. unfold Store.same_catalog_key.
  rewrite H. reflexivity.
Qed.

Lemma existsb_filter_nil {A : Type} (p : A -> bool) (l : list A) :
  filter p l = [] -> existsb p l = false.
Proof.
  induction l as [|x l IH]; simpl; [reflexivity|].
  destruct (p x); [discriminate|exact IH].
Qed.

(** One call of the resolver for a plain name, by name only, in a calm
    world: it answers the one entry with the key of the name, or creates
    it. *)
Lemma resolveExerciseCatalogId_plain (pt : nat) (e : ExerciseInput)
    (s : St) :
  ex_catalogId e = None ->
  Text.plain (Text.trim (ex_name e)) = true ->
  let key := Store.same_catalog_key pt (Text.trim (ex_name e)) in
  match filter key (exercises_catalog (db s)) with
  | [] =>
      exists s',
        resolveExerciseCatalogId calm pt e s = (Ok (next_uuid (db s)), s')
        /\ filter key (exercises_catalog (db s'))
           = [{| cat_id := next_uuid (db s); cat_pt_id := pt;
                 cat_name := Text.trim (ex_name e);
                 cat_instruction_notes := ex_notes e;
                 cat_default_rest_seconds := ex_defaultRestSeconds e |}]
  | [c] =>
      exists s',
        resolveExerciseCatalogId calm pt e s = (Ok (cat_id c), s')
        /\ db s' = db s
  | _ :: _ :: _ => True
  end.
Proof.
  intros Hid Hplain key.
  destruct (filter key (exercises_catalog (db s))) as [|c [|c' l]] eqn:E;
    [| |exact I];
    unfold resolveExerciseCatalogId, lookup_by_id, lookup_by_name, bind, ret,
      query, Store.select_catalog_by_name;
    rewrite Hid; simpl; rewrite (select_by_plain_name _ _ _ Hplain);
    fold key; rewrite E; simpl.
  - unfold create_entry, bind, query, Store.insert_catalog. simpl.
    fold key. rewrite (existsb_filter_nil _ _ E). simpl.
    eexists. split; [reflexivity|]. simpl.
    rewrite filter_app, E. simpl. unfold key at 1, Store.same_catalog_key.
    simpl. rewrite Nat.eqb_refl, String.eqb_refl. reflexivity.
  - eexists. split; reflexivity.
Qed.

(** The resolver run for two names of plain characters that differ by
    letter case and outer white space only, on a catalog that holds at most
    one entry with their key: both calls answer the same id, and the catalog
    then holds exactly one entry with that key, the one with that id. *)
Lemma resolveExerciseCatalogId_plain_twice (pt : nat)
    (e1 e2 : ExerciseInput) (d : Db) :
  ex_catalogId e1 = None -> ex_catalogId e2 = None ->
  Text.plain (Text.trim (ex_name e1)) = true ->
  Text.plain (Text.trim (ex_name e2)) = true ->
  Text.lower (Text.trim (ex_name e1)) = Text.lower (Text.trim (ex_name e2)) ->
  (length (filter (Store.same_catalog_key pt (Text.trim (ex_name e1)))
             (exercises_catalog d)) <= 1)%nat ->
  exists id s,
    request (id1 <- resolveExerciseCatalogId calm pt e1 ;;
             id2 <- resolveExerciseCatalogId calm pt e2 ;;
             ret (id1, id2)) d
    = (Ok (id, id), s)
    /\ map cat_id
         (filter (Store.same_catalog_key pt (Text.trim (ex_name e1)))
            (exercises_catalog (db s)))
       = [id].
Proof.
  intros H1 H2 P1 P2 Hlow Huniq. unfold request, bind at 1.
  set (s0 := {| db := d; clock := 0; console := []; trace := [] |}).
  set (key := Store.same_catalog_key pt (Text.trim (ex_name e1))) in *.
  pose proof (resolveExerciseCatalogId_plain pt e1 s0 H1 P1) as C1.
  cbv zeta in C1. fold key in C1. change (db s0) with d in C1.
  destruct (filter key (exercises_catalog d)) as [|c [|c' l]] eqn:E;
    [| |simpl in Huniq; lia].
  - destruct C1 as (s1 & -> & E1).
    pose proof (resolveExerciseCatalogId_plain pt e2 s1 H2 P2) as C2.
    cbv zeta in C2.
    rewrite <- (same_catalog_key_lower pt _ _ _ Hlow) in C2.
    fold key in C2. rewrite E1 in C2.
    destruct C2 as (s2 & R2 & D2). unfold bind. rewrite R2.
    eexists _, _. split; [reflexivity|]. rewrite D2, E1. reflexivity.
  - destruct C1 as (s1 & -> & D1).
    pose proof (resolveExerciseCatalogId_plain pt e2 s1 H2 P2) as C2.
    cbv zeta in C2.
    rewrite <- (same_catalog_key_lower pt _ _ _ Hlow) in C2.
    fold key in C2. rewrite D1 in C2. change (db s0) with d in C2.
    rewrite E in C2.
    destruct C2 as (s2 & R2 & D2). unfold bind. rewrite R2.
    eexists _, _. split; [reflexivity|]. rewrite D2, E. reflexivity.
Qed.

(* ================================================================== *)
(** * Proofs: what a query does to the state of a request *)

Ltac inv H := inversion H; subst; clear H.

(** Case analysis on the first test of an [if] in [H]. *)
Ltac split_if H :=
  match type of H with
  | context [if ?c then _ else _] => destruct c
  end.

Lemma after_refl (s : St) : after s s [] [].
Proof. split; rewrite app_nil_r; reflexivity. Qed.

Lemma after_trans (s s1 s2 : St) (tr1 tr2 : list Op)
    (out1 out2 : list string) :
  after s s1 tr1 out1 -> after s1 s2 tr2 out2 ->
  after s s2 (tr1 ++ tr2) (out1 ++ out2).
Proof.
  intros [Ht1 Hc1] [Ht2 Hc2]. split.
  - rewrite Ht2, Ht1, app_assoc. reflexivity.
  - rewrite Hc2, Hc1, app_assoc. reflexivity.
Qed.

Lemma failures_app (t : Table) (v : Verb) (a b : list Op) :
  failures t v (a ++ b) = (failures t v a + failures t v b)%nat.
Proof. unfold failures. rewrite filter_app, length_app. reflexivity. Qed.

Lemma table_failures_app (t : Table) (a b : list Op) :
  table_failures t (a ++ b) = (table_failures t a + table_failures t b)%nat.
Proof. unfold table_failures. rewrite filter_app, length_app. reflexivity. Qed.

Lemma messages_app (m : string) (a b : list string) :
  messages m (a ++ b) = (messages m a + messages m b)%nat.
Proof. unfold messages. rewrite filter_app, length_app. reflexivity. Qed.

(** A query answers, advances the clock and leaves one record; the store
    fails it or runs it on what the other writers left. *)
Lemma query_cases {A : Type} (w : World) (t : Table) (v : Verb)
    (q : Db -> Reply A * Db) (s s' : St) (r : Res (Reply A)) :
  query w t v q s = (r, s') ->
  exists reply d',
    r = Ok reply
    /\ s' = {| db := d'; clock := S (clock s); console := console s;
               trace := trace s ++ [op t v (is_some (error reply))] |}
    /\ ((faults w (clock s) = true /\ reply = failed failure
         /\ d' = others w (clock s) (db s))
        \/ (faults w (clock s) = false
            /\ q (others w (clock s) (db s)) = (reply, d'))).
Proof.
  unfold query. intros H.
  destruct (faults w (clock s)).
  - inv H. eexists _, _. split; [reflexivity|]. split; [reflexivity|].
    left. repeat split.
  - destruct (q (others w (clock s) (db s))) as [reply d'] eqn:E.
    inv H. eexists _, _. split; [reflexivity|]. split; [reflexivity|].
    right. split; reflexivity.
Qed.

Lemma maybeSingle_found {A : Type} (rows : list A) (x : A) :
  data (maybeSingle rows) = Some x -> rows = [x].
Proof.
  destruct rows as [|y [|z rows]]; simpl; try discriminate.
  intros [= ->]. reflexivity.
Qed.

Lemma catalog_select_found (p : CatalogRow -> bool) (l : list CatalogRow)
    (id : nat) :
  data (maybeSingle (map cat_id (filter p l))) = Some id ->
  exists c, In c l /\ p c = true /\ cat_id c = id.
Proof.
  intros H. apply maybeSingle_found in H.
  destruct (filter p l) as [|c rest] eqn:E; [discriminate|].
  simpl in H. inv H.
  assert (Hin : In c (filter p l)) by (rewrite E; left; reflexivity).
  apply filter_In in Hin as [Hin Hp]. exists c. auto.
Qed.

Lemma catalog_grows_refl (d : Db) : catalog_grows d d.
Proof. repeat split; auto. Qed.

Lemma catalog_grows_trans (d1 d2 d3 : Db) :
  catalog_grows d1 d2 -> catalog_grows d2 d3 -> catalog_grows d1 d3.
Proof.
  intros (A1 & B1 & C1 & D1 & E1) (A2 & B2 & C2 & D2 & E2).
  repeat split; try congruence; [lia|auto].
Qed.

Lemma resolves_to_grows (d d' : Db) (pt : nat) (ex : ExerciseInput)
    (id : nat) :
  (forall c, In c (exercises_catalog d) -> In c (exercises_catalog d')) ->
  resolves_to d pt ex id -> resolves_to d' pt ex id.
Proof. intros Hg (c & Hc & H). exists c. split; [apply Hg|]; assumption. Qed.

Lemma lookup_by_id_effect (w : World) (pt : nat) (ex : ExerciseInput)
    (s s' : St) (r : Res (option nat)) :
  lookup_by_id w pt ex s = (r, s') ->
  exists o tr,
    r = Ok o /\ after s s' tr [] /\ selects tr
    /\ (quiet w ->
        db s' = db s
        /\ forall id, o = Some id -> resolves_to (db s) pt ex id).
Proof.
  unfold lookup_by_id. intros H.
  destruct (ex_catalogId ex) as [cid|] eqn:Ecid.
  - unfold bind in H.
    destruct (query w _ _ _ s) as [r1 s1] eqn:Q.
    apply query_cases in Q as (reply & d' & -> & -> & Hcase).
    assert (Hafter : forall b, after s
              {| db := d'; clock := S (clock s); console := console s;
                 trace := trace s ++ [op t_exercises_catalog v_select b] |}
              [op t_exercises_catalog v_select b] []).
    { intros b. split; simpl; [reflexivity|rewrite app_nil_r; reflexivity]. }
    assert (Hsel : forall b, selects [op t_exercises_catalog v_select b]).
    { intros b. constructor; [split; reflexivity|constructor]. }
    assert (Hdb : quiet w -> d' = db s).
    { intros Hq. destruct Hcase as [(_ & _ & ->)|(_ & Hrun)].
      - apply Hq.
      - rewrite Hq in Hrun. unfold Store.select_catalog_by_id in Hrun.
        inv Hrun. reflexivity. }
    destruct (error reply) eqn:Ee; [|destruct (data reply) as [id|] eqn:Ed];
      unfold ret in H; inv H; eexists _, _;
      (split; [reflexivity|]); (split; [apply Hafter|]);
      (split; [apply Hsel|]); intros Hq; simpl;
      (split; [apply Hdb; assumption|]); intros id' Hid; try discriminate.
    inv Hid.
    destruct Hcase as [(_ & -> & _)|(_ & Hrun)]; [discriminate|].
    rewrite Hq in Hrun. unfold Store.select_catalog_by_id in Hrun.
    inv Hrun. apply catalog_select_found in Ed as (c & Hc & Hp & Hid).
    apply andb_true_iff in Hp as [Hp1 Hp2].
    apply Nat.eqb_eq in Hp1. apply Nat.eqb_eq in Hp2.
    exists c. repeat split; auto. left. congruence.
  - unfold ret in H. inv H. exists None, []. split; [reflexivity|].
    split; [apply after_refl|]. split; [constructor|].
    intros _. split; [reflexivity|discriminate].
Qed.

Lemma lookup_by_name_effect (w : World) (pt : nat) (ex : ExerciseInput)
    (s s' : St) (r : Res (option nat)) :
  lookup_by_name w pt (Text.trim (ex_name ex)) s = (r, s') ->
  exists o tr out,
    r = Ok o /\ after s s' tr out /\ selects tr
    /\ Forall (eq "Lookup exercise error") out
    /\ (quiet w ->
        db s' = db s
        /\ forall id, o = Some id -> resolves_to (db s) pt ex id).
Proof.
  unfold lookup_by_name, bind. intros H.
  destruct (query w _ _ _ s) as [r1 s1] eqn:Q.
  apply query_cases in Q as (reply & d' & -> & -> & Hcase).
  assert (Hsel : forall b, selects [op t_exercises_catalog v_select b]).
  { intros b. constructor; [split; reflexivity|constructor]. }
  assert (Hdb : quiet w -> d' = db s).
  { intros Hq. destruct Hcase as [(_ & _ & ->)|(_ & Hrun)].
    - apply Hq.
    - rewrite Hq in Hrun. unfold Store.select_catalog_by_name in Hrun.
      inv Hrun. reflexivity. }
  assert (Hres : quiet w -> forall id, data reply = Some id ->
                                       resolves_to (db s) pt ex id).
  { intros Hq id Ed.
    destruct Hcase as [(_ & -> & _)|(_ & Hrun)]; [discriminate|].
    rewrite Hq in Hrun. unfold Store.select_catalog_by_name in Hrun.
    inv Hrun. apply catalog_select_found in Ed as (c & Hc & Hp & Hid).
    apply andb_true_iff in Hp as [Hp1 Hp2]. apply Nat.eqb_eq in Hp1.
    exists c. repeat split; auto. }
  set (tr := [op t_exercises_catalog v_select (is_some (error reply))]) in *.
  assert (Hquiet : forall o (s2 : St),
             o = data reply -> db s2 = d' ->
             quiet w ->
             db s2 = db s
             /\ forall id, o = Some id -> resolves_to (db s) pt ex id).
  { intros o s2 -> Hd Hq. split; [rewrite Hd; apply Hdb; assumption|].
    apply Hres. assumption. }
  destruct (error reply) as [[| | |]|] eqn:Ee;
    unfold ret, console_error in H; simpl in H; inv H.
  - exists (data reply), tr, []. split; [reflexivity|].
    split; [split; simpl; [reflexivity|rewrite app_nil_r; reflexivity]|].
    split; [apply Hsel|]. split; [constructor|].
    apply Hquiet; reflexivity.
  - exists (data reply), tr, ["Lookup exercise error"]. split; [reflexivity|].
    split; [split; reflexivity|].
    split; [apply Hsel|]. split; [constructor; [reflexivity|constructor]|].
    apply Hquiet; reflexivity.
  - exists (data reply), tr, ["Lookup exercise error"]. split; [reflexivity|].
    split; [split; reflexivity|].
    split; [apply Hsel|]. split; [constructor; [reflexivity|constructor]|].
    apply Hquiet; reflexivity.
  - exists (data reply), tr, ["Lookup exercise error"]. split; [reflexivity|].
    split; [split; reflexivity|].
    split; [apply Hsel|]. split; [constructor; [reflexivity|constructor]|].
    apply Hquiet; reflexivity.
  - exists (data reply), tr, []. split; [reflexivity|].
    split; [split; simpl; [reflexivity|rewrite app_nil_r; reflexivity]|].
    split; [apply Hsel|]. split; [constructor|].
    apply Hquiet; reflexivity.
Qed.

Lemma selects_on_catalog (tr : list Op) : selects tr -> on_catalog tr.
Proof. apply Forall_impl. intros o [H _]. exact H. Qed.

Lemma selects_no_failed_insert (t : Table) (tr : list Op) :
  selects tr -> failures t v_insert tr = 0%nat.
Proof.
  unfold failures. induction 1 as [|o tr [_ Hv] _ IH]; [reflexivity|].
  simpl. rewrite Hv. simpl. rewrite andb_false_r. exact IH.
Qed.

Lemma on_catalog_failures (t : Table) (v : Verb) (tr : list Op) :
  on_catalog tr -> t <> t_exercises_catalog -> failures t v tr = 0%nat.
Proof.
  unfold failures. intros H Ht. induction H as [|o tr Ho _ IH]; [reflexivity|].
  simpl. rewrite Ho.
  destruct t; try contradiction; simpl; rewrite andb_false_r; exact IH.
Qed.

Lemma on_catalog_table_failures (t : Table) (tr : list Op) :
  on_catalog tr -> t <> t_exercises_catalog -> table_failures t tr = 0%nat.
Proof.
  unfold table_failures. intros H Ht.
  induction H as [|o tr Ho _ IH]; [reflexivity|].
  simpl. rewrite Ho.
  destruct t; try contradiction; simpl; rewrite andb_false_r; exact IH.
Qed.

Lemma lookup_messages (m : string) (out : list string) :
  Forall (eq "Lookup exercise error") out ->
  m <> "Lookup exercise error" -> messages m out = 0%nat.
Proof.
  unfold messages. intros H Hm. induction H as [|x out Hx _ IH]; [reflexivity|].
  simpl. subst x. destruct (String.eqb_spec m "Lookup exercise error");
    [contradiction|exact IH].
Qed.

Lemma create_entry_effect (w : World) (pt : nat) (ex : ExerciseInput)
    (s s' : St) (r : Res nat) :
  create_entry w pt (Text.trim (ex_name ex)) ex s = (r, s') ->
  exists b,
    after s s' [op t_exercises_catalog v_insert b] []
    /\ match r with
       | Ok _ => b = false
       | Throw m => m = "Failed to create exercise in catalog" /\ b = true
       end
    /\ (quiet w ->
        catalog_grows (db s) (db s')
        /\ match r with
           | Ok id => resolves_to (db s') pt ex id
           | Throw _ => True
           end).
Proof.
  unfold create_entry, bind. intros H.
  destruct (query w _ _ _ s) as [r1 s1] eqn:Q.
  apply query_cases in Q as (reply & d' & -> & -> & Hcase).
  exists (is_some (error reply)).
  assert (Hafter : forall r0,
             after s
               {| db := d'; clock := S (clock s); console := console s;
                  trace := trace s
                           ++ [op t_exercises_catalog v_insert r0] |}
               [op t_exercises_catalog v_insert r0] []).
  { intros r0. split; simpl; [reflexivity|rewrite app_nil_r; reflexivity]. }
  destruct Hcase as [(_ & -> & ->)|(_ & Hrun)].
  - simpl in H. unfold throw in H. inv H.
    split; [apply Hafter|]. split; [split; reflexivity|].
    intros Hq. simpl. rewrite Hq. split; [apply catalog_grows_refl|exact I].
  - unfold Store.insert_catalog in Hrun.
    destruct (existsb _ _) eqn:Ex; inv Hrun; simpl in H;
      unfold throw, ret in H; inv H;
      (split; [apply Hafter|]); simpl.
    + split; [split; reflexivity|].
      intros Hq. rewrite Hq. split; [apply catalog_grows_refl|exact I].
    + split; [reflexivity|].
      intros Hq. rewrite Hq. split.
      * repeat split; simpl; auto.
        intros c Hc. apply in_or_app. left. assumption.
      * eexists. split; [apply in_or_app; right; left; reflexivity|].
        simpl. repeat split. right. right. reflexivity.
Qed.

(** What one call of the resolver leaves: queries on the catalog only, at
    most lookup errors on the console, one failed insert exactly when it
    throws. *)
Lemma resolveExerciseCatalogId_effect (w : World) (pt : nat)
    (ex : ExerciseInput) (s s' : St) (r : Res nat) :
  resolveExerciseCatalogId w pt ex s = (r, s') ->
  exists tr out,
    after s s' tr out
    /\ on_catalog tr
    /\ Forall (eq "Lookup exercise error") out
    /\ match r with
       | Ok _ => failures t_exercises_catalog v_insert tr = 0%nat
       | Throw m => m = "Failed to create exercise in catalog"
                    /\ failures t_exercises_catalog v_insert tr = 1%nat
       end
    /\ (quiet w ->
        catalog_grows (db s) (db s')
        /\ match r with
           | Ok id => resolves_to (db s') pt ex id
           | Throw _ => True
           end).
Proof.
  unfold resolveExerciseCatalogId, bind. intros H.
  destruct (lookup_by_id w pt ex s) as [r1 s1] eqn:L1.
  apply lookup_by_id_effect in L1 as (o1 & tr1 & -> & Ha1 & Hs1 & Hq1).
  destruct o1 as [id|].
  - unfold ret in H. inv H. exists tr1, []. split; [assumption|].
    split; [apply selects_on_catalog; assumption|]. split; [constructor|].
    split; [apply selects_no_failed_insert; assumption|].
    intros Hq. destruct (Hq1 Hq) as [Hdb Hres].
    rewrite Hdb. split; [apply catalog_grows_refl|]. apply Hres. reflexivity.
  - destruct (lookup_by_name w pt (Text.trim (ex_name ex)) s1)
      as [r2 s2] eqn:L2.
    apply lookup_by_name_effect in L2
      as (o2 & tr2 & out2 & -> & Ha2 & Hs2 & Hout2 & Hq2).
    pose proof (after_trans _ _ _ _ _ _ _ Ha1 Ha2) as Ha12.
    assert (Hs12 : selects (tr1 ++ tr2)) by (apply Forall_app; split; auto).
    destruct o2 as [id|].
    + unfold ret in H. inv H. exists (tr1 ++ tr2), ([] ++ out2).
      split; [assumption|].
      split; [apply selects_on_catalog; assumption|].
      split; [assumption|].
      split; [apply selects_no_failed_insert; assumption|].
      intros Hq. destruct (Hq1 Hq) as [Hdb1 _].
      destruct (Hq2 Hq) as [Hdb2 Hres].
      rewrite Hdb2, Hdb1 in *. split; [apply catalog_grows_refl|].
      apply Hres. reflexivity.
    + apply create_entry_effect in H as (b & Ha3 & Hr & Hq3).
      pose proof (after_trans _ _ _ _ _ _ _ Ha12 Ha3) as Ha.
      exists ((tr1 ++ tr2) ++ [op t_exercises_catalog v_insert b]),
        (([] ++ out2) ++ []).
      split; [assumption|].
      split.
      { apply Forall_app. split; [apply selects_on_catalog; assumption|].
        constructor; [reflexivity|constructor]. }
      split; [rewrite app_nil_r; assumption|].
      split.
      { rewrite failures_app, (selects_no_failed_insert _ _ Hs12).
        destruct r as [id|m].
        - subst b. reflexivity.
        - destruct Hr as [-> ->]. split; reflexivity. }
      intros Hq. destruct (Hq1 Hq) as [Hdb1 _].
      destruct (Hq2 Hq) as [Hdb2 _]. destruct (Hq3 Hq) as [Hg Hres].
      rewrite Hdb2, Hdb1 in Hg. split; assumption.
Qed.

Lemma insert_exercise_sets_effect (w : World) (re : nat)
    (sets : list SetInput) (s s' : St) (r : Res unit) :
  insert_exercise_sets w re sets s = (r, s') ->
  r = Ok tt
  /\ exists (b : bool) (out : list string),
       after s s' (if b then [op t_routine_exercise_sets v_insert
                                (negb (Nat.eqb (length out) 0))]
                   else []) out
       /\ Forall (eq "Failed to insert routine sets") out
       /\ (length out <= 1)%nat
       /\ (b = false -> out = [])
       /\ (quiet w ->
           rest_kept (db s) (db s')
           /\ routine_exercises (db s') = routine_exercises (db s)).
Proof.
  unfold insert_exercise_sets. intros H.
  destruct sets as [|set sets].
  - unfold ret in H. inv H. split; [reflexivity|].
    exists false, []. split; [apply after_refl|]. split; [constructor|].
    split; [simpl; lia|]. split; [reflexivity|].
    intros _. repeat split; auto.
  - unfold bind in H.
    destruct (query w _ _ _ s) as [r1 s1] eqn:Q.
    apply query_cases in Q as (reply & d' & -> & -> & Hcase).
    assert (Hdb : quiet w ->
                  rest_kept (db s) d'
                  /\ routine_exercises d' = routine_exercises (db s)).
    { intros Hq. destruct Hcase as [(_ & _ & ->)|(_ & Hrun)].
      - rewrite Hq. repeat split; auto.
      - rewrite Hq in Hrun. unfold Store.insert_sets in Hrun.
        split_if Hrun; [inv Hrun; repeat split; auto|].
        split_if Hrun; inv Hrun; repeat split; simpl; auto. lia. }
    destruct (error reply) as [e|] eqn:Ee;
      unfold console_error, ret in H; simpl in H; inv H;
      (split; [reflexivity|]).
    + exists true, ["Failed to insert routine sets"].
      split; [split; reflexivity|].
      split; [constructor; [reflexivity|constructor]|].
      split; [simpl; lia|]. split; [discriminate|]. exact Hdb.
    + exists true, [].
      split; [split; simpl; [reflexivity|rewrite app_nil_r; reflexivity]|].
      split; [constructor|]. split; [simpl; lia|].
      split; [reflexivity|]. exact Hdb.
Qed.

(** The insert of the row of one exercise: a new row at the end of the
    table, or an error and the store as it was. *)
Lemma insert_routine_exercise_cases (w : World)
    (rid exId pos : nat) (notes : option string) (s s1 : St)
    (r : Res (Reply nat)) :
  query w t_routine_exercises v_insert
    (Store.insert_routine_exercise rid exId pos notes) s = (r, s1) ->
  exists reply,
    r = Ok reply
    /\ after s s1 [op t_routine_exercises v_insert (is_some (error reply))] []
    /\ ((error reply = None
         /\ exists id,
              data reply = Some id
              /\ (quiet w ->
                  id = next_uuid (db s)
                  /\ exercises_catalog (db s1) = exercises_catalog (db s)
                  /\ routines (db s1) = routines (db s)
                  /\ next_uuid (db s1) = S (next_uuid (db s))
                  /\ routine_exercises (db s1)
                     = routine_exercises (db s)
                       ++ [{| re_id := id; re_routine_id := rid;
                              re_exercise_id := exId; re_position := pos;
                              re_notes := notes |}]))
        \/ ((exists e, error reply = Some e)
            /\ (quiet w -> db s1 = db s))).
Proof.
  intros Q. apply query_cases in Q as (reply & d' & -> & -> & Hcase).
  exists reply. split; [reflexivity|].
  split; [split; simpl; [reflexivity|rewrite app_nil_r; reflexivity]|].
  destruct Hcase as [(_ & -> & ->)|(_ & Hrun)].
  - right. split; [eexists; reflexivity|]. intros Hq. apply Hq.
  - unfold Store.insert_routine_exercise in Hrun.
    split_if Hrun; inv Hrun.
    + left. split; [reflexivity|]. eexists. split; [reflexivity|].
      intros Hq. simpl. rewrite Hq. repeat split.
    + right. split; [eexists; reflexivity|]. intros Hq. apply Hq.
Qed.

(* ================================================================== *)
(** * Proofs: the console and the trace of the loop of [upsertRoutine] *)

Lemma accounted_app (tr1 tr2 : list Op) (out1 out2 : list string) :
  accounted tr1 out1 -> accounted tr2 out2 ->
  accounted (tr1 ++ tr2) (out1 ++ out2).
Proof.
  intros (A1 & B1 & C1 & D1) (A2 & B2 & C2 & D2). unfold accounted.
  rewrite !messages_app, !failures_app, !table_failures_app. lia.
Qed.

Lemma accounted_catalog (tr : list Op) (out : list string) :
  on_catalog tr -> Forall (eq "Lookup exercise error") out ->
  accounted tr out.
Proof.
  intros Htr Hout. unfold accounted.
  rewrite !lookup_messages by (assumption || discriminate).
  rewrite !on_catalog_failures by (assumption || discriminate).
  rewrite !on_catalog_table_failures by (assumption || discriminate).
  repeat split.
Qed.

Lemma accounted_sets (b : bool) (out : list string) :
  Forall (eq "Failed to insert routine sets") out ->
  (length out <= 1)%nat -> (b = false -> out = []) ->
  let tr := if b then [op t_routine_exercise_sets v_insert
                         (negb (Nat.eqb (length out) 0))]
            else [] in
  accounted tr out /\ failures t_exercises_catalog v_insert tr = 0%nat.
Proof.
  intros Hout Hlen Hb.
  destruct out as [|m [|m' out]]; [| |simpl in Hlen; lia].
  - destruct b; repeat split.
  - inv Hout. destruct b; [repeat split|].
    specialize (Hb eq_refl). discriminate.
Qed.

Lemma insert_exercises_account (w : World) (pt rid : nat)
    (exs : list ExerciseInput) :
  forall (pos : nat) (s s' : St) (r : Res unit),
    insert_exercises w pt rid exs pos s = (r, s') ->
    exists tr out,
      after s s' tr out
      /\ accounted tr out
      /\ match r with
         | Ok _ => failures t_exercises_catalog v_insert tr = 0%nat
         | Throw m => m = "Failed to create exercise in catalog"
                      /\ failures t_exercises_catalog v_insert tr = 1%nat
         end.
Proof.
  induction exs as [|ex rest IH]; intros pos s s' r H.
  - simpl in H. unfold ret in H. inv H. exists [], [].
    split; [apply after_refl|]. split; [repeat split|reflexivity].
  - simpl in H. unfold bind at 1 in H.
    destruct (resolveExerciseCatalogId w pt ex s) as [r1 s1] eqn:R1.
    apply resolveExerciseCatalogId_effect in R1
      as (tr1 & out1 & Ha1 & Hcat1 & Hout1 & Hr1 & _).
    pose proof (accounted_catalog _ _ Hcat1 Hout1) as Hacc1.
    destruct r1 as [exId|m].
    + unfold bind at 1 in H.
      destruct (query w _ _ _ s1) as [r2 s2] eqn:Q.
      apply insert_routine_exercise_cases in Q
        as (reply & -> & Ha2 & [(Ee & id & Ed & _)|((e & Ee) & _)]).
      * rewrite Ee, Ed in H. simpl in Ha2. rewrite Ee in Ha2. simpl in Ha2.
        unfold bind at 1 in H.
        destruct (insert_exercise_sets w id (ex_sets ex) s2)
          as [r3 s3] eqn:S3.
        apply insert_exercise_sets_effect in S3
          as (-> & b & out3 & Ha3 & Hout3 & Hlen3 & Hb3 & _).
        destruct (accounted_sets b out3 Hout3 Hlen3 Hb3) as [Hacc3 Hc3].
        apply IH in H as (tr4 & out4 & Ha4 & Hacc4 & Hr4).
        eexists _, _. split.
        { eapply after_trans; [|exact Ha4].
          eapply after_trans; [|exact Ha3].
          eapply after_trans; [exact Ha1|exact Ha2]. }
        split.
        { apply accounted_app; [|assumption].
          apply accounted_app; [|assumption].
          apply accounted_app; [assumption|]. repeat split. }
        rewrite !failures_app, Hr1, Hc3. simpl.
        destruct r; [assumption|]. destruct Hr4 as [-> ->]. split; reflexivity.
      * rewrite Ee in H. simpl in Ha2. rewrite Ee in Ha2. simpl in Ha2.
        assert (H' : insert_exercises w pt rid rest pos
                       {| db := db s2; clock := clock s2;
                          console := console s2
                                     ++ ["Failed to insert routine exercise"];
                          trace := trace s2 |} = (r, s')).
        { destruct (data reply); exact H. }
        clear H.
        apply IH in H' as (tr4 & out4 & Ha4 & Hacc4 & Hr4).
        assert (Hlog : after s2
                         {| db := db s2; clock := clock s2;
                            console := console s2
                                       ++ ["Failed to insert routine exercise"];
                            trace := trace s2 |}
                         [] ["Failed to insert routine exercise"]).
        { split; simpl; [rewrite app_nil_r|]; reflexivity. }
        eexists _, _. split.
        { eapply after_trans; [|exact Ha4].
          eapply after_trans; [|exact Hlog].
          eapply after_trans; [exact Ha1|exact Ha2]. }
        split.
        { apply accounted_app; [|assumption].
          replace (((tr1 ++ [op t_routine_exercises v_insert true]) ++ []))
            with (tr1 ++ [op t_routine_exercises v_insert true])
            by (rewrite app_nil_r; reflexivity).
          replace ((out1 ++ []) ++ ["Failed to insert routine exercise"])
            with (out1 ++ ["Failed to insert routine exercise"])
            by (rewrite app_nil_r; reflexivity).
          apply accounted_app; [assumption|]. repeat split. }
        rewrite !failures_app, Hr1. simpl.
        destruct r; [assumption|]. destruct Hr4 as [-> ->]. split; reflexivity.
    + inv H. destruct Hr1 as [-> Hr1]. exists tr1, out1.
      split; [assumption|]. split; [assumption|]. split; [reflexivity|].
      assumption.
Qed.

(* ================================================================== *)
(** * Proofs: failures in [upsertRoutine] *)

Lemma upsertRoutine_unfold (w : World) (params : RoutineParams) (s : St) :
  upsertRoutine w params s
  = match write_routine w params s with
    | (Ok routineId, s1) =>
        match insert_exercises w (p_ptId params) routineId
                (p_exercises params) 0 s1 with
        | (Ok _, s') => (Ok routineId, s')
        | (Throw e, s') => (Throw e, s')
        end
    | (Throw e, s1) => (Throw e, s1)
    end.
Proof. reflexivity. Qed.

(** The write of the routine row: one query when it fails; when it
    succeeds the id of the routine, an empty console, and for an update the
    delete of the old exercise rows, whose outcome the code does not read. *)
Lemma write_routine_cases (w : World) (params : RoutineParams) (d : Db) :
  let s0 := {| db := d; clock := 0; console := []; trace := [] |} in
  (faults w 0 = true ->
   exists line,
     write_routine w params s0
     = (Throw (match p_routineId params with
               | None => "Routine creation failed"
               | Some _ => "Routine update failed"
               end),
        {| db := others w 0 d; clock := 1; console := [line];
           trace := [op t_routines
                       (match p_routineId params with
                        | None => v_insert
                        | Some _ => v_update
                        end) true] |}))
  /\ (faults w 0 = false ->
      exists s1,
        write_routine w params s0
        = (Ok (match p_routineId params with
               | Some id => id
               | None => next_uuid (others w 0 d)
               end), s1)
        /\ console s1 = []
        /\ exists v rest,
             trace s1 = op t_routines v false :: rest
             /\ (rest = []
                 \/ exists b, rest = [op t_routine_exercises v_delete b])).
Proof.
  intros s0. unfold write_routine, bind, query. subst s0.
  destruct (p_routineId params) as [rid|]; simpl;
    destruct (faults w 0); simpl.
  - split; [intros _; eexists; reflexivity|discriminate].
  - split; [discriminate|intros _].
    destruct (faults w 1); simpl; eexists; (split; [reflexivity|]);
      (split; [reflexivity|]); eexists _, _; (split; [reflexivity|]);
      right; eexists; reflexivity.
  - split; [intros _; eexists; reflexivity|discriminate].
  - split; [discriminate|intros _].
    eexists. split; [reflexivity|]. split; [reflexivity|].
    eexists _, _. split; [reflexivity|]. left. reflexivity.
Qed.



(* ================================================================== *)
(** * Proofs: the rows [upsertRoutine] leaves *)

Lemma row_of_exercise_weaken (d d' : Db) (pt rid first first' : nat)
    (ix : nat * ExerciseInput) (row : RoutineExerciseRow) :
  (forall c, In c (exercises_catalog d) -> In c (exercises_catalog d')) ->
  (first' <= first)%nat ->
  row_of_exercise d pt rid first ix row ->
  row_of_exercise d' pt rid first' ix row.
Proof.
  intros Hg Hle (A & B & C & D & E). repeat split; auto.
  - eapply resolves_to_grows; eassumption.
  - lia.
Qed.

(** The rows the loop appends, with no other writer: they are rows of the
    routine with fresh ids and consecutive positions from [pos] on; when the
    loop ends without a failed insert of a row, they are the rows of the
    exercises of the request, one for one. *)
Lemma insert_exercises_rows (w : World) (pt rid : nat)
    (exs : list ExerciseInput) :
  quiet w ->
  forall (pos : nat) (s s' : St) (r : Res unit),
    insert_exercises w pt rid exs pos s = (r, s') ->
    exists new,
      routine_exercises (db s') = routine_exercises (db s) ++ new
      /\ routines (db s') = routines (db s)
      /\ (next_uuid (db s) <= next_uuid (db s'))%nat
      /\ (forall c, In c (exercises_catalog (db s)) ->
                    In c (exercises_catalog (db s')))
      /\ Forall (fun row => re_routine_id row = rid
                            /\ (next_uuid (db s) <= re_id row)%nat) new
      /\ map re_position new = seq pos (length new)
      /\ (r = Ok tt ->
          failures t_routine_exercises v_insert (trace s')
          = failures t_routine_exercises v_insert (trace s) ->
          Forall2 (row_of_exercise (db s') pt rid (next_uuid (db s)))
                  (indexed pos exs) new).
Proof.
  intros Hq. induction exs as [|ex rest IH]; intros pos s s' r H.
  - simpl in H. unfold ret in H. inv H. exists [].
    rewrite app_nil_r. repeat split; auto; try constructor.
  - simpl in H. unfold bind at 1 in H.
    destruct (resolveExerciseCatalogId w pt ex s) as [r1 s1] eqn:R1.
    apply resolveExerciseCatalogId_effect in R1
      as (tr1 & out1 & [Ht1 _] & Hcat1 & _ & _ & Hq1).
    destruct (Hq1 Hq) as [(G1 & G2 & _ & G4 & G5) Hres]. clear Hq1.
    pose proof (on_catalog_failures t_routine_exercises v_insert tr1 Hcat1
                  ltac:(discriminate)) as Hf1.
    destruct r1 as [exId|m].
    + unfold bind at 1 in H.
      destruct (query w _ _ _ s1) as [r2 s2] eqn:Q.
      apply insert_routine_exercise_cases in Q
        as (reply & -> & [Ht2 _] & [(Ee & id & Ed & Hins)|((e & Ee) & Hsame)]).
      * rewrite Ee, Ed in H. rewrite Ee in Ht2. simpl in Ht2.
        destruct (Hins Hq) as (-> & I1 & I2 & I3 & I4). clear Hins.
        unfold bind at 1 in H.
        destruct (insert_exercise_sets w _ (ex_sets ex) s2) as [r3 s3] eqn:S3.
        apply insert_exercise_sets_effect in S3
          as (-> & b & out3 & [Ht3 _] & Hout3 & Hlen3 & Hb3 & Hq3).
        destruct (Hq3 Hq) as [(K1 & K2 & K3) K4]. clear Hq3.
        destruct (accounted_sets b out3 Hout3 Hlen3 Hb3)
          as [(_ & _ & _ & Hf3) _].
        pose proof H as Hacc. apply insert_exercises_account in Hacc
          as (tr4 & out4 & [Ht4 _] & _ & _).
        destruct (IH _ _ _ _ H)
          as (new & J1 & J2 & J3 & J4 & J5 & J6 & J7).
        exists ({| re_id := next_uuid (db s1); re_routine_id := rid;
                   re_exercise_id := exId; re_position := pos;
                   re_notes := ex_notes ex |} :: new).
        split; [rewrite J1, K4, I4, G2, <- app_assoc; reflexivity|].
        split; [congruence|]. split; [lia|].
        split; [intros c Hc; apply J4; rewrite K1, I1; apply G5, Hc|].
        split.
        { constructor; [simpl; split; [reflexivity|lia]|].
          eapply Forall_impl; [|exact J5]. simpl. intros row [? ?].
          split; [assumption|lia]. }
        split; [simpl; rewrite J6; reflexivity|].
        intros Hr Hfail.
        assert (Hzero : failures t_routine_exercises v_insert tr4 = 0%nat).
        { rewrite Ht4, Ht3, Ht2, Ht1, !failures_app, Hf1 in Hfail.
          unfold table_failures in Hf3.
          assert (failures t_routine_exercises v_insert
                    (if b then [op t_routine_exercise_sets v_insert
                                  (negb (Nat.eqb (length out3) 0))]
                     else []) = 0%nat)
            by (destruct b; [unfold failures; simpl;
                             rewrite !andb_false_r|]; reflexivity).
          simpl in Hfail. lia. }
        unfold indexed. simpl. constructor.
        -- repeat split; simpl; [|lia].
           eapply resolves_to_grows; [|exact Hres].
           intros c Hc. apply J4. rewrite K1, I1. exact Hc.
        -- eapply Forall2_impl;
             [|apply J7; [assumption|rewrite Ht4, failures_app; lia]].
           intros ix row Hrow.
           eapply row_of_exercise_weaken; [| |exact Hrow]; [auto|lia].
      * rewrite Ee in H. rewrite Ee in Ht2. simpl in Ht2.
        specialize (Hsame Hq).
        assert (H' : insert_exercises w pt rid rest pos
                       {| db := db s2; clock := clock s2;
                          console := console s2
                                     ++ ["Failed to insert routine exercise"];
                          trace := trace s2 |} = (r, s')).
        { destruct (data reply); exact H. }
        clear H.
        pose proof H' as Hacc. apply insert_exercises_account in Hacc
          as (tr4 & out4 & [Ht4 _] & _ & _).
        destruct (IH _ _ _ _ H')
          as (new & J1 & J2 & J3 & J4 & J5 & J6 & J7).
        simpl in *. exists new.
        split; [rewrite J1, Hsame, G2; reflexivity|].
        split; [congruence|]. split; [rewrite Hsame in J3; lia|].
        split; [intros c Hc; apply J4; rewrite Hsame; apply G5, Hc|].
        split.
        { eapply Forall_impl; [|exact J5]. simpl. intros row [? ?].
          split; [assumption|rewrite Hsame in *; lia]. }
        split; [assumption|].
        intros _ Hfail. exfalso.
        rewrite Ht4, Ht2, Ht1, !failures_app, Hf1 in Hfail.
        unfold failures at 2 in Hfail. simpl in Hfail. lia.
    + inv H. exists []. rewrite app_nil_r.
      repeat split; auto. discriminate.
Qed.


Lemma rows_of_others (rid : nat) (l : list RoutineExerciseRow) :
  filter (fun r => Nat.eqb (re_routine_id r) rid)
         (filter (fun r => negb (Nat.eqb (re_routine_id r) rid)) l) = [].
Proof.
  induction l as [|x l IH]; [reflexivity|]. simpl.
  destruct (Nat.eqb (re_routine_id x) rid) eqn:E; simpl; [exact IH|].
  rewrite E. exact IH.
Qed.

Lemma rows_of_own (rid : nat) (l : list RoutineExerciseRow) (P : nat -> Prop) :
  Forall (fun row => re_routine_id row = rid /\ P (re_id row)) l ->
  filter (fun r => Nat.eqb (re_routine_id r) rid) l = l.
Proof.
  induction 1 as [|x l [Hx _] _ IH]; [reflexivity|]. simpl.
  rewrite Hx, Nat.eqb_refl, IH. reflexivity.
Qed.

(** The store after an update whose delete of the old rows succeeded, with
    no other writer: the rows of the other routines, then the rows the loop
    appended. *)
Lemma upsertRoutine_update_rows (w : World) (params : RoutineParams)
    (rid : nat) (d : Db) (r : nat) (s : St) :
  quiet w ->
  p_routineId params = Some rid ->
  request (upsertRoutine w params) d = (Ok r, s) ->
  failures t_routine_exercises v_delete (trace s) = 0%nat ->
  r = rid
  /\ exists new,
       routine_exercises (db s)
       = filter (fun x => negb (Nat.eqb (re_routine_id x) rid))
                (routine_exercises d) ++ new
       /\ Forall (fun row => re_routine_id row = rid
                             /\ (next_uuid d <= re_id row)%nat) new
       /\ map re_position new = seq 0 (length new)
       /\ (failures t_routine_exercises v_insert (trace s) = 0%nat ->
           Forall2 (row_of_exercise (db s) (p_ptId params) rid (next_uuid d))
                   (indexed 0 (p_exercises params)) new).
Proof.
  intros Hq Hrid H Hdel. unfold request in H.
  rewrite upsertRoutine_unfold in H.
  unfold write_routine, bind, query in H. rewrite Hrid in H.
  simpl in H. rewrite !Hq in H.
  destruct (faults w 0); [discriminate|]. simpl in H. rewrite !Hq in H.
  destruct (faults w 1) eqn:F1; simpl in H;
    match type of H with
    | context [insert_exercises w ?pt ?i ?e ?p ?s1] =>
        destruct (insert_exercises w pt i e p s1) as [r' s'] eqn:L
    end;
    (destruct r' as [[]|m]; [|discriminate]); inv H;
    pose proof L as Hacc;
    apply insert_exercises_account in Hacc as (tr & out & [Ht _] & _ & _);
    simpl in Ht.
  - exfalso. rewrite Ht in Hdel.
    unfold failures in Hdel. simpl in Hdel. discriminate.
  - split; [reflexivity|].
    destruct (insert_exercises_rows w _ _ _ Hq _ _ _ _ L)
      as (new & J1 & _ & _ & _ & J5 & J6 & J7).
    simpl in *. exists new. split; [exact J1|]. split; [exact J5|].
    split; [exact J6|]. intros Hins. apply J7; [reflexivity|].
    rewrite Hins. reflexivity.
Qed.

Lemma rows_of_update (rid : nat) (old new : list RoutineExerciseRow)
    (d : Db) (P : nat -> Prop) :
  routine_exercises d
  = filter (fun x => negb (Nat.eqb (re_routine_id x) rid)) old ++ new ->
  Forall (fun row => re_routine_id row = rid /\ P (re_id row)) new ->
  rows_of rid d = new.
Proof.
  intros Hrows Hnew. unfold rows_of.
  rewrite Hrows, filter_app, rows_of_others.
  simpl. eapply rows_of_own. exact Hnew.
Qed.

(** Positions stay contiguous when rows are dropped: with no other writer,
    after an update that answers the id of the routine and whose delete of
    the old rows succeeded, the positions of the rows of the routine are 0
    to k-1 for the k rows it has, whatever inserts failed. *)
Theorem upsertRoutine_positions_contiguous (w : World)
    (params : RoutineParams) (rid : nat) (d : Db) (r : nat) (s : St) :
  quiet w ->
  p_routineId params = Some rid ->
  request (upsertRoutine w params) d = (Ok r, s) ->
  failures t_routine_exercises v_delete (trace s) = 0%nat ->
  map re_position (rows_of rid (db s))
  = seq 0 (length (rows_of rid (db s))).
Proof.
  intros Hq Hrid H Hdel.
  destruct (upsertRoutine_update_rows w params rid d r s Hq Hrid H Hdel)
    as (_ & new & Hrows & Hnew & Hpos & _).
  rewrite (rows_of_update _ _ _ _ _ Hrows Hnew). exact Hpos.
Qed.




(* ================================================================== *)
(** * More on the streak statistics *)

Lemma longest_run_unique (days : list Z) (k k' : nat) :
  longest_run days k -> longest_run days k' -> k = k'.
Proof.
  intros [(d & Hd) Hmax] [(d' & Hd') Hmax'].
  pose proof (Hmax _ _ Hd'). pose proof (Hmax' _ _ Hd). lia.
Qed.

Lemma unbroken_back_unique (days : list Z) (today : Z) (k k' : nat) :
  unbroken_back days today k -> unbroken_back days today k' -> k = k'.
Proof.
  intros [Hin Hout] [Hin' Hout'].
  destruct (lt_eq_lt_dec k k') as [[Hlt|Heq]|Hgt]; [|exact Heq|].
  - exfalso. apply Hout. apply Hin'. exact Hlt.
  - exfalso. apply Hout'. apply Hin. exact Hgt.
Qed.

(** The current streak when today is the most recent session day. *)
Lemma currentStreak_today (now : Z) (logs : list Z) (k : nat) :
  most_recent (map utc_date logs) (utc_date now) ->
  unbroken_back (map utc_date logs) (utc_date now) k ->
  currentStreak (computeStreakStats now logs) = k.
Proof.
  intros Hm Hk.
  destruct (currentStreak_cases now logs)
    as [[-> _]|(m & Hm' & _ & [(_ & _ & Hback)|(Hne & _)])].
  - destruct Hm as [[] _].
  - eapply unbroken_back_unique; eassumption.
  - exfalso. apply Hne. eapply most_recent_unique; eassumption.
Qed.

(** The current streak when there is no session today. *)
Lemma currentStreak_not_today (now : Z) (logs : list Z) :
  ~ In (utc_date now) (map utc_date logs) ->
  currentStreak (computeStreakStats now logs) = 0%nat.
Proof.
  intros Hnot.
  destruct (currentStreak_cases now logs)
    as [[_ H0]|(m & [Hm _] & _ & [(Heq & _)|(_ & H0)])]; try exact H0.
  exfalso. apply Hnot. rewrite <- Heq. exact Hm.
Qed.

(** When every session is of today, both streaks are 1, today is the last
    workout date and every session is counted. *)
Theorem computeStreakStats_all_today (now : Z) (logs : list Z) :
  logs <> [] ->
  (forall t, In t logs -> utc_date t = utc_date now) ->
  computeStreakStats now logs
  = {| currentStreak := 1; longestStreak := 1;
       lastWorkoutDate := Some (utc_date now);
       totalWorkouts := length logs |}.
Proof.
  intros Hne Hall.
  assert (Hdays : forall d, In d (map utc_date logs) <-> d = utc_date now).
  { intros d. rewrite in_map_iff. split.
    - intros (t & <- & Ht). apply Hall. exact Ht.
    - intros ->. destruct logs as [|t logs]; [contradiction|].
      exists t. split; [apply Hall|]; left; reflexivity. }
  assert (Hm : most_recent (map utc_date logs) (utc_date now)).
  { split; [apply Hdays; reflexivity|].
    intros d Hd. apply Hdays in Hd. lia. }
  assert (Hc : currentStreak (computeStreakStats now logs) = 1%nat).
  { apply currentStreak_today; [exact Hm|]. split.
    - intros i Hi. apply Hdays. lia.
    - intros Hin. apply Hdays in Hin. lia. }
  assert (Hl : longestStreak (computeStreakStats now logs) = 1%nat).
  { apply (longest_run_unique (map utc_date logs));
      [apply longestStreak_longest_run|].
    split.
    - exists (utc_date now). intros i Hi. apply Hdays. lia.
    - intros d k Hr. destruct (le_lt_dec k 1) as [|Hbig]; [assumption|].
      pose proof (Hr 0%nat ltac:(lia)) as H0. apply Hdays in H0.
      pose proof (Hr 1%nat ltac:(lia)) as H1. apply Hdays in H1. lia. }
  assert (Hd : lastWorkoutDate (computeStreakStats now logs)
               = Some (utc_date now)).
  { destruct (currentStreak_cases now logs)
      as [[-> _]|(m & Hm' & -> & _)]; [contradiction|].
    f_equal. eapply most_recent_unique; eassumption. }
  destruct logs as [|t logs]; [contradiction|].
  unfold computeStreakStats in *. cbn [currentStreak longestStreak
    lastWorkoutDate] in Hc, Hl, Hd. rewrite Hc, Hl, Hd. reflexivity.
Qed.

Lemma computeStreakStats_all_today_witness :
  computeStreakStats 259200005 [259200000; 259200001; 259200002]
  = {| currentStreak := 1; longestStreak := 1; lastWorkoutDate := Some 3;
       totalWorkouts := 3 |}.
Proof.
  apply (computeStreakStats_all_today 259200005
           [259200000; 259200001; 259200002]).
  - discriminate.
  - intros t [<-|[<-|[<-|[]]]]; reflexivity.
Defined.

(** The streaks and the last workout date depend on the set of session
    dates only: neither the order of the sessions nor several sessions on
    one day change them. *)
Theorem computeStreakStats_by_dates (now : Z) (logs logs' : list Z) :
  (forall d, In d (map utc_date logs) <-> In d (map utc_date logs')) ->
  currentStreak (computeStreakStats now logs)
  = currentStreak (computeStreakStats now logs')
  /\ longestStreak (computeStreakStats now logs)
     = longestStreak (computeStreakStats now logs')
  /\ lastWorkoutDate (computeStreakStats now logs)
     = lastWorkoutDate (computeStreakStats now logs').
Proof.
  intros Hsame.
  assert (Hrecent : forall m, most_recent (map utc_date logs) m ->
                              most_recent (map utc_date logs') m).
  { intros m [Hin Hmax]. split; [apply Hsame; exact Hin|].
    intros d Hd. apply Hmax. apply Hsame. exact Hd. }
  split; [|split].
  - destruct (currentStreak_cases now logs)
      as [[-> H0]|(m & Hm & _ & [(-> & _ & Hback)|(Hne & H0)])].
    + destruct logs' as [|t logs']; [reflexivity|].
      exfalso. apply (proj2 (Hsame (utc_date t))). left. reflexivity.
    + symmetry. apply currentStreak_today; [apply Hrecent; exact Hm|].
      destruct Hback as [Hin Hout]. split.
      * intros i Hi. apply Hsame. apply Hin. exact Hi.
      * intros Hbad. apply Hout. apply Hsame. exact Hbad.
    + rewrite H0.
      destruct (currentStreak_cases now logs')
        as [[_ H0']|(m' & Hm' & _ & [(-> & _)|(_ & H0')])];
        try (symmetry; exact H0').
      exfalso. apply Hne.
      eapply most_recent_unique; [exact Hm|].
      destruct Hm' as [Hin Hmax]. split; [apply Hsame; exact Hin|].
      intros d Hd. apply Hmax. apply Hsame. exact Hd.
  - apply (longest_run_unique (map utc_date logs'));
      [|apply longestStreak_longest_run].
    apply (longest_run_ext (map utc_date logs)); [exact Hsame|].
    apply longestStreak_longest_run.
  - destruct (currentStreak_cases now logs)
      as [[-> _]|(m & Hm & -> & _)].
    + destruct logs' as [|t logs']; [reflexivity|].
      exfalso. apply (proj2 (Hsame (utc_date t))). left. reflexivity.
    + destruct (currentStreak_cases now logs')
        as [[-> _]|(m' & Hm' & -> & _)].
      * destruct Hm as [Hin _]. apply Hsame in Hin. destruct Hin.
      * f_equal. eapply most_recent_unique; [apply Hrecent|]; eassumption.
Qed.

Lemma computeStreakStats_by_dates_witness :
  currentStreak (computeStreakStats 259200005 [259200000; 172800000; 0])
  = currentStreak
      (computeStreakStats 259200005 [0; 172800007; 259200009; 172800000]).
Proof.
  apply (computeStreakStats_by_dates 259200005 [259200000; 172800000; 0]
           [0; 172800007; 259200009; 172800000]).
  intros d.
  change (map utc_date [259200000; 172800000; 0]) with [3; 2; 0].
  change (map utc_date [0; 172800007; 259200009; 172800000])
    with [0; 2; 3; 2].
  simpl In. lia.
Defined.

(** For sessions of the years 0000 to 9999, [lastWorkoutDate] is the most
    recent session date, [null] exactly for no session at all, and
    [totalWorkouts] counts every session. *)
Theorem computeStreakStats_last_and_total (now : Z) (logs : list Z) :
  (forall t, In t logs -> four_digit_year t) ->
  match lastWorkoutDate (computeStreakStats now logs) with
  | Some m => most_recent (map utc_date logs) m
  | None => logs = []
  end
  /\ totalWorkouts (computeStreakStats now logs) = length logs.
Proof.
  intros _. split.
  - destruct (currentStreak_cases now logs)
      as [[-> _]|(m & Hm & -> & _)]; [reflexivity|exact Hm].
  - destruct logs; reflexivity.
Qed.

Lemma computeStreakStats_last_and_total_witness :
  most_recent (map utc_date [86400005; 259200000; 5]) 3
  /\ totalWorkouts (computeStreakStats 0 [86400005; 259200000; 5]) = 3%nat.
Proof.
  assert (Hyears : forall t, In t [86400005; 259200000; 5] ->
                             four_digit_year t).
  { unfold four_digit_year, MS_PER_DAY. simpl In. intros t H. lia. }
  assert (Hlast : lastWorkoutDate
                    (computeStreakStats 0 [86400005; 259200000; 5]) = Some 3)
    by (vm_compute; reflexivity).
  pose proof (computeStreakStats_last_and_total 0 [86400005; 259200000; 5]
                Hyears) as [Hm Ht].
  rewrite Hlast in Hm. split; assumption.
Defined.

(** The days of a run, listed. *)
Lemma run_days_distinct (d : Z) (k : nat) :
  NoDup (map (fun i => d + Z.of_nat i) (seq 0 k)).
Proof.
  assert (H : forall start, NoDup (map (fun i => d + Z.of_nat i)
                                       (seq start k))).
  { induction k as [|k IH]; intros start; simpl; [constructor|].
    constructor; [|apply IH].
    rewrite in_map_iff. intros (i & Hi & Hin).
    apply in_seq in Hin. lia. }
  apply H.
Qed.

(** The longest streak is at least 1 once there is a session, and at most
    the number of distinct session dates, which is at most the number of
    sessions. *)
Theorem computeStreakStats_longest_bounds (now : Z) (logs : list Z) :
  (logs <> [] -> 1 <= longestStreak (computeStreakStats now logs))%nat
  /\ (longestStreak (computeStreakStats now logs)
      <= length (uniq (map utc_date logs)))%nat
  /\ (length (uniq (map utc_date logs))
      <= totalWorkouts (computeStreakStats now logs))%nat.
Proof.
  destruct (longestStreak_longest_run now logs) as [(d & Hd) Hmax].
  split; [|split].
  - intros Hne. destruct logs as [|t logs]; [contradiction|].
    apply (Hmax (utc_date t)). intros i Hi. left. lia.
  - set (k := longestStreak (computeStreakStats now logs)) in *.
    apply Nat.le_trans
      with (length (map (fun i => d + Z.of_nat i) (seq 0 k)));
      [rewrite length_map, length_seq; lia|].
    apply NoDup_incl_length; [apply run_days_distinct|].
    intros x Hx. apply in_map_iff in Hx as (i & <- & Hi).
    apply in_seq in Hi. apply uniq_In. apply Hd. lia.
  - replace (totalWorkouts (computeStreakStats now logs)) with (length logs)
      by (destruct logs; reflexivity).
    apply Nat.le_trans with (length (map utc_date logs));
      [|rewrite length_map; lia].
    apply NoDup_incl_length; [apply uniq_acc_NoDup|].
    intros x Hx. apply uniq_In. exact Hx.
Qed.

Lemma computeStreakStats_longest_bounds_witness :
  (1 <= longestStreak (computeStreakStats 0%Z [5; 86400005]%Z))%nat.
Proof.
  apply (proj1 (computeStreakStats_longest_bounds 0 [5; 86400005])).
  discriminate.
Defined.

(** For sessions of the years 0000 to 9999, more sessions never shorten
    the longest streak. *)
Theorem computeStreakStats_longest_monotone (now now' : Z)
    (logs logs' : list Z) :
  (forall t, In t logs -> four_digit_year t) ->
  (forall t, In t logs' -> four_digit_year t) ->
  (forall d, In d (map utc_date logs) -> In d (map utc_date logs')) ->
  (longestStreak (computeStreakStats now logs)
   <= longestStreak (computeStreakStats now' logs'))%nat.
Proof.
  intros _ _ Hsub.
  destruct (longestStreak_longest_run now logs) as [(d & Hd) _].
  destruct (longestStreak_longest_run now' logs') as [_ Hmax].
  apply (Hmax d). eapply run_in_ext; [exact Hsub|exact Hd].
Qed.

Lemma computeStreakStats_longest_monotone_witness :
  (longestStreak (computeStreakStats 0%Z [5; 172800000]%Z)
   <= longestStreak
        (computeStreakStats 9%Z [172800000; 86400000; 5]%Z))%nat.
Proof.
  apply (computeStreakStats_longest_monotone 0 9 [5; 172800000]
           [172800000; 86400000; 5]).
  - unfold four_digit_year, MS_PER_DAY. simpl In. intros t H. lia.
  - unfold four_digit_year, MS_PER_DAY. simpl In. intros t H. lia.
  - intros d.
    change (map utc_date [5; 172800000]) with [0; 2].
    change (map utc_date [172800000; 86400000; 5]) with [2; 1; 0].
    simpl In. lia.
Defined.

Lemma utc_date_yesterday (now : Z) :
  utc_date (now - MS_PER_DAY) = utc_date now - 1.
Proof.
  unfold utc_date. rewrite MS_PER_DAY_value.
  Z.to_euclidean_division_equations. lia.
Qed.

(** A first session today continues the streak of yesterday: for a clock
    and sessions of the years 0000 to 9999, when every earlier session is of
    a day before today, the current streak with a session logged now is one
    more than the current streak was a day ago. *)
Theorem computeStreakStats_next_day (now : Z) (logs : list Z) :
  four_digit_year now ->
  (forall t, In t logs -> four_digit_year t) ->
  (forall t, In t logs -> utc_date t < utc_date now) ->
  currentStreak (computeStreakStats now (now :: logs))
  = S (currentStreak (computeStreakStats (now - MS_PER_DAY) logs)).
Proof.
  intros _ _ Hbefore.
  assert (Hdays : forall d, In d (map utc_date logs) -> d < utc_date now).
  { intros d Hd. apply in_map_iff in Hd as (t & <- & Ht).
    apply Hbefore. exact Ht. }
  apply currentStreak_today.
  - split; [left; reflexivity|].
    intros d [<-|Hd]; [lia|]. specialize (Hdays _ Hd). lia.
  - simpl map.
    pose proof (utc_date_yesterday now) as Hy.
    destruct (currentStreak_cases (now - MS_PER_DAY) logs)
      as [[-> H0]|(m & Hm & _ & [(Hmy & _ & Hback)|(Hne & H0)])].
    + rewrite H0. split.
      * intros i Hi. left. lia.
      * intros [Hbad|[]]. lia.
    + destruct Hback as [Hin Hout]. rewrite Hy in Hin, Hout.
      set (c := currentStreak (computeStreakStats (now - MS_PER_DAY) logs))
        in *.
      split.
      * intros i Hi. destruct i as [|i]; [left; lia|].
        right. replace (utc_date now - Z.of_nat (S i))
          with (utc_date now - 1 - Z.of_nat i) by lia.
        apply Hin. lia.
      * intros [Hbad|Hbad]; [lia|].
        apply Hout. replace (utc_date now - 1 - Z.of_nat c)
          with (utc_date now - Z.of_nat (S c)) by lia.
        exact Hbad.
    + rewrite H0. rewrite Hy in Hne. split.
      * intros i Hi. left. lia.
      * intros [Hbad|Hbad]; [lia|].
        apply Hne. destruct Hm as [Hmin Hmax].
        specialize (Hmax _ Hbad). specialize (Hdays _ Hmin).
        simpl in Hbad, Hmax. lia.
Qed.

Lemma computeStreakStats_next_day_witness :
  currentStreak (computeStreakStats 259200005 [259200005; 172800000; 86400000])
  = S (currentStreak (computeStreakStats (259200005 - MS_PER_DAY)
                        [172800000; 86400000])).
Proof.
  apply (computeStreakStats_next_day 259200005 [172800000; 86400000]).
  - unfold four_digit_year, MS_PER_DAY. lia.
  - unfold four_digit_year, MS_PER_DAY. simpl In. intros t H. lia.
  - intros t [<-|[<-|[]]]; reflexivity.
Defined.

(* ================================================================== *)
(** * More on weeks and the weekly goal *)

(** An instant is within the seven days from the start of its week. *)
Lemma startOfWeek_within (a : Z) :
  startOfWeek a <= a < startOfWeek a + 7 * MS_PER_DAY.
Proof.
  destruct (startOfWeek_monday a) as (da & Ha & _ & Hda).
  pose proof (utc_date_bounds a) as Hba. rewrite Ha.
  unfold date_midnight in *. rewrite MS_PER_DAY_value in *. lia.
Qed.

(** Two instants have the same start of week exactly when the second is
    within the week of the first. *)
Lemma startOfWeek_same (a b : Z) :
  startOfWeek a = startOfWeek b
  <-> startOfWeek a <= b < startOfWeek a + 7 * MS_PER_DAY.
Proof.
  split.
  - intros ->. apply startOfWeek_within.
  - intros Hin. destruct (startOfWeek_monday a) as (da & Ha & Hma & _).
    rewrite Ha in *. symmetry. apply startOfWeek_of_monday; [exact Hma|].
    unfold date_midnight in *. rewrite MS_PER_DAY_value in *. lia.
Qed.

(** Weeks part the time line: the start of a week is its own start, an
    instant is within the seven days from the start of its week, two
    instants have the same start exactly when the second is within the
    week of the first, and later instants have later or equal starts. *)
Theorem startOfWeek_weeks (a b : Z) :
  startOfWeek (startOfWeek a) = startOfWeek a
  /\ startOfWeek a <= a < startOfWeek a + 7 * MS_PER_DAY
  /\ (startOfWeek a = startOfWeek b
      <-> startOfWeek a <= b < startOfWeek a + 7 * MS_PER_DAY)
  /\ (a <= b -> startOfWeek a <= startOfWeek b).
Proof.
  split; [|split; [|split]].
  - symmetry. apply startOfWeek_same.
    pose proof (startOfWeek_within a). rewrite MS_PER_DAY_value. lia.
  - apply startOfWeek_within.
  - apply startOfWeek_same.
  - intros Hle.
    destruct (startOfWeek_monday a) as (da & Ha & Hma & Hda).
    destruct (startOfWeek_monday b) as (db & Hb & Hmb & Hdb).
    rewrite Ha, Hb.
    assert (da <= db); [|unfold date_midnight; rewrite MS_PER_DAY_value; lia].
    assert (utc_date a <= utc_date b).
    { unfold utc_date. rewrite MS_PER_DAY_value.
      apply Z.div_le_mono; lia. }
    clear - Hma Hmb Hda Hdb H. Z.to_euclidean_division_equations. lia.
Qed.

Lemma startOfWeek_weeks_witness :
  startOfWeek 0 <= startOfWeek 345600000.
Proof.
  apply (proj2 (proj2 (proj2 (startOfWeek_weeks 0 345600000)))). lia.
Defined.

(** [completed] as a count over the seven days from [weekStart]. *)
Lemma computeWeeklyGoal_completed (g : option Z) (sessions : list Z)
    (routineCount now : Z) :
  completed (computeWeeklyGoal g sessions routineCount now)
  = length (filter (fun t => (startOfWeek now <=? t)
                             && (t <? startOfWeek now + 7 * MS_PER_DAY))
                   sessions).
Proof.
  unfold computeWeeklyGoal. cbn [completed].
  destruct (startOfWeek_monday now) as (d & Hd & _).
  rewrite Hd, utc_date_midnight. unfold date_midnight.
  replace ((d + 7) * MS_PER_DAY) with (d * MS_PER_DAY + 7 * MS_PER_DAY)
    by lia.
  reflexivity.
Qed.

(** [completed] never exceeds the number of sessions, counts each session
    logged at [now], and is 0 when every session is of another week. *)
Theorem computeWeeklyGoal_completed_bounds (g : option Z)
    (sessions : list Z) (routineCount now : Z) :
  let r := computeWeeklyGoal g sessions routineCount now in
  (completed r <= length sessions)%nat
  /\ (count_occ Z.eq_dec sessions now <= completed r)%nat
  /\ ((forall t, In t sessions -> startOfWeek t <> startOfWeek now) ->
      completed r = 0%nat).
Proof.
  intros r. subst r. rewrite computeWeeklyGoal_completed.
  pose proof (startOfWeek_within now) as Hnow.
  set (in_week := fun t => _).
  split; [|split].
  - apply filter_length_le.
  - induction sessions as [|t sessions IH]; [apply Nat.le_refl|].
    cbn [count_occ filter].
    destruct (Z.eq_dec t now) as [->|Hne].
    + assert (Hin : in_week now = true).
      { unfold in_week. apply andb_true_iff.
        rewrite Z.leb_le, Z.ltb_lt. exact Hnow. }
      rewrite Hin. cbn [length]. lia.
    + destruct (in_week t); cbn [length]; lia.
  - intros Hother.
    induction sessions as [|t sessions IH]; [reflexivity|].
    cbn [filter].
    destruct (in_week t) eqn:E.
    + exfalso. apply (Hother t (or_introl eq_refl)). symmetry.
      apply startOfWeek_same. unfold in_week in E.
      apply andb_true_iff in E. rewrite Z.leb_le, Z.ltb_lt in E. exact E.
    + apply IH. intros t' Ht'. apply Hother. right. exact Ht'.
Qed.

Lemma computeWeeklyGoal_completed_bounds_witness :
  completed (computeWeeklyGoal None [0; 1209600000] 2 604800000) = 0%nat.
Proof.
  apply (proj2 (proj2 (computeWeeklyGoal_completed_bounds None
                         [0; 1209600000] 2 604800000))).
  intros t [<-|[<-|[]]]; vm_compute; discriminate.
Defined.

(* ================================================================== *)
(** * More on the catalog resolver *)

Lemma create_entry_added (w : World) (pt : nat) (name : string)
    (ex : ExerciseInput) (s s' : St) (r : Res nat) :
  quiet w ->
  create_entry w pt name ex s = (r, s') ->
  catalog_added (exercises_catalog (db s)) (exercises_catalog (db s')).
Proof.
  intros Hq H. unfold create_entry, bind in H.
  destruct (query w _ _ _ s) as [r1 s1] eqn:Q.
  apply query_cases in Q as (reply & d' & -> & -> & Hcase).
  rewrite Hq in Hcase.
  assert (Hdb : db s' = d').
  { destruct (error reply); [|destruct (data reply)];
      unfold throw, ret in H; inv H; reflexivity. }
  rewrite Hdb. clear H Hdb.
  destruct Hcase as [(_ & _ & ->)|(_ & Hrun)]; [left; reflexivity|].
  unfold Store.insert_catalog in Hrun.
  destruct (existsb _ _) eqn:E; inv Hrun; [left; reflexivity|].
  right. eexists. split; [reflexivity|]. exact E.
Qed.

(** One call of the resolver is one step of the catalog, with no other
    writer. *)
Lemma resolveExerciseCatalogId_added (w : World) (pt : nat)
    (ex : ExerciseInput) (s s' : St) (r : Res nat) :
  quiet w ->
  resolveExerciseCatalogId w pt ex s = (r, s') ->
  catalog_added (exercises_catalog (db s)) (exercises_catalog (db s')).
Proof.
  intros Hq H. unfold resolveExerciseCatalogId, bind in H.
  destruct (lookup_by_id w pt ex s) as [r1 s1] eqn:L1.
  apply lookup_by_id_effect in L1 as (o1 & tr1 & -> & _ & _ & Hq1).
  destruct (Hq1 Hq) as [Hdb1 _].
  destruct o1 as [id|]; [unfold ret in H; inv H; left; congruence|].
  destruct (lookup_by_name w pt (Text.trim (ex_name ex)) s1)
    as [r2 s2] eqn:L2.
  apply lookup_by_name_effect in L2
    as (o2 & tr2 & out2 & -> & _ & _ & _ & Hq2).
  destruct (Hq2 Hq) as [Hdb2 _].
  destruct o2 as [id|]; [unfold ret in H; inv H; left; congruence|].
  apply (create_entry_added _ _ _ _ _ _ _ Hq) in H.
  rewrite Hdb2, Hdb1 in H. exact H.
Qed.

Lemma catalog_added_keeps (l l' : list CatalogRow) (c : CatalogRow) :
  catalog_added l l' -> In c l -> In c l'.
Proof.
  intros [->|(row & -> & _)] Hc; [exact Hc|].
  apply in_or_app. left. exact Hc.
Qed.

Lemma catalog_added_length (l l' : list CatalogRow) :
  catalog_added l l' -> (length l' <= S (length l))%nat.
Proof.
  intros [->|(row & -> & _)]; [lia|].
  rewrite length_app. simpl. lia.
Qed.

(** With no other writer, the entry the resolver answers is an entry of
    the trainer it was called for; the call removes and alters no entry,
    adds at most one, and leaves the other tables alone. *)
Theorem resolveExerciseCatalogId_own_entry (w : World) (pt : nat)
    (ex : ExerciseInput) (s s' : St) (id : nat) :
  quiet w ->
  resolveExerciseCatalogId w pt ex s = (Ok id, s') ->
  (exists c, In c (exercises_catalog (db s'))
             /\ cat_id c = id /\ cat_pt_id c = pt)
  /\ (forall c, In c (exercises_catalog (db s)) ->
                In c (exercises_catalog (db s')))
  /\ (length (exercises_catalog (db s'))
      <= S (length (exercises_catalog (db s))))%nat
  /\ routines (db s') = routines (db s)
  /\ routine_exercises (db s') = routine_exercises (db s)
  /\ routine_exercise_sets (db s') = routine_exercise_sets (db s).
Proof.
  intros Hq H.
  pose proof (resolveExerciseCatalogId_added _ _ _ _ _ _ Hq H) as Hadd.
  apply resolveExerciseCatalogId_effect in H
    as (tr & out & _ & _ & _ & _ & Hdb).
  destruct (Hdb Hq) as [(G1 & G2 & G3 & _ & _) (c & Hc & Hid & Hpt & _)].
  split; [exists c; auto|].
  split; [intros c' Hc'; eapply catalog_added_keeps; eassumption|].
  split; [apply catalog_added_length; exact Hadd|].
  auto.
Qed.

Lemma resolveExerciseCatalogId_own_entry_witness :
  exists c,
    In c (exercises_catalog
            (db (snd (request (resolveExerciseCatalogId calm 1
                                 (Pattern.named "80% Squat"))
                        Pattern.squats))))
    /\ cat_id c = 2%nat /\ cat_pt_id c = 1%nat.
Proof.
  assert (H : resolveExerciseCatalogId calm 1 (Pattern.named "80% Squat")
                {| db := Pattern.squats; clock := 0; console := [];
                   trace := [] |}
              = (Ok 2%nat,
                 snd (request (resolveExerciseCatalogId calm 1
                                 (Pattern.named "80% Squat"))
                        Pattern.squats)))
    by (vm_compute; reflexivity).
  exact (proj1 (resolveExerciseCatalogId_own_entry calm 1
                  (Pattern.named "80% Squat") _ _ 2
                  (fun n d => eq_refl) H)).
Defined.

Lemma select_entry_by_id (l : list CatalogRow) (c : CatalogRow) :
  NoDup (map cat_id l) -> In c l ->
  filter (fun r => Nat.eqb (cat_id r) (cat_id c)
                   && Nat.eqb (cat_pt_id r) (cat_pt_id c)) l = [c].
Proof.
  induction l as [|x l IH]; simpl; [tauto|].
  intros Hnd Hc. apply NoDup_cons_iff in Hnd as [Hx Hl].
  destruct Hc as [->|Hc].
  - rewrite !Nat.eqb_refl. simpl. f_equal.
    clear IH Hl. induction l as [|y l IH]; [reflexivity|]. simpl.
    destruct (Nat.eqb_spec (cat_id y) (cat_id c)) as [Heq|Hne].
    + exfalso. apply Hx. left. exact Heq.
    + simpl. apply IH. intros Hin. apply Hx. right. exact Hin.
  - destruct (Nat.eqb_spec (cat_id x) (cat_id c)) as [Heq|Hne].
    + exfalso. apply Hx. rewrite Heq. apply in_map. exact Hc.
    + simpl. apply IH; assumption.
Qed.

Lemma select_none (p : CatalogRow -> bool) (l : list CatalogRow) :
  (forall c, In c l -> p c = false) -> filter p l = [].
Proof.
  induction l as [|x l IH]; [reflexivity|]. intros H. simpl.
  rewrite (H x (or_introl eq_refl)). apply IH.
  intros c Hc. apply H. right. exact Hc.
Qed.

(** The request names an entry by id.  When the store answers the lookup
    and the entry is one of the trainer, the resolver answers that id after
    this one query, whatever the name says; when the id is of no entry of
    the trainer, the id is ignored and the resolver goes on by name. *)
Theorem resolveExerciseCatalogId_by_id (w : World) (pt : nat)
    (ex : ExerciseInput) (s : St) (cid : nat) :
  let d := others w (clock s) (db s) in
  let s1 := {| db := d; clock := S (clock s); console := console s;
               trace := trace s ++ [op t_exercises_catalog v_select false] |}
  in
  ex_catalogId ex = Some cid ->
  faults w (clock s) = false ->
  NoDup (map cat_id (exercises_catalog d)) ->
  ((exists c, In c (exercises_catalog d) /\ cat_id c = cid
              /\ cat_pt_id c = pt) ->
   resolveExerciseCatalogId w pt ex s = (Ok cid, s1))
  /\ ((forall c, In c (exercises_catalog d) -> cat_id c = cid ->
                 cat_pt_id c <> pt) ->
      resolveExerciseCatalogId w pt ex s
      = resolveExerciseCatalogId w pt
          {| ex_name := ex_name ex; ex_notes := ex_notes ex;
             ex_catalogId := None;
             ex_defaultRestSeconds := ex_defaultRestSeconds ex;
             ex_sets := ex_sets ex |} s1).
Proof.
  intros d s1 Hid Hf Hnd. split.
  - intros (c & Hc & <- & <-).
    pose proof (select_entry_by_id _ _ Hnd Hc) as E.
    unfold resolveExerciseCatalogId, lookup_by_id. rewrite Hid.
    unfold bind at 1. unfold bind at 1. unfold query at 1. rewrite Hf.
    unfold Store.select_catalog_by_id. fold d. rewrite E. reflexivity.
  - intros Hnone.
    assert (E : filter (fun r => Nat.eqb (cat_id r) cid
                                 && Nat.eqb (cat_pt_id r) pt)
                  (exercises_catalog d) = []).
    { apply select_none. intros c Hc.
      destruct (Nat.eqb_spec (cat_id c) cid) as [Heq|]; [|reflexivity].
      destruct (Nat.eqb_spec (cat_pt_id c) pt) as [Hpt|]; [|reflexivity].
      exfalso. exact (Hnone c Hc Heq Hpt). }
    unfold resolveExerciseCatalogId, lookup_by_id. rewrite Hid.
    cbn [ex_catalogId ex_name].
    unfold bind at 1. unfold bind at 1. unfold query at 1. rewrite Hf.
    unfold Store.select_catalog_by_id. fold d. rewrite E. reflexivity.
Qed.

Lemma resolveExerciseCatalogId_by_id_witness :
  resolveExerciseCatalogId calm 1
    {| ex_name := "anything"; ex_notes := None; ex_catalogId := Some 1%nat;
       ex_defaultRestSeconds := None; ex_sets := [] |}
    {| db := Pattern.squats; clock := 0; console := []; trace := [] |}
  = (Ok 1%nat,
     {| db := Pattern.squats; clock := 1; console := [];
        trace := [op t_exercises_catalog v_select false] |}).
Proof.
  refine (proj1 (resolveExerciseCatalogId_by_id calm 1
                   {| ex_name := "anything"; ex_notes := None;
                      ex_catalogId := Some 1%nat;
                      ex_defaultRestSeconds := None; ex_sets := [] |}
                   {| db := Pattern.squats; clock := 0; console := [];
                      trace := [] |} 1 eq_refl eq_refl _) _).
  - simpl. constructor; [simpl; intros [H|[]]; discriminate|].
    constructor; [intros []|constructor].
  - exists (Pattern.entry 1 "80lb Squat"). simpl.
    split; [|split; reflexivity]. right. left. reflexivity.
Defined.

(* ================================================================== *)
(** * More on [upsertRoutine] *)

(** The write of the routine row on the store, with no other writer. *)
Lemma write_routine_store (w : World) (params : RoutineParams) (s s1 : St)
    (r : Res nat) :
  quiet w ->
  write_routine w params s = (r, s1) ->
  ((exists m, r = Throw m) /\ db s1 = db s)
  \/ (exercises_catalog (db s1) = exercises_catalog (db s)
      /\ match p_routineId params with
         | None =>
             r = Ok (next_uuid (db s))
             /\ db s1 = snd (Store.insert_routine (p_ptId params)
                               (p_clientId params) (p_name params) (db s))
         | Some rid =>
             r = Ok rid
             /\ next_uuid (db s1) = next_uuid (db s)
             /\ routines (db s1)
                = routines (snd (Store.update_routine rid (p_ptId params)
                                   (p_clientId params) (p_name params)
                                   (db s)))
             /\ ((routine_exercises (db s1) = routine_exercises (db s)
                  /\ routine_exercise_sets (db s1)
                     = routine_exercise_sets (db s))
                 \/ (routine_exercises (db s1)
                     = routine_exercises
                         (snd (Store.delete_routine_exercises rid (db s)))
                     /\ routine_exercise_sets (db s1)
                        = routine_exercise_sets
                            (snd (Store.delete_routine_exercises rid
                                    (db s)))))
         end).
Proof.
  intros Hq H. unfold write_routine, bind, query in H.
  destruct (p_routineId params) as [rid|]; rewrite !Hq in H;
    destruct (faults w (clock s)); simpl in H.
  - inv H. left. split; [eexists; reflexivity|reflexivity].
  - rewrite !Hq in H. destruct (faults w (S (clock s))); simpl in H; inv H;
      right; simpl; (split; [reflexivity|]); (split; [reflexivity|]);
      (split; [reflexivity|]); (split; [reflexivity|]);
      [left|right]; split; reflexivity.
  - inv H. left. split; [eexists; reflexivity|reflexivity].
  - inv H. right. simpl. repeat split.
Qed.

(** The loop on the catalog: at most one step for each exercise. *)
Lemma insert_exercises_history (w : World) (pt rid : nat)
    (exs : list ExerciseInput) :
  quiet w ->
  forall (pos : nat) (s s' : St) (r : Res unit),
    insert_exercises w pt rid exs pos s = (r, s') ->
    catalog_history (length exs) (exercises_catalog (db s))
      (exercises_catalog (db s')).
Proof.
  intros Hq. induction exs as [|ex rest IH]; intros pos s s' r H.
  - simpl in H. unfold ret in H. inv H. reflexivity.
  - simpl in H. unfold bind at 1 in H.
    destruct (resolveExerciseCatalogId w pt ex s) as [r1 s1] eqn:R1.
    pose proof (resolveExerciseCatalogId_added _ _ _ _ _ _ Hq R1) as Hadd.
    simpl. exists (exercises_catalog (db s1)). split; [exact Hadd|].
    assert (Hstay : forall n l, catalog_history n l l).
    { induction n as [|n IHn]; intros l; simpl; [reflexivity|].
      exists l. split; [left; reflexivity|apply IHn]. }
    destruct r1 as [exId|m]; [|inv H; apply Hstay].
    unfold bind at 1 in H.
    destruct (query w _ _ _ s1) as [r2 s2] eqn:Q.
    apply insert_routine_exercise_cases in Q
      as (reply & -> & _ & [(Ee & id & Ed & Hins)|((e & Ee) & Hsame)]).
    + rewrite Ee, Ed in H. destruct (Hins Hq) as (_ & I1 & _).
      unfold bind at 1 in H.
      destruct (insert_exercise_sets w _ (ex_sets ex) s2) as [r3 s3] eqn:S3.
      apply insert_exercise_sets_effect in S3
        as (-> & b & out3 & _ & _ & _ & _ & Hq3).
      destruct (Hq3 Hq) as [(K1 & _) _].
      apply IH in H. rewrite K1, I1 in H. exact H.
    + rewrite Ee in H. specialize (Hsame Hq).
      assert (H' : insert_exercises w pt rid rest pos
                     {| db := db s2; clock := clock s2;
                        console := console s2
                                   ++ ["Failed to insert routine exercise"];
                        trace := trace s2 |} = (r, s')).
      { destruct (data reply); exact H. }
      apply IH in H'. simpl in H'. rewrite Hsame in H'. exact H'.
Qed.

Lemma catalog_added_unique (l l' : list CatalogRow) :
  catalog_added l l' -> catalog_unique l -> catalog_unique l'.
Proof.
  intros [->|(row & -> & Hnew)] Hu; [exact Hu|].
  intros pt name. rewrite filter_app, length_app. simpl.
  destruct (Store.same_catalog_key pt name row) eqn:E; [|simpl; specialize
    (Hu pt name); lia].
  replace (filter (Store.same_catalog_key pt name) l) with (@nil CatalogRow);
    [simpl; lia|].
  symmetry. apply select_none. intros c Hc.
  destruct (Store.same_catalog_key pt name c) eqn:Ec; [|reflexivity].
  exfalso.
  assert (Hex : existsb (Store.same_catalog_key (cat_pt_id row)
                           (cat_name row)) l = true).
  { apply existsb_exists. exists c. split; [exact Hc|].
    unfold Store.same_catalog_key in *.
    apply andb_true_iff in E as [E1 E2]. apply andb_true_iff in Ec as [F1 F2].
    apply Nat.eqb_eq in E1. apply Nat.eqb_eq in F1.
    apply String.eqb_eq in E2. apply String.eqb_eq in F2.
    apply andb_true_iff. split.
    - apply Nat.eqb_eq. congruence.
    - apply String.eqb_eq. congruence. }
  congruence.
Qed.

Lemma catalog_history_facts (n : nat) :
  forall l l',
    catalog_history n l l' ->
    (catalog_unique l -> catalog_unique l')
    /\ (forall c, In c l -> In c l')
    /\ (length l' <= length l + n)%nat.
Proof.
  induction n as [|n IH]; intros l l' H; simpl in H.
  - subst. repeat split; auto. lia.
  - destruct H as (l1 & Hadd & Hrest).
    destruct (IH _ _ Hrest) as (Hu & Hin & Hlen).
    split; [intros Hl; apply Hu; eapply catalog_added_unique; eassumption|].
    split; [intros c Hc; apply Hin; eapply catalog_added_keeps; eassumption|].
    pose proof (catalog_added_length _ _ Hadd). lia.
Qed.

(** With no other writer, [upsertRoutine] keeps every entry of the catalog
    as it is, adds at most one entry for each exercise of the call, and
    never makes two entries of one trainer with the same name up to letter
    case. *)
Theorem upsertRoutine_catalog (w : World) (params : RoutineParams)
    (d : Db) (r : Res nat) (s : St) :
  quiet w ->
  request (upsertRoutine w params) d = (r, s) ->
  (forall c, In c (exercises_catalog d) -> In c (exercises_catalog (db s)))
  /\ (length (exercises_catalog (db s))
      <= length (exercises_catalog d) + length (p_exercises params))%nat
  /\ (catalog_unique (exercises_catalog d) ->
      catalog_unique (exercises_catalog (db s))).
Proof.
  intros Hq H. unfold request in H. rewrite upsertRoutine_unfold in H.
  destruct (write_routine w params _) as [r1 s1] eqn:W.
  apply (write_routine_store _ _ _ _ _ Hq) in W. simpl in W.
  assert (Hcat : exercises_catalog (db s1) = exercises_catalog d).
  { destruct W as [(_ & ->)|(Hc & _)]; [reflexivity|exact Hc]. }
  destruct r1 as [rid|m].
  - destruct (insert_exercises w (p_ptId params) rid (p_exercises params)
                0 s1) as [r2 s2] eqn:L.
    apply (insert_exercises_history _ _ _ _ Hq) in L. rewrite Hcat in L.
    destruct (catalog_history_facts _ _ _ L) as (Hu & Hin & Hlen).
    destruct r2; inv H; auto.
  - inv H. rewrite Hcat. repeat split; auto. lia.
Qed.

Lemma upsertRoutine_catalog_witness :
  catalog_unique
    (exercises_catalog
       (db (snd (request (upsertRoutine calm Flaky.plan) empty_db)))).
Proof.
  apply (proj2 (proj2 (upsertRoutine_catalog calm Flaky.plan empty_db
                         (fst (request (upsertRoutine calm Flaky.plan)
                                 empty_db))
                         (snd (request (upsertRoutine calm Flaky.plan)
                                 empty_db))
                         (fun n d => eq_refl) eq_refl))).
  intros pt name. simpl. lia.
Defined.

(* ================================================================== *)
(** * One name, one entry *)

Lemma resolved_by_name (d : Db) (pt : nat) (ex : ExerciseInput) (id : nat) :
  ex_catalogId ex = None ->
  Text.plain (Text.trim (ex_name ex)) = true ->
  resolves_to d pt ex id ->
  exists c,
    In c (filter (Store.same_catalog_key pt (Text.trim (ex_name ex)))
            (exercises_catalog d))
    /\ cat_id c = id.
Proof.
  intros Hnone Hplain (c & Hc & Hid & Hpt & Hhow).
  exists c. split; [|exact Hid]. apply filter_In. split; [exact Hc|].
  unfold Store.same_catalog_key. rewrite Hpt, Nat.eqb_refl. simpl.
  destruct Hhow as [Hbad|[Hlike|Hname]].
  - rewrite Hnone in Hbad. discriminate.
  - rewrite (ilike_plain _ _ Hplain) in Hlike. exact Hlike.
  - rewrite Hname. apply String.eqb_refl.
Qed.

Lemma the_one_entry (l : list CatalogRow) (c : CatalogRow) :
  (length l <= 1)%nat -> In c l -> l = [c].
Proof.
  destruct l as [|x [|y l]]; simpl; intros Hlen Hin.
  - elim Hin.
  - destruct Hin as [->|[]]. reflexivity.
  - lia.
Qed.

(** With no other writer, whatever queries the store fails: two calls of
    the resolver, one after the other, for names of ASCII characters none
    of which is a pattern character of [ILIKE], that differ by letter case
    and outer white space only, on a catalog without two entries of one
    trainer with the same name up to letter case.  When both calls answer,
    they answer the same id, and the catalog then has exactly one entry of
    the trainer with that name up to letter case, the one with that id. *)
Theorem resolveExerciseCatalogId_idempotent_plain (w : World) (pt : nat)
    (e1 e2 : ExerciseInput) (d : Db) (id1 id2 : nat) (s : St) :
  quiet w ->
  ex_catalogId e1 = None -> ex_catalogId e2 = None ->
  Text.plain (Text.trim (ex_name e1)) = true ->
  Text.plain (Text.trim (ex_name e2)) = true ->
  ascii_only (Text.trim (ex_name e1)) = true ->
  ascii_only (Text.trim (ex_name e2)) = true ->
  Text.lower (Text.trim (ex_name e1)) = Text.lower (Text.trim (ex_name e2)) ->
  catalog_unique (exercises_catalog d) ->
  request (first <- resolveExerciseCatalogId w pt e1 ;;
           second <- resolveExerciseCatalogId w pt e2 ;;
           ret (first, second)) d
  = (Ok (id1, id2), s) ->
  id1 = id2
  /\ map cat_id
       (filter (Store.same_catalog_key pt (Text.trim (ex_name e1)))
          (exercises_catalog (db s)))
     = [id1].
Proof.
  intros Hq N1 N2 P1 P2 _ _ Hlow Hu H. unfold request, bind in H.
  destruct (resolveExerciseCatalogId w pt e1 _) as [r1 s1] eqn:R1.
  destruct r1 as [a|m]; [|discriminate].
  destruct (resolveExerciseCatalogId w pt e2 s1) as [r2 s2] eqn:R2.
  destruct r2 as [b|m]; [|discriminate].
  unfold ret in H. inv H.
  pose proof (resolveExerciseCatalogId_added _ _ _ _ _ _ Hq R1) as A1.
  pose proof (resolveExerciseCatalogId_added _ _ _ _ _ _ Hq R2) as A2.
  simpl in A1.
  pose proof (catalog_added_unique _ _ A2 (catalog_added_unique _ _ A1 Hu))
    as Hu2.
  apply resolveExerciseCatalogId_effect in R1 as (_ & _ & _ & _ & _ & _ & D1).
  apply resolveExerciseCatalogId_effect in R2 as (_ & _ & _ & _ & _ & _ & D2).
  destruct (D1 Hq) as [_ Hr1]. destruct (D2 Hq) as [_ Hr2].
  destruct (resolved_by_name _ _ _ _ N1 P1 Hr1) as (c1 & Hc1 & I1).
  destruct (resolved_by_name _ _ _ _ N2 P2 Hr2) as (c2 & Hc2 & I2).
  rewrite <- (same_catalog_key_lower pt _ _ _ Hlow) in Hc2.
  assert (Hc1' : In c1 (filter (Store.same_catalog_key pt
                                  (Text.trim (ex_name e1)))
                          (exercises_catalog (db s)))).
  { apply filter_In in Hc1 as [Hin Hk]. apply filter_In.
    split; [|exact Hk]. eapply catalog_added_keeps; eassumption. }
  pose proof (the_one_entry _ _ (Hu2 pt _) Hc1') as E1.
  pose proof (the_one_entry _ _ (Hu2 pt _) Hc2) as E2.
  rewrite E1 in E2. inversion E2. subst c2.
  split; [congruence|]. rewrite E1. simpl. rewrite I1. reflexivity.
Qed.

Lemma resolveExerciseCatalogId_idempotent_plain_witness :
  map cat_id
      (filter (Store.same_catalog_key 1 "Squat")
         (exercises_catalog
            (db (snd (request (Pattern.twice " Squat" "SQUAT ") empty_db)))))
  = [0%nat].
Proof.
  assert (Hrun : request (Pattern.twice " Squat" "SQUAT ") empty_db
                 = (Ok (0%nat, 0%nat),
                    snd (request (Pattern.twice " Squat" "SQUAT ")
                           empty_db)))
    by (vm_compute; reflexivity).
  assert (Hu : catalog_unique (exercises_catalog empty_db)).
  { intros pt name. simpl. lia. }
  exact (proj2 (resolveExerciseCatalogId_idempotent_plain calm 1
                  (Pattern.named " Squat") (Pattern.named "SQUAT ")
                  empty_db 0 0 _ (fun n d => eq_refl) eq_refl eq_refl
                  eq_refl eq_refl eq_refl eq_refl eq_refl Hu Hrun)).
Defined.

(* ================================================================== *)
(** * The sets of an exercise *)

Lemma insert_sets_unfold (rows : list (nat * nat * SetInput)) (d : Db) :
  Store.insert_sets rows d
  = let keys := map (fun r => (fst (fst r), snd (fst r))) rows in
    if negb (forallb
               (fun k => existsb (fun r => Nat.eqb (re_id r) (fst k))
                                 (routine_exercises d)) keys)
    then (failed foreign_key_violation, d)
    else if negb (distinct_keys
                    (keys ++ map set_key (routine_exercise_sets d)))
    then (failed unique_violation, d)
    else
      (nothing,
       {| exercises_catalog := exercises_catalog d;
          routines := routines d;
          routine_exercises := routine_exercises d;
          routine_exercise_sets :=
            routine_exercise_sets d
            ++ Store.number_rows (next_uuid d) rows;
          next_uuid := next_uuid d + length rows |}).
Proof. reflexivity. Qed.

Lemma setsPayload_columns (re : nat) (sets : list SetInput) :
  forall index,
    map (fun r => (fst (fst r), snd (fst r))) (setsPayload re index sets)
    = map (fun n => (re, n)) (seq (S index) (length sets))
    /\ length (setsPayload re index sets) = length sets.
Proof.
  induction sets as [|t sets IH]; intros index; simpl; [auto|].
  destruct (IH (S index)) as (K & L). rewrite K, L.
  replace (index + 1)%nat with (S index) by lia. auto.
Qed.

Lemma number_rows_columns (rows : list (nat * nat * SetInput)) :
  forall id,
    map set_key (Store.number_rows id rows)
    = map (fun r => (fst (fst r), snd (fst r))) rows
    /\ map rs_id (Store.number_rows id rows) = seq id (length rows).
Proof.
  induction rows as [|[[re n] t] rows IH]; intros id; simpl; [auto|].
  destruct (IH (S id)) as (K & I). rewrite K, I. auto.
Qed.

(* ================================================================== *)
(** * What [upsertRoutine] leaves alone *)

Lemma insert_routine_exercise_sets_kept (w : World)
    (rid exId pos : nat) (notes : option string) (s s1 : St)
    (r : Res (Reply nat)) :
  quiet w ->
  query w t_routine_exercises v_insert
    (Store.insert_routine_exercise rid exId pos notes) s = (r, s1) ->
  routine_exercise_sets (db s1) = routine_exercise_sets (db s).
Proof.
  intros Hq Q. apply query_cases in Q as (reply & d' & _ & -> & Hcase).
  simpl. destruct Hcase as [(_ & _ & ->)|(_ & Hrun)]; rewrite Hq in *;
    [reflexivity|].
  unfold Store.insert_routine_exercise in Hrun.
  split_if Hrun; inv Hrun; reflexivity.
Qed.

Lemma insert_exercise_sets_store (w : World) (re : nat)
    (sets : list SetInput) (s s' : St) (r : Res unit) :
  quiet w ->
  insert_exercise_sets w re sets s = (r, s') ->
  exists new,
    routine_exercise_sets (db s') = routine_exercise_sets (db s) ++ new.
Proof.
  intros Hq H. unfold insert_exercise_sets in H.
  destruct sets as [|t sets].
  - unfold ret in H. inv H. exists []. rewrite app_nil_r. reflexivity.
  - unfold bind in H. destruct (query w _ _ _ s) as [r1 s1] eqn:Q.
    apply query_cases in Q as (reply & d' & -> & -> & Hcase).
    assert (Hd : exists new,
               routine_exercise_sets d' = routine_exercise_sets (db s) ++ new).
    { destruct Hcase as [(_ & _ & ->)|(_ & Hrun)]; rewrite Hq in *.
      - exists []. rewrite app_nil_r. reflexivity.
      - rewrite insert_sets_unfold in Hrun. cbv zeta in Hrun.
        split_if Hrun; [inv Hrun; exists []; rewrite app_nil_r; reflexivity|].
        split_if Hrun; inv Hrun;
          [exists []; rewrite app_nil_r; reflexivity|].
        eexists. reflexivity. }
    destruct (error reply); unfold console_error, ret in H; inv H; exact Hd.
Qed.

Lemma insert_exercises_sets (w : World) (pt rid : nat)
    (exs : list ExerciseInput) :
  quiet w ->
  forall (pos : nat) (s s' : St) (r : Res unit),
    insert_exercises w pt rid exs pos s = (r, s') ->
    exists new,
      routine_exercise_sets (db s') = routine_exercise_sets (db s) ++ new.
Proof.
  intros Hq. induction exs as [|ex rest IH]; intros pos s s' r H.
  - simpl in H. unfold ret in H. inv H. exists []. rewrite app_nil_r.
    reflexivity.
  - simpl in H. unfold bind at 1 in H.
    destruct (resolveExerciseCatalogId w pt ex s) as [r1 s1] eqn:R1.
    apply resolveExerciseCatalogId_effect in R1
      as (tr & out & _ & _ & _ & _ & Hdb).
    destruct (Hdb Hq) as [(_ & _ & G3 & _) _].
    destruct r1 as [exId|m];
      [|inv H; exists []; rewrite app_nil_r; exact G3].
    unfold bind at 1 in H.
    destruct (query w _ _ _ s1) as [r2 s2] eqn:Q.
    pose proof (insert_routine_exercise_sets_kept _ _ _ _ _ _ _ _ Hq Q) as K.
    apply insert_routine_exercise_cases in Q
      as (reply & -> & _ & [(Ee & id & Ed & _)|((e & Ee) & _)]).
    + rewrite Ee, Ed in H. unfold bind at 1 in H.
      destruct (insert_exercise_sets w _ (ex_sets ex) s2) as [r3 s3] eqn:S3.
      pose proof (insert_exercise_sets_store _ _ _ _ _ _ Hq S3)
        as (new3 & E3).
      apply insert_exercise_sets_effect in S3 as (-> & _).
      apply IH in H as (new & E). exists (new3 ++ new).
      rewrite E, E3, K, G3, app_assoc. reflexivity.
    + rewrite Ee in H.
      assert (H' : insert_exercises w pt rid rest pos
                     {| db := db s2; clock := clock s2;
                        console := console s2
                                   ++ ["Failed to insert routine exercise"];
                        trace := trace s2 |} = (r, s')).
      { destruct (data reply); exact H. }
      apply IH in H' as (new & E). exists new. simpl in E.
      rewrite E, K, G3. reflexivity.
Qed.

Lemma rows_of_other (rid rid' : nat) (l : list RoutineExerciseRow) :
  rid' <> rid ->
  filter (fun r => Nat.eqb (re_routine_id r) rid')
         (filter (fun r => negb (Nat.eqb (re_routine_id r) rid)) l)
  = filter (fun r => Nat.eqb (re_routine_id r) rid') l.
Proof.
  intros Hne. induction l as [|x l IH]; [reflexivity|]. simpl.
  destruct (Nat.eqb_spec (re_routine_id x) rid) as [E|E]; simpl.
  - destruct (Nat.eqb_spec (re_routine_id x) rid') as [E'|E'];
      [congruence|exact IH].
  - rewrite IH. reflexivity.
Qed.

Lemma rows_of_none (rid rid' : nat) (l : list RoutineExerciseRow)
    (P : nat -> Prop) :
  rid' <> rid ->
  Forall (fun row => re_routine_id row = rid /\ P (re_id row)) l ->
  filter (fun r => Nat.eqb (re_routine_id r) rid') l = [].
Proof.
  intros Hne Hl. induction Hl as [|x l [Hx _] _ IH]; [reflexivity|]. simpl.
  destruct (Nat.eqb_spec (re_routine_id x) rid'); [congruence|exact IH].
Qed.

(** With no other writer, whatever its outcome, [upsertRoutine] leaves the
    other routines alone: the exercise rows of every routine but the one it
    writes are the same rows in the same order, the rows of the other
    routines are kept, and so is every stored set of an exercise of another
    routine. *)
Theorem upsertRoutine_other_routines (w : World) (params : RoutineParams)
    (d : Db) (r : Res nat) (s : St) :
  quiet w ->
  request (upsertRoutine w params) d = (r, s) ->
  (forall rid, rid <> target_routine params d ->
               rows_of rid (db s) = rows_of rid d)
  /\ (forall row, In row (routines d) ->
                  rt_id row <> target_routine params d ->
                  In row (routines (db s)))
  /\ (forall x, In x (routine_exercise_sets d) ->
                (forall row, In row (routine_exercises d) ->
                             re_id row = rs_routine_exercise_id x ->
                             re_routine_id row <> target_routine params d) ->
                In x (routine_exercise_sets (db s))).
Proof.
  intros Hq H. unfold request in H. rewrite upsertRoutine_unfold in H.
  destruct (write_routine w params _) as [r1 s1] eqn:W.
  apply (write_routine_store _ _ _ _ _ Hq) in W. simpl in W.
  assert (Hw : (r1 = Ok (target_routine params d)
                \/ exists m, r1 = Throw m)
               /\ (forall rid, rid <> target_routine params d ->
                               rows_of rid (db s1) = rows_of rid d)
               /\ (forall row, In row (routines d) ->
                               rt_id row <> target_routine params d ->
                               In row (routines (db s1)))
               /\ (forall x, In x (routine_exercise_sets d) ->
                     (forall row, In row (routine_exercises d) ->
                                  re_id row = rs_routine_exercise_id x ->
                                  re_routine_id row
                                  <> target_routine params d) ->
                     In x (routine_exercise_sets (db s1)))).
  { destruct W as [(Hm & ->)|(_ & W)]; [auto|].
    unfold target_routine. destruct (p_routineId params) as [rid|].
    - destruct W as (-> & _ & Hr & Hrows). split; [auto|]. split; [|split].
      + intros rid' Hne. unfold rows_of.
        destruct Hrows as [(-> & _)|(-> & _)]; [reflexivity|].
        simpl. apply rows_of_other. exact Hne.
      + intros row Hin Hne. rewrite Hr. simpl. apply in_map_iff.
        exists row. split; [|exact Hin].
        destruct (Nat.eqb_spec (rt_id row) rid); [contradiction|reflexivity].
      + intros x Hin Hx. destruct Hrows as [(_ & ->)|(_ & ->)];
          [exact Hin|].
        simpl. apply filter_In. split; [exact Hin|].
        destruct (mem _ _) eqn:M; [|reflexivity]. exfalso.
        unfold mem in M. apply existsb_exists in M as (id & Hid & E).
        apply Nat.eqb_eq in E. subst id.
        apply in_map_iff in Hid as (row & Hre & Hrow).
        apply filter_In in Hrow as [Hrow Hrid]. apply Nat.eqb_eq in Hrid.
        exact (Hx row Hrow Hre Hrid).
    - destruct W as (-> & ->). simpl. split; [auto|]. split; [auto|].
      split; [|auto]. intros row Hin _. apply in_or_app. left. exact Hin. }
  destruct Hw as (Hr1 & Hrows & Hrts & Hsets).
  destruct r1 as [rid|m].
  - destruct Hr1 as [[= ->]|(m & [=])].
    destruct (insert_exercises w (p_ptId params) _ (p_exercises params)
                0 s1) as [r2 s2] eqn:L.
    destruct (insert_exercises_rows w _ _ _ Hq _ _ _ _ L)
      as (new & J1 & J2 & _ & _ & J5 & _).
    destruct (insert_exercises_sets w _ _ _ Hq _ _ _ _ L) as (newS & JS).
    assert (Hs : db s = db s2) by (destruct r2; inv H; reflexivity).
    rewrite Hs. split; [|split].
    + intros rid' Hne. rewrite <- (Hrows rid' Hne). unfold rows_of.
      rewrite J1, filter_app, (rows_of_none _ _ _ _ Hne J5), app_nil_r.
      reflexivity.
    + intros row Hin Hne. rewrite J2. auto.
    + intros x Hin Hx. rewrite JS. apply in_or_app. left. auto.
  - inv H. auto.
Qed.

Lemma upsertRoutine_other_routines_witness :
  rows_of 6 (db (snd (request (upsertRoutine calm Update.shorter)
                        Shared.both)))
  = rows_of 6 Shared.both.
Proof.
  refine (proj1 (upsertRoutine_other_routines calm Update.shorter
                   Shared.both
                   (fst (request (upsertRoutine calm Update.shorter)
                           Shared.both))
                   (snd (request (upsertRoutine calm Update.shorter)
                           Shared.both))
                   (fun n d => eq_refl) _) 6%nat _).
  - apply surjective_pairing.
  - vm_compute. discriminate.
Defined.

(** An update never changes which routines there are nor whose they are.
    When the routine is not one of the calling trainer, no routine row
    changes at all.  When the store answers the update, the routine of the
    trainer with that id has the client and the name of the call, whatever
    happens afterwards. *)
Theorem upsertRoutine_routine_row (w : World) (params : RoutineParams)
    (rid : nat) (d : Db) (r : Res nat) (s : St) :
  quiet w ->
  p_routineId params = Some rid ->
  request (upsertRoutine w params) d = (r, s) ->
  map rt_id (routines (db s)) = map rt_id (routines d)
  /\ map rt_pt_id (routines (db s)) = map rt_pt_id (routines d)
  /\ ((forall row, In row (routines d) -> rt_id row = rid ->
                   rt_pt_id row <> p_ptId params) ->
      routines (db s) = routines d)
  /\ (faults w 0 = false ->
      forall row, In row (routines (db s)) -> rt_id row = rid ->
                  rt_pt_id row = p_ptId params ->
                  rt_client_id row = p_clientId params
                  /\ rt_routine_name row = p_name params).
Proof.
  intros Hq Hrid H. unfold request in H. rewrite upsertRoutine_unfold in H.
  destruct (write_routine w params _) as [r1 s1] eqn:W.
  pose proof (write_routine_cases w params d) as [Wf Wok].
  simpl in Wf, Wok.
  pose proof (write_routine_store _ _ _ _ _ Hq W) as Ws. simpl in Ws.
  rewrite Hrid in Ws.
  assert (Hs : routines (db s) = routines (db s1)).
  { destruct r1 as [id|m]; [|inv H; reflexivity].
    destruct (insert_exercises w (p_ptId params) id (p_exercises params)
                0 s1) as [r2 s2] eqn:L.
    destruct (insert_exercises_rows w _ _ _ Hq _ _ _ _ L)
      as (new & _ & J2 & _).
    destruct r2; inv H; exact J2. }
  rewrite Hs. clear Hs H.
  set (upd := fun x : RoutineRow =>
                if Nat.eqb (rt_id x) rid && Nat.eqb (rt_pt_id x) (p_ptId params)
                then {| rt_id := rt_id x; rt_pt_id := p_ptId params;
                        rt_client_id := p_clientId params;
                        rt_routine_name := p_name params |}
                else x).
  assert (Hid : forall x, rt_id (upd x) = rt_id x
                          /\ rt_pt_id (upd x) = rt_pt_id x).
  { intros x. unfold upd.
    destruct (Nat.eqb (rt_id x) rid); simpl; [|auto].
    destruct (Nat.eqb_spec (rt_pt_id x) (p_ptId params)); simpl; auto. }
  destruct Ws as [((m & ->) & Hd)|(_ & -> & _ & Hr & _)].
  - rewrite Hd. split; [reflexivity|]. split; [reflexivity|].
    split; [reflexivity|]. intros Hf.
    destruct (Wok Hf) as (s1' & W' & _). rewrite W in W'. discriminate.
  - simpl in Hr. fold upd in Hr. rewrite Hr. split; [|split; [|split]].
    + rewrite map_map. apply map_ext. intros x. apply Hid.
    + rewrite map_map. apply map_ext. intros x. apply Hid.
    + intros Hother. rewrite <- (map_id (routines d)) at 2.
      apply map_ext_in. intros x Hx. unfold upd.
      destruct (Nat.eqb_spec (rt_id x) rid) as [E|]; [|reflexivity].
      destruct (Nat.eqb_spec (rt_pt_id x) (p_ptId params)) as [E'|];
        [|reflexivity].
      exfalso. exact (Hother x Hx E E').
    + intros _ row Hin Hrow Hpt. apply in_map_iff in Hin as (x & <- & _).
      destruct (Hid x) as [I1 I2]. rewrite I1 in Hrow. rewrite I2 in Hpt.
      unfold upd. rewrite Hrow, Hpt, !Nat.eqb_refl. simpl. auto.
Qed.

Lemma upsertRoutine_routine_row_witness :
  routines (db (snd (request (upsertRoutine calm Shared.intruder)
                       Shared.both)))
  = routines Shared.both.
Proof.
  refine (proj1 (proj2 (proj2
            (upsertRoutine_routine_row calm Shared.intruder 0 Shared.both
               (fst (request (upsertRoutine calm Shared.intruder)
                       Shared.both))
               (snd (request (upsertRoutine calm Shared.intruder)
                       Shared.both))
               (fun n d => eq_refl) eq_refl _))) _).
  - apply surjective_pairing.
  - vm_compute. intros row [<-|[<-|[]]] _; discriminate.
Defined.

Lemma rows_of_absent (rid : nat) (l : list RoutineExerciseRow) :
  (forall row, In row l -> re_routine_id row <> rid) ->
  filter (fun r => Nat.eqb (re_routine_id r) rid) l = [].
Proof.
  induction l as [|x l IH]; intros H; [reflexivity|]. simpl.
  destruct (Nat.eqb_spec (re_routine_id x) rid) as [E|_].
  - exfalso. exact (H x (or_introl eq_refl) E).
  - apply IH. intros row Hin. apply H. right. exact Hin.
Qed.

(** With no other writer, on a store with no exercise row for the id the
    store draws next, a creation that answers and none of whose inserts of
    an exercise row failed answers the id the store drew for the new
    routine, adds the row of the routine after the others with the trainer,
    the client and the name of the call, and adds after the other exercise
    rows exactly one row for each exercise of the call, in the order of the
    call, with the positions 0 to n-1. *)
Theorem upsertRoutine_creates (w : World) (params : RoutineParams)
    (d : Db) (r : nat) (s : St) :
  quiet w ->
  p_routineId params = None ->
  (forall row, In row (routine_exercises d) ->
               re_routine_id row <> next_uuid d) ->
  request (upsertRoutine w params) d = (Ok r, s) ->
  failures t_routine_exercises v_insert (trace s) = 0%nat ->
  r = next_uuid d
  /\ routines (db s)
     = routines d ++ [{| rt_id := r; rt_pt_id := p_ptId params;
                         rt_client_id := p_clientId params;
                         rt_routine_name := p_name params |}]
  /\ routine_exercises (db s) = routine_exercises d ++ rows_of r (db s)
  /\ Forall2 (row_of_exercise (db s) (p_ptId params) r (S (next_uuid d)))
             (indexed 0 (p_exercises params)) (rows_of r (db s))
  /\ map re_position (rows_of r (db s))
     = seq 0 (length (p_exercises params)).
Proof.
  intros Hq Hnew Hfresh H Hins. unfold request in H.
  rewrite upsertRoutine_unfold in H.
  unfold write_routine, bind, query in H. rewrite Hnew in H.
  simpl in H. rewrite !Hq in H.
  destruct (faults w 0); [discriminate|]. simpl in H.
  match type of H with
  | context [insert_exercises w ?pt ?i ?e ?p ?s1] =>
      destruct (insert_exercises w pt i e p s1) as [r' s'] eqn:L
  end.
  destruct r' as [[]|m]; [|discriminate]. inv H.
  pose proof L as Hacc.
  apply insert_exercises_account in Hacc as (tr & out & [Ht _] & _ & _).
  simpl in Ht.
  destruct (insert_exercises_rows w _ _ _ Hq _ _ _ _ L)
    as (new & J1 & J2 & _ & _ & J5 & J6 & J7).
  simpl in J1, J2, J5, J6, J7.
  assert (Hrows : rows_of (next_uuid d) (db s) = new).
  { unfold rows_of. rewrite J1, filter_app.
    rewrite (rows_of_own _ _ _ J5).
    rewrite (rows_of_absent _ _ Hfresh). reflexivity. }
  assert (Hmatch : Forall2 (row_of_exercise (db s) (p_ptId params)
                              (next_uuid d) (S (next_uuid d)))
                     (indexed 0 (p_exercises params)) new).
  { apply J7; [reflexivity|]. rewrite Hins. reflexivity. }
  rewrite Hrows. split; [reflexivity|]. split; [exact J2|].
  split; [exact J1|]. split; [exact Hmatch|].
  rewrite J6. f_equal. apply Forall2_length in Hmatch.
  rewrite <- Hmatch. unfold indexed. rewrite length_combine, length_seq.
  apply Nat.min_id.
Qed.

Lemma upsertRoutine_creates_witness :
  fst (request (upsertRoutine calm Flaky.plan) Update.before) = Ok 6%nat
  /\ map re_position (rows_of 6 Shared.both) = [0; 1]%nat.
Proof.
  assert (Hrun : request (upsertRoutine calm Flaky.plan) Update.before
                 = (Ok 6%nat,
                    snd (request (upsertRoutine calm Flaky.plan)
                           Update.before)))
    by (vm_compute; reflexivity).
  assert (Hfresh : forall row, In row (routine_exercises Update.before) ->
                               re_routine_id row <> next_uuid Update.before).
  { vm_compute. intros row [<-|[<-|[]]]; discriminate. }
  assert (Hins : failures t_routine_exercises v_insert
                   (trace (snd (request (upsertRoutine calm Flaky.plan)
                                  Update.before))) = 0%nat)
    by (vm_compute; reflexivity).
  destruct (upsertRoutine_creates calm Flaky.plan Update.before 6 _
              (fun n d => eq_refl) eq_refl Hfresh Hrun Hins)
    as (_ & _ & _ & _ & Hpos).
  split; [rewrite Hrun; reflexivity|exact Hpos].
Defined.

Lemma upsertRoutine_positions_contiguous_witness :
  map re_position
      (rows_of 0 (db (snd (request (upsertRoutine calm Update.shorter)
                             Update.before))))
  = seq 0 (length
             (rows_of 0 (db (snd (request (upsertRoutine calm Update.shorter)
                                    Update.before))))).
Proof.
  assert (Hrun : request (upsertRoutine calm Update.shorter) Update.before
                 = (Ok 0%nat,
                    snd (request (upsertRoutine calm Update.shorter)
                           Update.before)))
    by (vm_compute; reflexivity).
  assert (Hdel : failures t_routine_exercises v_delete
                   (trace (snd (request (upsertRoutine calm Update.shorter)
                                  Update.before))) = 0%nat)
    by (vm_compute; reflexivity).
  exact (upsertRoutine_positions_contiguous calm Update.shorter 0
           Update.before 0 _ (fun n d => eq_refl) eq_refl Hrun Hdel).
Defined.

(* ================================================================== *)
(** * The sets a client sees *)

Section SortKeys.

Context {A : Type} (key : A -> Z).

Lemma insert_by_keys (x : A) (l : list A) :
  map key (insert_by key x l) = insert_by (fun d => d) (key x) (map key l).
Proof.
  induction l as [|y l IH]; simpl; [reflexivity|].
  destruct (key x <=? key y); simpl; [reflexivity|].
  rewrite IH. reflexivity.
Qed.

Lemma sort_by_keys (l : list A) : map key (sort_by key l) = sort (map key l).
Proof.
  unfold sort. induction l as [|x l IH]; simpl; [reflexivity|].
  rewrite insert_by_keys, IH. reflexivity.
Qed.

Lemma sort_by_length (l : list A) : length (sort_by key l) = length l.
Proof.
  rewrite <- (length_map key), sort_by_keys.
  rewrite <- (length_map key l). generalize (map key l). clear l.
  intros l. unfold sort. induction l as [|x l IH]; simpl; [reflexivity|].
  rewrite <- IH. generalize (sort_by (fun d : Z => d) l). clear.
  intros l. induction l as [|y l IH]; simpl; [reflexivity|].
  destruct (x <=? y); simpl; [reflexivity|]. rewrite IH. reflexivity.
Qed.

Lemma sort_by_keys_distinct (l : list A) :
  NoDup (map key l) -> NoDup (map key (sort_by key l)).
Proof.
  intros H. rewrite sort_by_keys. apply sort_by_NoDup. exact H.
Qed.

Lemma same_key_same (l : list A) (x y : A) :
  NoDup (map key l) -> In x l -> In y l -> key x = key y -> x = y.
Proof.
  induction l as [|z l IH]; simpl; [tauto|].
  intros Hnd Hx Hy E. apply NoDup_cons_iff in Hnd as [Hz Hl].
  destruct Hx as [->|Hx], Hy as [->|Hy]; auto.
  - exfalso. apply Hz. rewrite E. apply in_map. exact Hy.
  - exfalso. apply Hz. rewrite <- E. apply in_map. exact Hx.
Qed.

Lemma key_sorted_same (l : list A) :
  forall l',
    key_sorted key l -> key_sorted key l' ->
    NoDup (map key l) -> NoDup (map key l') ->
    (forall x, In x l <-> In x l') ->
    l = l'.
Proof.
  induction l as [|x l IH]; intros [|y l'] Hs Hs' Hn Hn' Hsame.
  - reflexivity.
  - exfalso. apply (proj2 (Hsame y)). left. reflexivity.
  - exfalso. apply (proj1 (Hsame x)). left. reflexivity.
  - destruct Hs as [Hx Hl], Hs' as [Hy Hl'].
    assert (Hxy : x = y).
    { pose proof (proj1 (Hsame x) (or_introl eq_refl)) as X.
      pose proof (proj2 (Hsame y) (or_introl eq_refl)) as Y.
      destruct X as [->|X]; [reflexivity|].
      destruct Y as [->|Y]; [reflexivity|].
      specialize (Hx y Y). specialize (Hy x X).
      apply (same_key_same (x :: l) x y Hn);
        [left; reflexivity|right; exact Y|lia]. }
    subst y. f_equal.
    simpl in Hn, Hn'. apply NoDup_cons_iff in Hn as [Nx Nl].
    apply NoDup_cons_iff in Hn' as [Nx' Nl'].
    apply IH; try assumption. intros z. split; intros Hz.
    + destruct (proj1 (Hsame z) (or_intror Hz)) as [->|H]; [|exact H].
      exfalso. apply Nx. apply in_map. exact Hz.
    + destruct (proj2 (Hsame z) (or_intror Hz)) as [->|H]; [|exact H].
      exfalso. apply Nx'. apply in_map. exact Hz.
Qed.

Lemma sort_by_members (l l' : list A) :
  NoDup (map key l) -> NoDup (map key l') ->
  (forall x, In x l <-> In x l') ->
  sort_by key l = sort_by key l'.
Proof.
  intros Hn Hn' Hsame. apply key_sorted_same.
  - apply sort_by_sorted.
  - apply sort_by_sorted.
  - apply sort_by_keys_distinct. exact Hn.
  - apply sort_by_keys_distinct. exact Hn'.
  - intros x. rewrite !sort_by_In. apply Hsame.
Qed.

Lemma sort_by_sorted_same (l : list A) :
  key_sorted key l -> sort_by key l = l.
Proof.
  induction l as [|x l IH]; simpl; [reflexivity|].
  intros [Hx Hl]. rewrite (IH Hl).
  destruct l as [|y l]; [reflexivity|]. simpl.
  destruct (Z.leb_spec (key x) (key y)) as [_|Hlt]; [reflexivity|].
  specialize (Hx y (or_introl eq_refl)). lia.
Qed.

End SortKeys.

Lemma String_of_Z_nonempty (n : Z) : Js.String_of_Z n <> "".
Proof.
  unfold Js.String_of_Z.
  destruct (Z.to_int n) as [d|d]; simpl; [|discriminate].
  destruct d; simpl; discriminate.
Qed.

Lemma formatRepsFallback_nonempty (min max : option Z) :
  formatRepsFallback min max <> "".
Proof.
  unfold formatRepsFallback.
  destruct min as [a|]; simpl; [|discriminate].
  assert (Ha : forall t, (Js.String_of_Z a ++ t)%string <> "").
  { intros t E. pose proof (String_of_Z_nonempty a) as N.
    destruct (Js.String_of_Z a); [apply N; reflexivity|discriminate]. }
  destruct (negb (a =? 0)); simpl; [|discriminate].
  destruct (Js.truthy max && _); [apply Ha|apply String_of_Z_nonempty].
Qed.

Lemma reps_text_nonempty (exercise : View.ExerciseJoin)
    (set : View.StoredSet) :
  View.reps_text exercise set <> "".
Proof.
  unfold View.reps_text.
  assert (Hc : (if Js.truthy (View.target_reps set)
                then Js.String_ (View.target_reps set)
                else formatRepsFallback (View.prescribed_reps_min exercise)
                       (View.prescribed_reps_max exercise)) <> "").
  { destruct (View.target_reps set) as [n|]; simpl;
      [|apply formatRepsFallback_nonempty].
    destruct (negb (n =? 0));
      [apply String_of_Z_nonempty|apply formatRepsFallback_nonempty]. }
  destruct (View.target_rep_range set) as [range|]; [|exact Hc].
  destruct (String.eqb_spec range ""); [exact Hc|assumption].
Qed.

(** Every set [formatSets] answers has a text for its reps, and has a text
    for its rest as soon as the exercise row or the catalog entry has a
    rest. *)
Theorem formatSets_never_blank (exercise : View.ExerciseJoin)
    (defaultRestSeconds : option Z) (v : View.SetView) :
  In v (View.formatSets exercise defaultRestSeconds) ->
  View.reps v <> ""
  /\ (View.prescribed_rest_seconds exercise <> None
      \/ defaultRestSeconds <> None ->
      View.rest v <> "").
Proof.
  intros Hv.
  assert (Hrest : forall own,
             View.prescribed_rest_seconds exercise <> None
             \/ defaultRestSeconds <> None ->
             View.rest_text
               (View.or_else own
                  (View.or_else (View.prescribed_rest_seconds exercise)
                     defaultRestSeconds)) <> "").
  { intros own Hsome. destruct own as [n|]; simpl;
      [apply String_of_Z_nonempty|].
    destruct (View.prescribed_rest_seconds exercise) as [n|]; simpl;
      [apply String_of_Z_nonempty|].
    destruct defaultRestSeconds as [n|]; simpl;
      [apply String_of_Z_nonempty|].
    destruct Hsome as [H|H]; elim H; reflexivity. }
  unfold View.formatSets in Hv.
  destruct (View.ej_routine_exercise_sets exercise) as [|s0 stored].
  - apply in_map_iff in Hv as (i & <- & _). simpl.
    split; [apply formatRepsFallback_nonempty|]. exact (Hrest None).
  - apply in_map_iff in Hv as (set & <- & _). simpl.
    split; [apply reps_text_nonempty|]. apply Hrest.
Qed.

Lemma sort_by_rearranges {A : Type} (key : A -> Z) (l : list A) :
  Permutation.Permutation l (sort_by key l).
Proof.
  induction l as [|x l IH]; simpl; [constructor|].
  apply Permutation.Permutation_trans with (x :: sort_by key l);
    [constructor; exact IH|].
  generalize (sort_by key l). clear. intros l.
  induction l as [|y l IH]; simpl; [apply Permutation.Permutation_refl|].
  destruct (key x <=? key y); [apply Permutation.Permutation_refl|].
  apply Permutation.Permutation_trans with (y :: x :: l); [constructor|].
  constructor. exact IH.
Qed.

Lemma key_sorted_ordered {A : Type} (key : A -> Z) (l : list A) :
  key_sorted key l -> Sorted.StronglySorted Z.le (map key l).
Proof.
  induction l as [|x l IH]; simpl; [constructor|].
  intros [Hx Hl]. constructor; [apply IH; exact Hl|].
  apply Forall_forall. intros k Hk.
  apply in_map_iff in Hk as (y & <- & Hy). apply Hx. exact Hy.
Qed.

Lemma numbers_from (n start : nat) :
  Sorted.StronglySorted Z.le (map (fun i => Z.of_nat i + 1) (seq start n)).
Proof.
  revert start. induction n as [|n IH]; intros start; simpl; [constructor|].
  constructor; [apply IH|].
  apply Forall_forall. intros k Hk.
  apply in_map_iff in Hk as (i & <- & Hi). apply in_seq in Hi. lia.
Qed.

(** The numbers of the sets [formatSets] answers are in ascending order.
    With stored sets they are the stored numbers, each as often as it is
    stored, so there is one set for each stored set whatever
    [prescribed_sets] says; with none they are 1 to [prescribed_sets], and
    there is no set at all when that is null or not positive. *)
Theorem formatSets_numbers (exercise : View.ExerciseJoin)
    (defaultRestSeconds : option Z) :
  Sorted.StronglySorted Z.le
    (map View.setNumber (View.formatSets exercise defaultRestSeconds))
  /\ match View.ej_routine_exercise_sets exercise with
     | [] =>
         map View.setNumber (View.formatSets exercise defaultRestSeconds)
         = map (fun i => Z.of_nat i + 1)
               (seq 0 (Z.to_nat
                         (View.or_default (View.prescribed_sets exercise)
                            0)))
     | stored =>
         Permutation.Permutation (map View.set_number stored)
           (map View.setNumber (View.formatSets exercise defaultRestSeconds))
     end.
Proof.
  unfold View.formatSets.
  destruct (View.ej_routine_exercise_sets exercise) as [|s0 stored].
  - rewrite map_map. cbn [View.setNumber]. split; [|reflexivity].
    apply numbers_from.
  - rewrite map_map. cbn [View.setNumber].
    change (map (fun x => View.set_number x)
              (sort_by View.set_number (s0 :: stored)))
      with (map View.set_number (sort_by View.set_number (s0 :: stored))).
    split.
    + apply key_sorted_ordered. apply sort_by_sorted.
    + apply Permutation.Permutation_map. apply sort_by_rearranges.
Qed.

(** The order in which the store returns the sets of an exercise does not
    matter: two lists of the same sets, each with the numbers of its sets
    different, give the same view. *)
Theorem formatSets_any_order (exercise : View.ExerciseJoin)
    (defaultRestSeconds : option Z) (stored stored' : list View.StoredSet) :
  NoDup (map View.set_number stored) ->
  NoDup (map View.set_number stored') ->
  (forall set, In set stored <-> In set stored') ->
  View.formatSets (View.with_sets exercise stored) defaultRestSeconds
  = View.formatSets (View.with_sets exercise stored') defaultRestSeconds.
Proof.
  intros Hn Hn' Hsame. unfold View.formatSets.
  cbn [View.with_sets View.ej_routine_exercise_sets
       View.prescribed_rest_seconds View.prescribed_weight
       View.prescribed_sets View.prescribed_reps_min
       View.prescribed_reps_max].
  rewrite (sort_by_members View.set_number stored stored' Hn Hn' Hsame).
  destruct stored as [|s0 stored], stored' as [|s0' stored'].
  - reflexivity.
  - exfalso. apply (proj2 (Hsame s0')). left. reflexivity.
  - exfalso. apply (proj1 (Hsame s0)). left. reflexivity.
  - apply map_ext. intros set. unfold View.reps_text. reflexivity.
Qed.

Lemma formatSets_never_blank_witness :
  let v := {| View.setNumber := 1; View.reps := "8"; View.rest := "90";
              View.targetWeight := Some 4000 |} in
  In v (View.formatSets Shown.press None)
  /\ View.reps v <> "" /\ View.rest v <> "".
Proof.
  intros v.
  assert (Hin : In v (View.formatSets Shown.press None))
    by (vm_compute; left; reflexivity).
  destruct (formatSets_never_blank Shown.press None v Hin) as [A B].
  split; [exact Hin|]. split; [exact A|]. apply B. left. discriminate.
Defined.

Lemma formatSets_any_order_witness :
  View.formatSets Shown.press None
  = View.formatSets
      (View.with_sets Shown.press [Shown.first; Shown.second]) None.
Proof.
  refine (formatSets_any_order Shown.press None
            [Shown.second; Shown.first] [Shown.first; Shown.second]
            _ _ _).
  - simpl. constructor; [intros [H|[]]; discriminate|].
    constructor; [intros []|constructor].
  - simpl. constructor; [intros [H|[]]; discriminate|].
    constructor; [intros []|constructor].
  - intros set. simpl. tauto.
Defined.

(* ================================================================== *)
(** * A logged workout and the last workout *)

Lemma push_sets_rows (sessionLogId exerciseId : nat)
    (sets : list Workout.SetBody) :
  forall index,
    map Workout.ls_set_number
        (Workout.push_sets sessionLogId exerciseId index sets)
    = map (fun i => Z.of_nat i + 1) (seq index (length sets))
    /\ Forall (fun row => Workout.session_log_id row = sessionLogId
                          /\ Workout.exercise_id row = exerciseId)
              (Workout.push_sets sessionLogId exerciseId index sets)
    /\ map Workout.logged_reps
           (Workout.push_sets sessionLogId exerciseId index sets)
       = map (fun set => View.or_else (Workout.sb_reps set)
                           (Workout.sb_logged_reps set)) sets
    /\ map Workout.logged_weight
           (Workout.push_sets sessionLogId exerciseId index sets)
       = map (fun set => View.or_else (Workout.sb_weight set)
                           (Workout.sb_logged_weight set)) sets
    /\ map Workout.logged_rpe
           (Workout.push_sets sessionLogId exerciseId index sets)
       = map Workout.sb_rpe sets
    /\ map Workout.actual_rest_seconds
           (Workout.push_sets sessionLogId exerciseId index sets)
       = map Workout.sb_rest sets.
Proof.
  induction sets as [|set sets IH]; intros index; simpl.
  - repeat split; constructor.
  - destruct (IH (S index)) as (N & F & R & W & P & T).
    rewrite N, R, W, P, T. repeat split; try reflexivity.
    constructor; [split; reflexivity|exact F].
Qed.

Lemma push_sets_sorted (sessionLogId exerciseId : nat)
    (sets : list Workout.SetBody) :
  forall index,
    key_sorted Workout.ls_set_number
      (Workout.push_sets sessionLogId exerciseId index sets)
    /\ forall row,
         In row (Workout.push_sets sessionLogId exerciseId index sets) ->
         Z.of_nat index + 1 <= Workout.ls_set_number row
         <= Z.of_nat index + Z.of_nat (length sets).
Proof.
  induction sets as [|set sets IH]; intros index; simpl.
  - split; [exact I|intros row []].
  - destruct (IH (S index)) as [Hs Hb]. split; [split; [|exact Hs]|].
    + intros row Hrow. specialize (Hb row Hrow). simpl. lia.
    + intros row [<-|Hrow]; [simpl; lia|].
      specialize (Hb row Hrow). lia.
Qed.

Lemma filter_all_rows (p : Workout.LogSet -> bool)
    (l : list Workout.LogSet) :
  (forall row, In row l -> p row = true) -> filter p l = l.
Proof.
  induction l as [|x l IH]; intros H; [reflexivity|]. simpl.
  rewrite (H x (or_introl eq_refl)). f_equal. apply IH.
  intros row Hrow. apply H. right. exact Hrow.
Qed.

Lemma filter_no_rows (p : Workout.LogSet -> bool)
    (l : list Workout.LogSet) :
  (forall row, In row l -> p row = false) -> filter p l = [].
Proof.
  induction l as [|x l IH]; intros H; [reflexivity|]. simpl.
  rewrite (H x (or_introl eq_refl)). apply IH.
  intros row Hrow. apply H. right. exact Hrow.
Qed.

(** The rows of the body exercises that name a routine exercise with
    another catalog entry than [exId]. *)
Lemma setsPayload_others (routine : View.RoutineSummary)
    (sessionLogId exId : nat) (body : list Workout.ExerciseBody) :
  (forall e, In e body ->
     forall ex, find (Workout.names e) (View.exercises routine) = Some ex ->
                View.exerciseId ex <> exId) ->
  filter (fun set => Nat.eqb (Workout.exercise_id set) exId)
         (Workout.setsPayload routine sessionLogId body) = [].
Proof.
  intros H. apply filter_no_rows. intros row Hrow.
  unfold Workout.setsPayload in Hrow.
  apply in_flat_map in Hrow as (e & He & Hrow).
  destruct (find (Workout.names e) (View.exercises routine)) as [ex|] eqn:F;
    [|elim Hrow].
  destruct (push_sets_rows sessionLogId (View.exerciseId ex)
              (Workout.eb_sets e) 0) as (_ & Hall & _).
  rewrite Forall_forall in Hall. destruct (Hall row Hrow) as [_ Hid].
  rewrite Hid. apply Nat.eqb_neq. exact (H e He ex F).
Qed.

(** Each row the log route builds is of the new session and of the catalog
    entry of an exercise of the routine that a body exercise names by the
    id of its row, by the id of its catalog entry or by its name; its number
    is a position, from 1, among the sets of that body exercise.  Body
    exercises that name no exercise of the routine give no row. *)
Theorem setsPayload_rows (routine : View.RoutineSummary)
    (sessionLogId : nat) (body : list Workout.ExerciseBody)
    (row : Workout.LogSet) :
  In row (Workout.setsPayload routine sessionLogId body) ->
  Workout.session_log_id row = sessionLogId
  /\ exists exercise ex,
       In exercise body /\ In ex (View.exercises routine)
       /\ Workout.names exercise ex = true
       /\ Workout.exercise_id row = View.exerciseId ex
       /\ 1 <= Workout.ls_set_number row
          <= Z.of_nat (length (Workout.eb_sets exercise)).
Proof.
  intros Hrow. unfold Workout.setsPayload in Hrow.
  apply in_flat_map in Hrow as (e & He & Hrow).
  destruct (find (Workout.names e) (View.exercises routine)) as [ex|] eqn:F;
    [|elim Hrow].
  apply find_some in F as [Hex Hnames].
  destruct (push_sets_rows sessionLogId (View.exerciseId ex)
              (Workout.eb_sets e) 0) as (_ & Hall & _).
  rewrite Forall_forall in Hall. destruct (Hall row Hrow) as [Hs Hid].
  destruct (push_sets_sorted sessionLogId (View.exerciseId ex)
              (Workout.eb_sets e) 0) as [_ Hb].
  specialize (Hb row Hrow). split; [exact Hs|].
  exists e, ex. repeat split; try assumption; simpl in Hb; lia.
Qed.

Lemma setsPayload_rows_witness :
  Workout.session_log_id
    {| Workout.session_log_id := 9; Workout.exercise_id := 3;
       Workout.ls_set_number := 1; Workout.logged_weight := Some 6000;
       Workout.logged_reps := Some 10; Workout.logged_rpe := None;
       Workout.actual_rest_seconds := Some 90 |} = 9%nat
  /\ length (Workout.setsPayload Logged.routine 9
               [Logged.squats; Logged.plank; Logged.presses]) = 3%nat.
Proof.
  assert (Hin : In {| Workout.session_log_id := 9; Workout.exercise_id := 3;
                      Workout.ls_set_number := 1;
                      Workout.logged_weight := Some 6000;
                      Workout.logged_reps := Some 10;
                      Workout.logged_rpe := None;
                      Workout.actual_rest_seconds := Some 90 |}
                   (Workout.setsPayload Logged.routine 9
                      [Logged.squats; Logged.plank; Logged.presses]))
    by (vm_compute; right; right; left; reflexivity).
  destruct (setsPayload_rows _ _ _ _ Hin) as [Hs _].
  split; [exact Hs|vm_compute; reflexivity].
Defined.

(** Logging and reading back.  Take the rows the log route builds from a
    body as the sets of the session [fetchLastWorkout] selects.  For a body
    exercise that names the exercise [ex] of the routine, when the other
    body exercises name no routine exercise with the same catalog entry,
    the last workout shows for [ex] the sets of that body exercise in their
    order, numbered from 1, with 0 for reps or a weight that is missing. *)
Theorem log_then_last (routine : View.RoutineSummary) (sessionLogId : nat)
    (before after : list Workout.ExerciseBody)
    (exercise : Workout.ExerciseBody) (ex : View.ExerciseView) :
  find (Workout.names exercise) (View.exercises routine) = Some ex ->
  (forall e, In e (before ++ after) ->
     forall ex', find (Workout.names e) (View.exercises routine) = Some ex' ->
                 View.exerciseId ex' <> View.exerciseId ex) ->
  exists shown,
    In shown
       (Workout.last_exercises routine
          (Workout.setsPayload routine sessionLogId
             (before ++ exercise :: after)))
    /\ Workout.lg_exerciseId shown = View.exerciseId ex
    /\ map Workout.lg_setNumber (Workout.lg_sets shown)
       = map (fun i => Z.of_nat i + 1)
             (seq 0 (length (Workout.eb_sets exercise)))
    /\ map Workout.lg_reps (Workout.lg_sets shown)
       = map (fun set => View.or_default
                           (View.or_else (Workout.sb_reps set)
                              (Workout.sb_logged_reps set)) 0)
             (Workout.eb_sets exercise)
    /\ map Workout.lg_weight (Workout.lg_sets shown)
       = map (fun set => View.or_default
                           (View.or_else (Workout.sb_weight set)
                              (Workout.sb_logged_weight set)) 0)
             (Workout.eb_sets exercise)
    /\ map Workout.lg_rpe (Workout.lg_sets shown)
       = map Workout.sb_rpe (Workout.eb_sets exercise)
    /\ map Workout.lg_rest (Workout.lg_sets shown)
       = map Workout.sb_rest (Workout.eb_sets exercise).
Proof.
  intros Hfind Hothers.
  pose proof (find_some _ _ Hfind) as [Hex _].
  set (rows := Workout.push_sets sessionLogId (View.exerciseId ex) 0
                 (Workout.eb_sets exercise)).
  assert (Hkept : filter (fun set => Nat.eqb (Workout.exercise_id set)
                                             (View.exerciseId ex))
                    (Workout.setsPayload routine sessionLogId
                       (before ++ exercise :: after)) = rows).
  { unfold Workout.setsPayload. rewrite flat_map_app, filter_app.
    simpl flat_map. rewrite filter_app, Hfind.
    fold (Workout.setsPayload routine sessionLogId before).
    fold (Workout.setsPayload routine sessionLogId after).
    rewrite !setsPayload_others.
    - simpl. rewrite app_nil_r. apply filter_all_rows. intros row Hrow.
      destruct (push_sets_rows sessionLogId (View.exerciseId ex)
                  (Workout.eb_sets exercise) 0) as (_ & Hall & _).
      rewrite Forall_forall in Hall. destruct (Hall row Hrow) as [_ ->].
      apply Nat.eqb_refl.
    - intros e He. apply Hothers. apply in_or_app. right. exact He.
    - intros e He. apply Hothers. apply in_or_app. left. exact He. }
  eexists. split.
  - unfold Workout.last_exercises. apply in_map_iff.
    exists ex. split; [reflexivity|exact Hex].
  - cbn [Workout.lg_exerciseId Workout.lg_sets]. rewrite Hkept.
    destruct (push_sets_sorted sessionLogId (View.exerciseId ex)
                (Workout.eb_sets exercise) 0) as [Hsorted _].
    fold rows in Hsorted. rewrite (sort_by_sorted_same _ _ Hsorted).
    destruct (push_sets_rows sessionLogId (View.exerciseId ex)
                (Workout.eb_sets exercise) 0) as (N & _ & R & W & P & T).
    fold rows in N, R, W, P, T. rewrite !map_map.
    cbn [Workout.lg_setNumber Workout.lg_reps Workout.lg_weight
         Workout.lg_rpe Workout.lg_rest].
    split; [reflexivity|]. split; [exact N|].
    split; [rewrite <- (map_map Workout.logged_reps
                          (fun v => View.or_default v 0)), R, map_map;
            reflexivity|].
    split; [rewrite <- (map_map Workout.logged_weight
                          (fun v => View.or_default v 0)), W, map_map;
            reflexivity|].
    split; [exact P|exact T].
Qed.

Lemma log_then_last_witness :
  exists shown,
    In shown
       (Workout.last_exercises Logged.routine
          (Workout.setsPayload Logged.routine 9
             [Logged.squats; Logged.plank; Logged.presses]))
    /\ Workout.lg_exerciseId shown = 3%nat
    /\ map Workout.lg_reps (Workout.lg_sets shown) = [10].
Proof.
  assert (Hfind : find (Workout.names Logged.presses)
                    (View.exercises Logged.routine)
                  = Some (View.exercise_view Shown.press))
    by (vm_compute; reflexivity).
  assert (Hothers :
            forall e, In e ([Logged.squats; Logged.plank] ++ []) ->
              forall ex',
                find (Workout.names e) (View.exercises Logged.routine)
                = Some ex' ->
                View.exerciseId ex'
                <> View.exerciseId (View.exercise_view Shown.press)).
  { intros e [<-|[<-|[]]] ex'; vm_compute; intros H; [|discriminate H].
    inversion H. subst ex'. discriminate. }
  destruct (log_then_last Logged.routine 9 [Logged.squats; Logged.plank] []
              Logged.presses (View.exercise_view Shown.press) Hfind Hothers)
    as (shown & Hin & Hid & _ & Hreps & _).
  exists shown. split; [exact Hin|]. split; [exact Hid|exact Hreps].
Defined.

(* ================================================================== *)
(** * The limit of an exercise search *)

(** One digit of a numeral read by [Search.digits]. *)
Ltac read_digit IH rest Hrest :=
  cbn [NilEmpty.string_of_uint append Search.digits Pos.of_uint_acc];
  match goal with
  | |- context [Search.digit ?c] =>
      let v := eval vm_compute in (Search.digit c) in
      change (Search.digit c) with v
  end;
  cbn [View.or_default];
  rewrite <- (IH _ rest Hrest); do 2 f_equal; lia.

Lemma digits_acc (d : Decimal.uint) :
  forall (acc : positive) (rest : string),
    match rest with
    | String c _ => Search.digit c = None
    | EmptyString => True
    end ->
    Search.digits (Some (Z.pos acc)) (NilEmpty.string_of_uint d ++ rest)
    = Some (Z.pos (Pos.of_uint_acc d acc)).
Proof.
  induction d; intros acc rest Hrest; try read_digit IHd rest Hrest.
  simpl. destruct rest as [|c rest]; [reflexivity|]. simpl.
  rewrite Hrest. reflexivity.
Qed.

Lemma digits_zero (d : Decimal.uint) (rest : string) :
  match rest with
  | String c _ => Search.digit c = None
  | EmptyString => True
  end ->
  Search.digits (Some 0) (NilEmpty.string_of_uint d ++ rest)
  = Some (Z.of_N (Pos.of_uint d)).
Proof.
  intros Hrest. induction d;
    try (cbn [NilEmpty.string_of_uint append Search.digits Pos.of_uint];
         match goal with
         | |- context [Search.digit ?c] =>
             let v := eval vm_compute in (Search.digit c) in
             change (Search.digit c) with v
         end;
         cbn [View.or_default]).
  - simpl. destruct rest as [|c rest]; [reflexivity|]. simpl.
    rewrite Hrest. reflexivity.
  - exact IHd.
  - exact (digits_acc d 1 rest Hrest).
  - exact (digits_acc d 2 rest Hrest).
  - exact (digits_acc d 3 rest Hrest).
  - exact (digits_acc d 4 rest Hrest).
  - exact (digits_acc d 5 rest Hrest).
  - exact (digits_acc d 6 rest Hrest).
  - exact (digits_acc d 7 rest Hrest).
  - exact (digits_acc d 8 rest Hrest).
  - exact (digits_acc d 9 rest Hrest).
Qed.

Lemma digits_numeral (d : Decimal.uint) (rest : string) :
  d <> Decimal.Nil ->
  match rest with
  | String c _ => Search.digit c = None
  | EmptyString => True
  end ->
  Search.digits None (NilEmpty.string_of_uint d ++ rest)
  = Some (Z.of_N (Pos.of_uint d))
  /\ Search.parseInt (NilEmpty.string_of_uint d ++ rest)
     = Search.digits None (NilEmpty.string_of_uint d ++ rest).
Proof.
  intros Hd Hrest. split.
  - rewrite <- (digits_zero d rest Hrest).
    destruct d; [elim Hd; reflexivity| | | | | | | | | |]; reflexivity.
  - destruct d; [elim Hd; reflexivity| | | | | | | | | |]; reflexivity.
Qed.

Lemma text_then_nothing (s : string) : (s ++ "")%string = s.
Proof.
  induction s as [|c s IH]; simpl; [reflexivity|]. rewrite IH. reflexivity.
Qed.

Lemma parseInt_numeral (n : Z) (rest : string) :
  match rest with
  | String c _ => Search.digit c = None
  | EmptyString => True
  end ->
  Search.parseInt (Js.String_of_Z n ++ rest) = Some n.
Proof.
  intros Hrest. unfold Js.String_of_Z. destruct n as [|p|p]; simpl Z.to_int.
  - exact (eq_trans (proj2 (digits_numeral (Decimal.D0 Decimal.Nil) rest
                              ltac:(discriminate) Hrest))
                    (proj1 (digits_numeral (Decimal.D0 Decimal.Nil) rest
                              ltac:(discriminate) Hrest))).
  - pose proof (DecimalPos.Unsigned.to_uint_nonnil p) as Hp.
    destruct (digits_numeral (Pos.to_uint p) rest Hp Hrest) as [Hd Hi].
    rewrite DecimalPos.Unsigned.of_to in Hd. simpl NilZero.string_of_int.
    replace (NilZero.string_of_uint (Pos.to_uint p))
      with (NilEmpty.string_of_uint (Pos.to_uint p))
      by (destruct (Pos.to_uint p); [elim Hp|..]; reflexivity).
    rewrite Hi. exact Hd.
  - pose proof (DecimalPos.Unsigned.to_uint_nonnil p) as Hp.
    destruct (digits_numeral (Pos.to_uint p) rest Hp Hrest) as [Hd _].
    rewrite DecimalPos.Unsigned.of_to in Hd. simpl NilZero.string_of_int.
    replace (NilZero.string_of_uint (Pos.to_uint p))
      with (NilEmpty.string_of_uint (Pos.to_uint p))
      by (destruct (Pos.to_uint p); [elim Hp|..]; reflexivity).
    change (option_map Z.opp
              (Search.digits None
                 (NilEmpty.string_of_uint (Pos.to_uint p) ++ rest))
            = Some (Z.neg p)).
    rewrite Hd. reflexivity.
Qed.

(** The limit of a search is always between 1 and 25.  It is 10 when the
    parameter is absent or empty; for the decimal numeral of an integer,
    followed by nothing or by text that does not start with a digit, it is
    that integer brought into the range. *)
Theorem limit_in_range (limitParam : option string) (n : Z) (rest : string) :
  1 <= Search.limit limitParam <= 25
  /\ Search.limit None = 10
  /\ Search.limit (Some "") = 10
  /\ Search.limit (Some (Js.String_of_Z n)) = Z.min (Z.max n 1) 25
  /\ (match rest with
      | String c _ => Search.digit c = None
      | EmptyString => True
      end ->
      Search.limit (Some (Js.String_of_Z n ++ rest)%string) = Z.min (Z.max n 1) 25).
Proof.
  split; [|split; [reflexivity|split; [reflexivity|split]]].
  - unfold Search.limit. destruct (Search.parseInt _); lia.
  - unfold Search.limit. cbn [View.or_default].
    pose proof (parseInt_numeral n "" I) as H.
    rewrite text_then_nothing in H. rewrite H. reflexivity.
  - intros Hrest. unfold Search.limit. cbn [View.or_default].
    rewrite (parseInt_numeral n rest Hrest). reflexivity.
Qed.

Lemma limit_in_range_witness :
  Search.limit (Some (Js.String_of_Z 12 ++ ".7")%string) = 12.
Proof.
  exact (proj2 (proj2 (proj2 (proj2 (limit_in_range None 12 ".7"))))
           eq_refl).
Defined.

(* ================================================================== *)
(** * What an alert of the dashboard stands for *)

Lemma fetch_client_ids_In (assignments : list Assignment) (pt client : nat) :
  mem client (fetch_client_ids assignments pt) = true ->
  exists a, In a assignments /\ pc_pt_id a = pt /\ pc_client_id a = client
            /\ pc_active a = true.
Proof.
  unfold mem, fetch_client_ids. intros H.
  apply existsb_exists in H as (c & Hc & E). apply Nat.eqb_eq in E. subst c.
  apply in_map_iff in Hc as (a & Ha & Hin).
  apply filter_In in Hin as [Hin Hp].
  apply andb_true_iff in Hp as [Hpt Hact]. apply Nat.eqb_eq in Hpt.
  exists a. auto.
Qed.

Lemma find_last_profile (ids : list nat) (client : nat)
    (rows : list Profile) :
  mem client ids = true ->
  clientIdToProfile (fetch_client_profiles rows ids) client
  = clientIdToProfile rows client.
Proof.
  intros Hmem. unfold clientIdToProfile, fetch_client_profiles.
  induction rows as [|p rows IH]; [reflexivity|]. simpl.
  assert (Hfind : forall (l : list Profile) (q : Profile),
             find (fun x => Nat.eqb (pr_id x) client) (l ++ [q])
             = match find (fun x => Nat.eqb (pr_id x) client) l with
               | Some x => Some x
               | None => if Nat.eqb (pr_id q) client then Some q else None
               end).
  { induction l as [|y l IHl]; intros q; simpl; [reflexivity|].
    destruct (Nat.eqb (pr_id y) client); [reflexivity|apply IHl]. }
  rewrite Hfind, <- IH.
  destruct (mem (pr_id p) ids) eqn:M; simpl.
  - rewrite Hfind. reflexivity.
  - destruct (find _ (rev (filter _ rows))); [reflexivity|].
    destruct (Nat.eqb_spec (pr_id p) client) as [E|]; [|reflexivity].
    rewrite E, Hmem in M. discriminate.
Qed.

(** Every alert of the dashboard is for a session of the trainer with a
    client who has an active assignment to the trainer; the session starts
    no earlier than the first reading of the clock and no later than 15
    minutes after the second.  The issue of the alert is a stored log of
    that client and is never a resolved one.  The name is that of the
    profile of the client, and ["Client"] when there is no such profile. *)
Theorem alerts_sound (t : Tables) (pt : nat) (now0 now1 : Z) (a : Alert) :
  In a (alerts t pt now0 now1) ->
  (exists e,
     In e (pt_calendar_events t) /\ ev_id e = eventId a /\ ev_pt_id e = pt
     /\ ev_event_type e = session /\ ev_client_id e = Some (clientId a)
     /\ now0 <= ev_start_at e <= now1 + 15 * 60 * 1000
     /\ sessionStart a = ev_start_at e /\ sessionEnd a = ev_end_at e)
  /\ (exists asg,
        In asg (pt_clients t) /\ pc_pt_id asg = pt
        /\ pc_client_id asg = clientId a /\ pc_active asg = true)
  /\ (exists l,
        In l (client_health_logs t) /\ hl_client_id l = clientId a
        /\ injuryTitle a = hl_injury_title l /\ status a = hl_status l)
  /\ status a <> RESOLVED
  /\ clientName a
     = match clientIdToProfile (profiles t) (clientId a) with
       | Some p => pr_full_name p
       | None => "Client"
       end.
Proof.
  intros Ha. rewrite alerts_unfold in Ha.
  apply alerts_of_In in Ha as (s & Hs & Hal).
  unfold fetch_upcoming_sessions in Hs. apply filter_In in Hs as [Hs Hp].
  apply andb_true_iff in Hp as [Hp Hhi]. apply andb_true_iff in Hp as [Hp Hlo].
  apply andb_true_iff in Hp as [Hpt Hty].
  apply Nat.eqb_eq in Hpt. apply Z.leb_le in Hlo. apply Z.leb_le in Hhi.
  unfold alert_of in Hal. destruct (ev_client_id s) as [c|] eqn:Hc;
    [|discriminate].
  pose proof (activeIssueByClient_most_recent t pt c) as Hissue.
  destruct (activeIssueByClient _ c) as [issue|]; [|discriminate].
  destruct Hissue as (Hin & Hcl & Hact & _).
  unfold client_logs in Hin. apply filter_In in Hin as [Hin Hmem].
  rewrite Hcl in Hmem.
  rewrite (find_last_profile _ _ _ Hmem) in Hal.
  inversion Hal as [Ea]. clear Hal. simpl.
  split; [|split; [|split; [|split]]].
  - exists s. repeat split; auto.
    destruct (ev_event_type s); try discriminate. reflexivity.
  - apply fetch_client_ids_In. exact Hmem.
  - exists issue. auto.
  - unfold is_active in Hact. intros E. rewrite E in Hact. discriminate.
  - reflexivity.
Qed.

Lemma alerts_sound_witness :
  exists asg,
    In asg (pt_clients Example.tables) /\ pc_pt_id asg = 1%nat
    /\ pc_client_id asg = 2%nat /\ pc_active asg = true.
Proof.
  assert (Ha : In {| eventId := 10; clientId := 2; clientName := "Cy";
                     sessionStart := 601000; sessionEnd := 4201000;
                     injuryTitle := "knee"; status := ACUTE |}
                  (alerts Example.tables 1 1000 1500))
    by (vm_compute; left; reflexivity).
  destruct (alerts_sound Example.tables 1 1000 1500 _ Ha)
    as (_ & Hasg & _).
  exact Hasg.
Defined.

(* ================================================================== *)
(** * The sets [upsertRoutine] stores *)

Lemma insert_exercise_sets_cases (w : World) (re : nat)
    (sets : list SetInput) (s s' : St) (r : Res unit) :
  quiet w ->
  insert_exercise_sets w re sets s = (r, s') ->
  (sets = [] /\ s' = s)
  \/ (trace s' = trace s ++ [op t_routine_exercise_sets v_insert true]
      /\ db s' = db s
      /\ console s' = console s ++ ["Failed to insert routine sets"])
  \/ (sets <> []
      /\ trace s' = trace s ++ [op t_routine_exercise_sets v_insert false]
      /\ routine_exercises (db s') = routine_exercises (db s)
      /\ routine_exercise_sets (db s')
         = routine_exercise_sets (db s)
           ++ Store.number_rows (next_uuid (db s)) (setsPayload re 0 sets)
      /\ next_uuid (db s') = (next_uuid (db s) + length sets)%nat
      /\ console s' = console s).
Proof.
  intros Hq H. unfold insert_exercise_sets in H.
  destruct sets as [|t sets].
  - unfold ret in H. inv H. left. auto.
  - right. unfold bind in H. destruct (query w _ _ _ s) as [r1 s1] eqn:Q.
    apply query_cases in Q as (reply & d' & -> & -> & Hcase).
    destruct (setsPayload_columns re (t :: sets) 0) as (_ & L).
    destruct Hcase as [(_ & -> & ->)|(_ & Hrun)]; rewrite Hq in *.
    + unfold console_error in H. simpl in H. inv H. left. auto.
    + rewrite insert_sets_unfold in Hrun. cbv zeta in Hrun.
      split_if Hrun;
        [inv Hrun; unfold console_error in H; simpl in H; inv H; left; auto|].
      split_if Hrun; inv Hrun;
        [unfold console_error in H; simpl in H; inv H; left; auto|].
      unfold ret in H. cbn [error nothing] in H. inv H. right.
      split; [discriminate|].
      cbn [db trace routine_exercises routine_exercise_sets next_uuid
           error nothing is_some].
      split; [reflexivity|]. split; [reflexivity|]. split; [reflexivity|].
      split; [|reflexivity]. simpl in L |- *. lia.
Qed.

Lemma no_failure_parts (t : Table) (v : Verb) (a b c : list Op) :
  failures t v (a ++ b) = failures t v a ->
  failures t v b = 0%nat.
Proof. rewrite failures_app. lia. Qed.

Lemma sets_of_app (re : nat) (old new : list SetRow) (d d' : Db) :
  routine_exercise_sets d' = routine_exercise_sets d ++ new ->
  sets_of re d'
  = sets_of re d
    ++ filter (fun x => Nat.eqb (rs_routine_exercise_id x) re) new.
Proof. intros E. unfold sets_of. rewrite E, filter_app. reflexivity. Qed.

Lemma rows_kept {A : Type} (p : A -> bool) (l : list A) :
  (forall x, In x l -> p x = true) -> filter p l = l.
Proof.
  induction l as [|x l IH]; intros H; [reflexivity|]. simpl.
  rewrite (H x (or_introl eq_refl)). f_equal. apply IH.
  intros y Hy. apply H. right. exact Hy.
Qed.

Lemma rows_dropped {A : Type} (p : A -> bool) (l : list A) :
  (forall x, In x l -> p x = false) -> filter p l = [].
Proof.
  induction l as [|x l IH]; intros H; [reflexivity|]. simpl.
  rewrite (H x (or_introl eq_refl)). apply IH.
  intros y Hy. apply H. right. exact Hy.
Qed.

(** The rows one insert of sets adds for the exercise row [re]. *)
Lemma new_sets_columns (re id : nat) (sets : list SetInput) :
  let new := Store.number_rows id (setsPayload re 0 sets) in
  (forall x, In x new -> rs_routine_exercise_id x = re)
  /\ map set_key new = map (fun n => (re, n)) (seq 1 (length sets)).
Proof.
  intros new. destruct (setsPayload_columns re sets 0) as (K & _).
  destruct (number_rows_columns (setsPayload re 0 sets) id) as (NK & _).
  fold new in NK. rewrite K in NK.
  split; [|assumption].
  intros x Hx. apply (in_map set_key) in Hx. rewrite NK in Hx.
  apply in_map_iff in Hx as (n & E & _).
  exact (eq_sym (f_equal fst E)).
Qed.



Lemma insert_exercises_carries (w : World) (pt rid : nat)
    (exs : list ExerciseInput) :
  quiet w ->
  forall (pos : nat) (s s' : St),
    insert_exercises w pt rid exs pos s = (Ok tt, s') ->
    failures t_routine_exercises v_insert (trace s')
    = failures t_routine_exercises v_insert (trace s) ->
    failures t_routine_exercise_sets v_insert (trace s')
    = failures t_routine_exercise_sets v_insert (trace s) ->
    (forall x, In x (routine_exercise_sets (db s)) ->
               (rs_routine_exercise_id x < next_uuid (db s))%nat) ->
    exists rows,
      routine_exercises (db s') = routine_exercises (db s) ++ rows
      /\ (next_uuid (db s) <= next_uuid (db s'))%nat
      /\ (forall x, In x (routine_exercise_sets (db s')) ->
                    (rs_routine_exercise_id x < next_uuid (db s'))%nat)
      /\ (forall re, (re < next_uuid (db s))%nat ->
                     sets_of re (db s') = sets_of re (db s))
      /\ Forall (fun row => (next_uuid (db s) <= re_id row)%nat) rows
      /\ Forall2 (carries (db s') rid) exs rows.
Proof.
  intros Hq. induction exs as [|ex rest IH]; intros pos s s' H Fe Fs Hold.
  - simpl in H. unfold ret in H. inv H. exists [].
    rewrite app_nil_r. repeat split; auto.
  - simpl in H. unfold bind at 1 in H.
    destruct (resolveExerciseCatalogId w pt ex s) as [r1 s1] eqn:R1.
    apply resolveExerciseCatalogId_effect in R1
      as (tr1 & out1 & [T1 _] & _ & _ & _ & Hdb).
    destruct (Hdb Hq) as [(_ & G2 & G3 & G4 & _) _]. clear Hdb.
    destruct r1 as [exId|m]; [|discriminate].
    unfold bind at 1 in H.
    destruct (query w _ _ _ s1) as [r2 s2] eqn:Q.
    pose proof (insert_routine_exercise_sets_kept _ _ _ _ _ _ _ _ Hq Q) as K.
    apply insert_routine_exercise_cases in Q
      as (reply & -> & [T2 _] & [(Ee & id & Ed & Hins)|((e & Ee) & _)]).
    + rewrite Ee, Ed in H. rewrite Ee in T2. simpl in T2.
      destruct (Hins Hq) as (-> & _ & _ & N2 & R2). clear Hins.
      unfold bind at 1 in H.
      destruct (insert_exercise_sets w _ (ex_sets ex) s2) as [r3 s3] eqn:S3.
      pose proof (insert_exercise_sets_cases _ _ _ _ _ _ Hq S3) as C3.
      apply insert_exercise_sets_effect in S3 as (-> & _).
      pose proof (insert_exercises_account _ _ _ _ _ _ _ _ H)
        as (tr4 & out4 & [T4 _] & _).
      set (re := next_uuid (db s1)) in *.
      set (new := Store.number_rows (next_uuid (db s2))
                    (setsPayload re 0 (ex_sets ex))).
      destruct (new_sets_columns re (next_uuid (db s2)) (ex_sets ex))
        as (Nre & Nkey). fold new in Nre, Nkey.
      assert (H3 : trace s3 = trace s2
                   /\ routine_exercises (db s3) = routine_exercises (db s2)
                   /\ routine_exercise_sets (db s3)
                      = routine_exercise_sets (db s2) ++ new
                   /\ (next_uuid (db s2) <= next_uuid (db s3))%nat
                   \/ trace s3 = trace s2
                                 ++ [op t_routine_exercise_sets v_insert false]
                      /\ routine_exercises (db s3) = routine_exercises (db s2)
                      /\ routine_exercise_sets (db s3)
                         = routine_exercise_sets (db s2) ++ new
                      /\ (next_uuid (db s2) <= next_uuid (db s3))%nat).
      { destruct C3 as [(E & ->)|[(T3 & _)|(_ & T3 & A & B & C & _)]].
        - left. subst new. rewrite E. simpl. rewrite app_nil_r. auto.
        - exfalso. rewrite T4, T3, T2, T1, !failures_app in Fs.
          unfold failures at 4 in Fs. simpl in Fs. lia.
        - right. rewrite C. repeat split; auto. lia. }
      assert (H3' : exists tr3,
                 trace s3 = trace s2 ++ tr3
                 /\ routine_exercises (db s3) = routine_exercises (db s2)
                 /\ routine_exercise_sets (db s3)
                    = routine_exercise_sets (db s2) ++ new
                 /\ (next_uuid (db s2) <= next_uuid (db s3))%nat).
      { destruct H3 as [(A & B)|(A & B)]; eexists; (split; [|exact B]);
          [rewrite app_nil_r; exact A|exact A]. }
      clear H3 C3. destruct H3' as (tr3 & T3 & R3 & S3 & N3).
      assert (Fe' : failures t_routine_exercises v_insert (trace s')
                    = failures t_routine_exercises v_insert (trace s3)).
      { rewrite T4, failures_app.
        rewrite T4, T3, T2, T1, !failures_app in Fe. lia. }
      assert (Fs' : failures t_routine_exercise_sets v_insert (trace s')
                    = failures t_routine_exercise_sets v_insert (trace s3)).
      { rewrite T4, failures_app.
        rewrite T4, T3, T2, T1, !failures_app in Fs. lia. }
      assert (Hold3 : forall x, In x (routine_exercise_sets (db s3)) ->
                        (rs_routine_exercise_id x < next_uuid (db s3))%nat).
      { intros x Hx. rewrite S3, K, G3 in Hx.
        apply in_app_or in Hx as [Hx|Hx].
        - specialize (Hold x Hx). lia.
        - rewrite (Nre x Hx). lia. }
      destruct (IH _ _ _ H Fe' Fs' Hold3)
        as (rows & J1 & J2 & J3 & J4 & J5 & J6).
      assert (Hnone : forall re0, (re0 < next_uuid (db s))%nat ->
                        filter (fun x => Nat.eqb (rs_routine_exercise_id x)
                                                 re0) new = []).
      { intros re0 Hre0. apply rows_dropped. intros x Hx.
        rewrite (Nre x Hx). apply Nat.eqb_neq. lia. }
      exists ({| re_id := re; re_routine_id := rid; re_exercise_id := exId;
                 re_position := pos; re_notes := ex_notes ex |} :: rows).
      split; [rewrite J1, R3, R2, G2, <- app_assoc; reflexivity|].
      split; [lia|]. split; [exact J3|]. split; [|split].
      * intros re0 Hre0. rewrite J4 by lia.
        rewrite (sets_of_app re0 (routine_exercise_sets (db s)) new
                   (db s) (db s3)) by (rewrite S3, K, G3; reflexivity).
        rewrite (Hnone re0 Hre0). apply app_nil_r.
      * constructor; [simpl; lia|].
        eapply Forall_impl; [|exact J5]. simpl. intros row Hrow. lia.
      * constructor; [|exact J6].
        assert (Hmine : sets_of re (db s') = new).
        { rewrite J4 by lia.
          rewrite (sets_of_app re (routine_exercise_sets (db s)) new
                     (db s) (db s3)) by (rewrite S3, K, G3; reflexivity).
          unfold sets_of. rewrite rows_dropped.
          - simpl. apply rows_kept. intros x Hx. rewrite (Nre x Hx).
            apply Nat.eqb_refl.
          - intros x Hx. apply Nat.eqb_neq. specialize (Hold x Hx). lia. }
        unfold carries. cbn [re_id re_routine_id]. rewrite Hmine. auto.
    + exfalso. rewrite Ee in H, T2. simpl in T2.
      assert (H' : insert_exercises w pt rid rest pos
                     {| db := db s2; clock := clock s2;
                        console := console s2
                                   ++ ["Failed to insert routine exercise"];
                        trace := trace s2 |} = (Ok tt, s')).
      { destruct (data reply); exact H. }
      pose proof (insert_exercises_account _ _ _ _ _ _ _ _ H')
        as (tr4 & out4 & [T4 _] & _).
      simpl in T4. rewrite T4, T2, T1, !failures_app in Fe.
      unfold failures at 3 in Fe. simpl in Fe. lia.
Qed.

(** With no other writer, on a store whose rows refer to ids already drawn,
    a call that answers and none of whose inserts of an exercise row or of
    sets failed leaves, as the exercise rows it wrote, one row for each
    exercise of the call, in the order of the call, each of the routine and
    each with as many stored sets as its exercise has in the call, numbered
    from 1. *)
Theorem upsertRoutine_sets (w : World) (params : RoutineParams) (d : Db)
    (r : nat) (s : St) :
  quiet w ->
  (forall row, In row (routine_exercises d) ->
               (re_id row < next_uuid d)%nat) ->
  (forall x, In x (routine_exercise_sets d) ->
             (rs_routine_exercise_id x < next_uuid d)%nat) ->
  request (upsertRoutine w params) d = (Ok r, s) ->
  failures t_routine_exercises v_insert (trace s) = 0%nat ->
  failures t_routine_exercise_sets v_insert (trace s) = 0%nat ->
  Forall2 (carries (db s) r) (p_exercises params)
          (filter (fun row => Nat.leb (next_uuid d) (re_id row))
                  (routine_exercises (db s))).
Proof.
  intros Hq Hrows Hsets H Fe Fs. unfold request in H.
  rewrite upsertRoutine_unfold in H.
  destruct (write_routine w params _) as [r1 s1] eqn:W.
  pose proof (write_routine_cases w params d) as [Wf Wok]. simpl in Wf, Wok.
  pose proof (write_routine_store _ _ _ _ _ Hq W) as Ws. simpl in Ws.
  destruct r1 as [rid|m]; [|discriminate].
  destruct (faults w 0) eqn:F0.
  { destruct (Wf eq_refl) as (line & W'). rewrite W in W'. discriminate. }
  destruct (Wok eq_refl) as (s1' & W' & _ & v & rest & T1 & Hrest).
  rewrite W in W'. inversion W' as [[Hr Hs1]]. subst s1'. clear W' Wf Wok.
  destruct (insert_exercises w (p_ptId params) rid (p_exercises params)
              0 s1) as [r2 s2] eqn:L.
  destruct r2 as [[]|m]; [|discriminate]. inv H.
  assert (F1 : failures t_routine_exercises v_insert (trace s1) = 0%nat
               /\ failures t_routine_exercise_sets v_insert (trace s1)
                  = 0%nat).
  { rewrite T1. destruct Hrest as [->|(b & ->)];
      [destruct v|destruct v, b]; split; reflexivity. }
  assert (Hs1 : (forall row, In row (routine_exercises (db s1)) ->
                             (re_id row < next_uuid d)%nat)
                /\ (forall x, In x (routine_exercise_sets (db s1)) ->
                              (rs_routine_exercise_id x
                               < next_uuid (db s1))%nat)
                /\ (next_uuid d <= next_uuid (db s1))%nat).
  { destruct Ws as [((m & [=]) & _)|(_ & Ws)].
    destruct (p_routineId params) as [rid'|].
    - destruct Ws as (_ & N & _ & [(R & S)|(R & S)]); rewrite N.
      + rewrite R, S. auto.
      + rewrite R, S. simpl. split; [|split; [|lia]].
        * intros row Hrow. apply filter_In in Hrow as [Hrow _]. auto.
        * intros x Hx. apply filter_In in Hx as [Hx _]. auto.
    - destruct Ws as (_ & ->). simpl. split; [auto|]. split; [|lia].
      intros x Hx. specialize (Hsets x Hx). lia. }
  destruct Hs1 as (Hrows1 & Hsets1 & N1). destruct F1 as [Fe1 Fs1].
  rewrite <- Fe1 in Fe. rewrite <- Fs1 in Fs.
  destruct (insert_exercises_carries w _ _ _ Hq _ _ _ L Fe Fs Hsets1)
    as (rows & J1 & _ & _ & _ & J5 & J6).
  rewrite J1, filter_app, rows_dropped, rows_kept; [exact J6| |].
  - intros row Hrow. rewrite Forall_forall in J5. specialize (J5 row Hrow).
    apply Nat.leb_le. lia.
  - intros row Hrow. specialize (Hrows1 row Hrow). apply Nat.leb_gt. lia.
Qed.

Lemma upsertRoutine_sets_witness :
  Forall2 (carries Shared.both 6) (p_exercises Flaky.plan)
          (filter (fun row => Nat.leb (next_uuid Update.before) (re_id row))
                  (routine_exercises Shared.both)).
Proof.
  assert (Hrows : forall row, In row (routine_exercises Update.before) ->
                              (re_id row < next_uuid Update.before)%nat).
  { vm_compute. intros row [<-|[<-|[]]]; lia. }
  assert (Hsets : forall x, In x (routine_exercise_sets Update.before) ->
                    (rs_routine_exercise_id x
                     < next_uuid Update.before)%nat).
  { vm_compute. intros x [<-|[]]. lia. }
  assert (Hrun : request (upsertRoutine calm Flaky.plan) Update.before
                 = (Ok 6%nat,
                    snd (request (upsertRoutine calm Flaky.plan)
                           Update.before)))
    by (vm_compute; reflexivity).
  assert (Fe : failures t_routine_exercises v_insert
                 (trace (snd (request (upsertRoutine calm Flaky.plan)
                                Update.before))) = 0%nat)
    by (vm_compute; reflexivity).
  assert (Fs : failures t_routine_exercise_sets v_insert
                 (trace (snd (request (upsertRoutine calm Flaky.plan)
                                Update.before))) = 0%nat)
    by (vm_compute; reflexivity).
  exact (upsertRoutine_sets calm Flaky.plan Update.before 6 _
           (fun n d => eq_refl) Hrows Hsets Hrun Fe Fs).
Defined.
